(** * EMR web client: credential lifecycle and resilient request pipeline

    A shallow embedding of the API client ([api-client.ts]: base URL
    resolution, retry/backoff helpers, [ApiClient.request]) and of the token
    manager ([auth-service.ts]: [scheduleTokenRefresh], [getAccessToken]),
    with the properties the specification states about them; and of the
    layers around them (the display, redaction and permission helpers of
    [security.ts], the sanitising logger of [secure-logger.ts], the role
    checks of [auth-service.ts], the retry policy of [query-client.ts], the
    patient API of [patient-api.ts]) with properties of their own.

    Conventions of the embedding.
    - JavaScript numbers are IEEE doubles; the model keeps the exact value
      (integers in [Z], delays in [Q]).  Every quantity the code computes here
      (status codes, seconds, millisecond delays up to 30000) lies in the range
      where doubles hold integers exactly.
    - Strings are sequences of 8-bit code units ([string]); header values and
      cookies are byte strings in the browser as well.
    - Platform functions whose definition is not part of the repository
      ([new URL], [new Date(string)], [decodeURIComponent]) are fields of a
      [Host] record; the network, the identity provider and [Math.random] are
      oracles indexed by the attempt number.
    - Effects are explicit: a computation maps a [World] to an [Outcome]
      (returned value or thrown value) and the new [World], whose [trace]
      lists console warnings, network calls and sleeps in program order. *)

From Stdlib Require Import String Ascii List Bool ZArith QArith Qminmax Qround Lia Lqa.
From Stdlib Require Import DecimalString DecimalZ DecimalPos DecimalN.
From Stdlib Require Import Qpower Reals Qreals Lra.
Import ListNotations.

Local Open Scope Z_scope.
Local Open Scope string_scope.

(* ===================================================================== *)
(** ** JavaScript values and string primitives                            *)
(* ===================================================================== *)

Module Js.

(** An instance of [Error] (or of a subclass / [DOMException]): its [name]
    tells the class apart, as the code itself does with [error.name]. *)
Record JsError := mkError { err_name : string; err_message : string }.

(** Values decoded from JSON bodies and stored in loosely typed fields. *)
#[warnings="-register-all"]
Inductive JsVal :=
| JUndefined
| JNull
| JBool (b : bool)
| JNum (q : Q)
| JStr (s : string)
| JArr (items : list JsVal)
| JObj (props : list (string * JsVal)).

(** ToBoolean. *)
Definition truthy (v : JsVal) : bool :=
  match v with
  | JUndefined | JNull => false
  | JBool b => b
  | JNum q => negb (Qeq_bool q 0)
  | JStr s => negb (s =? "")
  | JArr _ | JObj _ => true
  end.

(** [a || b] on values. *)
Definition js_or (a b : JsVal) : JsVal := if truthy a then a else b.

(** [typeof v === 'object' && v !== null] *)
Definition is_object (v : JsVal) : bool :=
  match v with JArr _ | JObj _ => true | _ => false end.

(** Property read [o.k] on a decoded value: own properties of an object
    (keys are unique after [JSON.parse]); anything else has none of the
    properties the client reads. *)
Fixpoint assoc {A} (k : string) (l : list (string * A)) : option A :=
  match l with
  | [] => None
  | (k', v) :: tl => if k' =? k then Some v else assoc k tl
  end.

Definition get_prop (v : JsVal) (k : string) : JsVal :=
  match v with
  | JObj props => match assoc k props with Some x => x | None => JUndefined end
  | _ => JUndefined
  end.

(** [v === 'literal'] *)
Definition strict_eq_str (v : JsVal) (lit : string) : bool :=
  match v with JStr s => s =? lit | _ => false end.

(** *** String.prototype helpers *)

Fixpoint startsWith (s p : string) : bool :=
  match p, s with
  | EmptyString, _ => true
  | String _ _, EmptyString => false
  | String b p', String a s' => Ascii.eqb a b && startsWith s' p'
  end.

Fixpoint strip_prefix (p s : string) : option string :=
  match p, s with
  | EmptyString, _ => Some s
  | String _ _, EmptyString => None
  | String b p', String a s' => if Ascii.eqb a b then strip_prefix p' s' else None
  end.

Fixpoint includes (s p : string) : bool :=
  startsWith s p ||
  match s with
  | EmptyString => false
  | String _ s' => includes s' p
  end.

Fixpoint endsWith (s p : string) : bool :=
  (s =? p) ||
  match s with
  | EmptyString => false
  | String _ s' => endsWith s' p
  end.

Definition lower_ascii (c : ascii) : ascii :=
  let n := nat_of_ascii c in
  if (Nat.leb 65 n && Nat.leb n 90)%bool then ascii_of_nat (n + 32) else c.

Fixpoint toLowerCase (s : string) : string :=
  match s with
  | EmptyString => EmptyString
  | String c s' => String (lower_ascii c) (toLowerCase s')
  end.

(** [String(n)] for an integer. *)
Definition String_of_Z (n : Z) : string := NilZero.string_of_int (Z.to_int n).

(** *** parseInt(s, 10)

    Leading white space is skipped, one sign is accepted, then the longest
    run of decimal digits is read; whatever follows is ignored.  [None] is
    [NaN] (no digit found). *)

Definition isStrWhiteSpaceChar (c : ascii) : bool :=
  let n := nat_of_ascii c in
  existsb (Nat.eqb n) [9; 10; 11; 12; 13; 32; 160]%nat.

Fixpoint trimStart (s : string) : string :=
  match s with
  | String c s' => if isStrWhiteSpaceChar c then trimStart s' else s
  | EmptyString => EmptyString
  end.

Definition digit_value (c : ascii) : option Z :=
  let n := nat_of_ascii c in
  if (Nat.leb 48 n && Nat.leb n 57)%bool then Some (Z.of_nat (n - 48)) else None.

(** Reads digits into [acc]; [seen] tells whether one was read. *)
Fixpoint read_digits (s : string) (seen : bool) (acc : Z) : option Z :=
  match s with
  | String c s' =>
      match digit_value c with
      | Some d => read_digits s' true (10 * acc + d)
      | None => if seen then Some acc else None
      end
  | EmptyString => if seen then Some acc else None
  end.

Definition parseInt10 (input : string) : option Z :=
  let s := trimStart input in
  let '(sign, s) :=
    match s with
    | String "-" r => (-1, r)
    | String "+" r => (1, r)
    | _ => (1, s)
    end in
  match read_digits s false 0 with
  | Some n => Some (sign * n)
  | None => None
  end.

(** [Math.round] and [Math.ceil(n / 1000)] on exact values. *)
Definition Math_round (q : Q) : Z := Qfloor (q + (1 # 2)).
Definition ceil_div (n d : Z) : Z := - ((- n) / d).

End Js.
Import Js.

(* ===================================================================== *)
(** ** Platform functions                                                 *)
(* ===================================================================== *)

(** What [new URL(s)] exposes to the client.  [url_base] is the serialised
    URL up to the query, [url_searchParams] the decoded query pairs. *)
Record URL := mkURL {
  url_protocol : string;
  url_hostname : string;
  url_base : string;
  url_searchParams : list (string * string);
  url_hash : string
}.

Record Host := mkHost {
  (** [new URL(s)]; [None] is the [TypeError] of an invalid URL. *)
  URL_parse : string -> option URL;
  (** [url.toString()] *)
  URL_toString : URL -> string;
  (** [new Date(s).getTime()]; [None] is [NaN] (Invalid Date). *)
  Date_parse : string -> option Z;
  (** [decodeURIComponent(s)]; [None] is a [URIError]. *)
  decodeURIComponent : string -> option string
}.

(* ===================================================================== *)
(** ** Retry / backoff engine                                             *)
(* ===================================================================== *)

Module Backoff.

Record RateLimitConfig := {
  maxRetries : nat;
  baseDelayMs : Q;
  maxDelayMs : Q;
  jitterFactor : Q
}.

Definition RATE_LIMIT_CONFIG : RateLimitConfig :=
  {| maxRetries := 3;
     baseDelayMs := 1000;
     maxDelayMs := 30000;
     jitterFactor := 2 # 10 |}.

(** [Math.pow(2, attempt)] for the loop counter. *)
Definition Math_pow2 (attempt : nat) : Q := inject_Z (2 ^ Z.of_nat attempt).

(** [calculateBackoffDelay(attempt, retryAfterSeconds)]; [random] is the
    value [Math.random()] returns in this call. *)
Definition calculateBackoffDelay
    (random : Q) (attempt : nat) (retryAfterSeconds : option Q) : Q :=
  (let exponential :=
     let exponentialDelay := baseDelayMs RATE_LIMIT_CONFIG * Math_pow2 attempt in
     let jitter := random * jitterFactor RATE_LIMIT_CONFIG * exponentialDelay in
     Qmin (exponentialDelay + jitter) (maxDelayMs RATE_LIMIT_CONFIG) in
   match retryAfterSeconds with
   | Some h =>
       if Qlt_le_dec 0 h then
         let jitter := random * jitterFactor RATE_LIMIT_CONFIG * h * 1000 in
         Qmin (h * 1000 + jitter) (maxDelayMs RATE_LIMIT_CONFIG)
       else exponential
   | None => exponential
   end)%Q.

(** [parseRetryAfter(retryAfter)]; [now] is [Date.now()]. *)
Definition parseRetryAfter (h : Host) (now : Z) (retryAfter : option string)
  : option Z :=
  match retryAfter with
  | None => None
  | Some s =>
      if s =? "" then None
      else
        match parseInt10 s with
        | Some seconds => Some seconds
        | None =>
            match Date_parse h s with
            | Some t =>
                let delayMs := t - now in
                Some (if (0 <? delayMs)%Z then ceil_div delayMs 1000 else 0)
            | None => None
            end
        end
  end.

(** *** Notions the properties are stated with *)

(** The delay without server hint, for a real-valued draw: the integrand of
    the expected delay under a uniform draw. *)
Definition delay_real (i : nat) (u : R) : R :=
  (Rmin (1000 * 2 ^ i + u * (2 / 10) * (1000 * 2 ^ i)) 30000)%R.

(** An integer number of seconds as RFC 9110 writes it: one or more digits. *)
Fixpoint all_digits (s : string) : bool :=
  match s with
  | EmptyString => true
  | String c s' => match digit_value c with Some _ => all_digits s' | None => false end
  end.
Definition is_delay_seconds (s : string) : bool := negb (s =? "") && all_digits s.

(** Every HTTP date (IMF-fixdate, RFC 850, asctime) opens with a day name. *)
Definition http_day_names : list string :=
  ["Mon"; "Tue"; "Wed"; "Thu"; "Fri"; "Sat"; "Sun"].
Definition begins_with_day_name (s : string) : bool :=
  existsb (startsWith s) http_day_names.

(** "Invalid values are treated as absent", read literally. *)
Definition invalid_values_are_absent : Prop :=
  forall (h : Host) (now : Z) (s : string),
    is_delay_seconds s = false ->
    begins_with_day_name s = false ->
    parseRetryAfter h now (Some s) = None.

End Backoff.

(* ===================================================================== *)
(** ** Effects: thrown values, the world and its trace                    *)
(* ===================================================================== *)

(** [ApiError] of [types/api.types.ts].  [code] and [message] hold whatever
    the unchecked casts of [handleResponse] put there; an absent [details]
    reads as [JUndefined]. *)
Record ApiError := mkApiError {
  code : JsVal;
  message : JsVal;
  statusCode : option Z;
  details : JsVal
}.

(** A value given to [throw]: an [ApiError] object literal, or an instance of
    [Error] (configuration errors, [TypeError], [DOMException], ...). *)
Inductive Thrown :=
| ThrowApiError (e : ApiError)
| ThrowError (e : JsError).

Definition is_ApiError (t : Thrown) : bool :=
  match t with ThrowApiError _ => true | ThrowError _ => false end.

(** Settlement of a promise owned by the platform or by a collaborator. *)
Inductive Settled (A : Type) :=
| Resolved (a : A)
| Rejected (e : JsError).
Arguments Resolved {A} a.
Arguments Rejected {A} e.

Definition Headers := list (string * string).

Record FetchCall := mkFetchCall {
  fc_url : string;
  fc_method : string;
  fc_headers : Headers;
  fc_body : option JsVal;      (* value handed to JSON.stringify, if any *)
  fc_timeout : Z               (* delay of the abort timer *)
}.

Inductive Event :=
| ConsoleWarn (msg : string)
| TokenRequested
| NetworkCall (c : FetchCall)
| Slept (ms : Q).

(** [this] of [ApiClient]. *)
Record ApiClient := mkApiClient {
  baseUrl : option string;
  defaultTimeout : Z
}.

Definition DEFAULT_TIMEOUT : Z := 30000.

(** [new ApiClient(baseUrl?, timeout = DEFAULT_TIMEOUT)] *)
Definition new_ApiClient (baseUrl : option string) (timeout : option Z) : ApiClient :=
  {| baseUrl := baseUrl;
     defaultTimeout := match timeout with Some t => t | None => DEFAULT_TIMEOUT end |}.

Record World := mkWorld {
  cachedApiBaseUrl : option string;   (* module-level cache *)
  this : ApiClient;
  trace : list Event
}.

Inductive Outcome (A : Type) :=
| Return (a : A)
| Throw (t : Thrown).
Arguments Return {A} a.
Arguments Throw {A} t.

Definition M (A : Type) : Type := World -> Outcome A * World.

Definition ret {A} (a : A) : M A := fun w => (Return a, w).
Definition throw {A} (t : Thrown) : M A := fun w => (Throw t, w).
Definition bind {A B} (c : M A) (k : A -> M B) : M B :=
  fun w =>
    match c w with
    | (Return a, w') => k a w'
    | (Throw t, w') => (Throw t, w')
    end.
Definition try_catch {A} (c : M A) (handler : Thrown -> M A) : M A :=
  fun w =>
    match c w with
    | (Return a, w') => (Return a, w')
    | (Throw t, w') => handler t w'
    end.
Definition record_event (e : Event) (w : World) : World :=
  {| cachedApiBaseUrl := cachedApiBaseUrl w;
     this := this w;
     trace := trace w ++ [e] |}.
Definition emit (e : Event) : M unit := fun w => (Return tt, record_event e w).
Definition await {A} (p : Settled A) : M A :=
  match p with
  | Resolved a => ret a
  | Rejected e => throw (ThrowError e)
  end.

Declare Scope js_scope.
Delimit Scope js_scope with js.
Notation "x <- c ;; k" := (bind c (fun x => k))
  (at level 61, c at next level, right associativity) : js_scope.
Notation "c ;;; k" := (bind c (fun _ => k))
  (at level 61, right associativity) : js_scope.
Local Open Scope js_scope.

Definition console_warn (msg : string) : M unit := emit (ConsoleWarn msg).

(** [new Error(msg)] *)
Definition new_Error (msg : string) : Thrown := ThrowError (mkError "Error" msg).
Definition instanceof_TypeError (t : Thrown) : bool :=
  match t with
  | ThrowError e => err_name e =? "TypeError"
  | ThrowApiError _ => false
  end.

Definition network_calls (tr : list Event) : nat :=
  length (filter (fun e => match e with NetworkCall _ => true | _ => false end) tr).

Definition warnings (tr : list Event) : list string :=
  flat_map (fun e => match e with ConsoleWarn m => [m] | _ => [] end) tr.

Definition is_NetworkCall (e : Event) : Prop :=
  match e with NetworkCall _ => True | _ => False end.

Definition is_warning (e : Event) : Prop :=
  match e with ConsoleWarn _ => True | _ => False end.

(** [emits P c]: running [c] only appends events that satisfy [P]. *)
Definition emits (P : Event -> Prop) {A} (c : M A) : Prop :=
  forall w r w1, c w = (r, w1) ->
    exists evs, trace w1 = (trace w ++ evs)%list /\ Forall P evs.

(* ===================================================================== *)
(** ** Configuration validator                                            *)
(* ===================================================================== *)

Module Config.

Record ProcessEnv := mkEnv {
  NEXT_PUBLIC_API_URL : option string;
  NODE_ENV : option string
}.

Definition isProduction (env : ProcessEnv) : bool :=
  match NODE_ENV env with Some m => m =? "production" | None => false end.

Definition dq : string := String (ascii_of_nat 34) EmptyString.

Definition localhostVariants : list string :=
  ["localhost"; "127.0.0.1"; "::1"; "[::1]"; "0.0.0.0"].

(** [/^(10\.|172\.(1[6-9]|2[0-9]|3[01])\.|192\.168\.)/.test(host)] *)
Definition privateIPv4Pattern (host : string) : bool :=
  startsWith host "10." ||
  match strip_prefix "172." host with
  | Some (String a (String b (String "." _))) =>
      let d := nat_of_ascii b in
      (Ascii.eqb a "1" && Nat.leb 54 d && Nat.leb d 57) ||
      (Ascii.eqb a "2" && Nat.leb 48 d && Nat.leb d 57) ||
      (Ascii.eqb a "3" && Nat.leb 48 d && Nat.leb d 49)
  | _ => false
  end ||
  startsWith host "192.168.".

(** [/^(fc|fd|fe80:)/i.test(host)] *)
Definition privateIPv6Pattern (host : string) : bool :=
  let l := toLowerCase host in
  startsWith l "fc" || startsWith l "fd" || startsWith l "fe80:".

Definition getApiBaseUrl (h : Host) (env : ProcessEnv) : M string :=
  let configuredUrl := match NEXT_PUBLIC_API_URL env with Some u => u | None => "" end in
  if configuredUrl =? "" then
    if isProduction env then
      throw (new_Error
        ("SECURITY ERROR: NEXT_PUBLIC_API_URL environment variable is not configured. " ++
         "The API base URL must be explicitly set in production environments. " ++
         "This prevents accidental connections to localhost or insecure endpoints."))
    else
      console_warn
        ("SECURITY WARNING: NEXT_PUBLIC_API_URL not configured. Using localhost:5000 for development. " ++
         "This fallback will NOT work in production.") ;;;
      ret "http://localhost:5000"
  else
    try_catch
      (match URL_parse h configuredUrl with
       | None => throw (ThrowError (mkError "TypeError" "Invalid URL"))
       | Some url =>
           if isProduction env && negb (url_protocol url =? "https:") then
             throw (new_Error
               ("SECURITY ERROR: API URL must use HTTPS in production. Got: " ++
                url_protocol url ++ ". " ++
                "Configure NEXT_PUBLIC_API_URL with an https:// URL."))
           else
             let isLocalhost :=
               existsb (String.eqb (url_hostname url)) localhostVariants ||
               endsWith (url_hostname url) ".local" ||
               startsWith (url_hostname url) "127." in
             let isPrivateIPv4 := privateIPv4Pattern (url_hostname url) in
             let isPrivateIPv6 := privateIPv6Pattern (url_hostname url) in
             let isPrivateIP := isPrivateIPv4 || isPrivateIPv6 in
             if isProduction env && (isLocalhost || isPrivateIP) then
               throw (new_Error
                 ("SECURITY ERROR: API URL cannot point to localhost or private network in production. " ++
                  "Got: " ++ url_hostname url ++
                  ". Configure NEXT_PUBLIC_API_URL with the production API server URL."))
             else ret configuredUrl
       end)
      (fun error =>
         if instanceof_TypeError error then
           throw (new_Error
             ("SECURITY ERROR: Invalid API URL format: " ++ dq ++ configuredUrl ++ dq ++ ". " ++
              "NEXT_PUBLIC_API_URL must be a valid URL (e.g., https://api.example.com)."))
         else throw error).

Definition set_cachedApiBaseUrl (v : option string) : M unit :=
  fun w => (Return tt, {| cachedApiBaseUrl := v; this := this w; trace := trace w |}).

Definition getApiBaseUrlLazy (h : Host) (env : ProcessEnv) : M string :=
  fun w =>
    match cachedApiBaseUrl w with
    | None =>
        (u <- getApiBaseUrl h env ;;
         set_cachedApiBaseUrl (Some u) ;;;
         ret u) w
    | Some u => (Return u, w)
    end.

(** A configuration error: an [Error] proper, not an [ApiError]. *)
Definition is_plain_Error (t : Thrown) : bool :=
  match t with
  | ThrowError e => err_name e =? "Error"
  | ThrowApiError _ => false
  end.

End Config.
Import Config.

(* ===================================================================== *)
(** ** Request pipeline ([ApiClient])                                     *)
(* ===================================================================== *)

Module Client.
Import Backoff.

Inductive ParamValue :=
| PString (s : string)
| PNumber (n : Z)
| PBoolean (b : bool).

(** [String(value)] *)
Definition String_of (v : ParamValue) : string :=
  match v with
  | PString s => s
  | PNumber n => String_of_Z n
  | PBoolean true => "true"
  | PBoolean false => "false"
  end.

(** [ApiRequestConfig]; record-valued fields list their entries in the order
    [Object.entries] enumerates them. *)
Record ApiRequestConfig := mkConfig {
  headers : option (list (string * string));
  params : option (list (string * ParamValue));
  timeout : option Z;
  withAuth : option bool;
  skipRateLimitRetry : option bool
}.

(** *** The [Headers] class: names are matched without regard to case. *)

Definition name_is (n : string) (entry : string * string) : bool :=
  fst entry =? toLowerCase n.

Definition Headers_append (n v : string) (hs : Headers) : Headers :=
  (hs ++ [(toLowerCase n, v)])%list.

Fixpoint replace_first (n v : string) (hs : Headers) : Headers :=
  match hs with
  | [] => []
  | e :: tl =>
      if name_is n e then (toLowerCase n, v) :: filter (fun x => negb (name_is n x)) tl
      else e :: replace_first n v tl
  end.

Definition Headers_set (n v : string) (hs : Headers) : Headers :=
  if existsb (name_is n) hs then replace_first n v hs
  else Headers_append n v hs.

Definition Headers_get (n : string) (hs : Headers) : option string :=
  match filter (name_is n) hs with
  | [] => None
  | e :: tl => Some (fold_left (fun acc x => acc ++ ", " ++ snd x) tl (snd e))
  end.

(** Object literal with a spread: a later key replaces an earlier equal key
    in place, a new key is added at the end. *)
Fixpoint obj_put (k v : string) (o : list (string * string)) : list (string * string) :=
  match o with
  | [] => [(k, v)]
  | (k', v') :: tl => if k' =? k then (k, v) :: tl else (k', v') :: obj_put k v tl
  end.

Definition obj_spread (o extra : list (string * string)) : list (string * string) :=
  fold_left (fun acc kv => obj_put (fst kv) (snd kv) acc) extra o.

(** [new Headers(record)] *)
Definition new_Headers (o : list (string * string)) : Headers :=
  fold_left (fun hs kv => Headers_append (fst kv) (snd kv) hs) o [].

(** *** The page the client runs in *)

Record Document := mkDocument {
  (** [document.querySelector('meta[name=csrf-token]')]: the element, if any,
      with its [content] attribute, if any. *)
  meta_csrf_token : option (option string);
  (** [document.cookie] *)
  cookie : string
}.

Fixpoint until_semicolon (s : string) : string :=
  match s with
  | EmptyString => EmptyString
  | String c s' => if Ascii.eqb c ";" then EmptyString else String c (until_semicolon s')
  end.

(** [cookie.match(/XSRF-TOKEN=([^;]+)/)]: the first capture group of the
    leftmost match. *)
Fixpoint match_XSRF_TOKEN (s : string) : option string :=
  let here :=
    match strip_prefix "XSRF-TOKEN=" s with
    | Some rest =>
        match until_semicolon rest with
        | EmptyString => None
        | captured => Some captured
        end
    | None => None
    end in
  match here, s with
  | Some captured, _ => Some captured
  | None, String _ s' => match_XSRF_TOKEN s'
  | None, EmptyString => None
  end.

(** What one pass of the retry loop meets: the settlement of
    [getAccessToken()], the page when the CSRF token is read, the settlement
    of [fetch], the clock when the response is examined and the draw of
    [Math.random()]. *)
Record Response := mkResponse {
  status : Z;
  statusText : string;
  content_type : option string;      (* headers.get('content-type') *)
  retry_after : option string;       (* headers.get('Retry-After') *)
  body_json : Settled JsVal;         (* response.json() *)
  body_text : Settled string         (* response.text() *)
}.

(** [response.ok] *)
Definition ok (r : Response) : bool := (200 <=? status r)%Z && (status r <=? 299)%Z.

Record Attempt := mkAttempt {
  att_token : Settled string;
  att_document : Document;
  att_fetch : Settled Response;
  att_now : Z;
  att_random : Q
}.

Section WithEnvironment.

Variable h : Host.
Variable env : ProcessEnv.
Variable net : nat -> Attempt.

Definition set_baseUrl (v : option string) : M unit :=
  fun w => (Return tt,
            {| cachedApiBaseUrl := cachedApiBaseUrl w;
               this := {| baseUrl := v; defaultTimeout := defaultTimeout (this w) |};
               trace := trace w |}).

Definition getBaseUrl : M string :=
  fun w =>
    match baseUrl (this w) with
    | None =>
        (u <- getApiBaseUrlLazy h env ;;
         set_baseUrl (Some u) ;;;
         ret u) w
    | Some u => (Return u, w)
    end.

Definition getCsrfToken (doc : Document) : M (option string) :=
  match meta_csrf_token doc with
  | Some content => ret content
  | None =>
      match match_XSRF_TOKEN (cookie doc) with
      | Some captured =>
          match decodeURIComponent h captured with
          | Some v => ret (Some v)
          | None => throw (ThrowError (mkError "URIError" "URI malformed"))
          end
      | None => ret None
      end
  end.

(** [getAccessToken()] of the auth module, as the pipeline sees it: a call
    that settles with a token or a rejection. *)
Definition getAccessToken (a : Attempt) : M string :=
  emit TokenRequested ;;; await (att_token a).

Definition state_changing (method : string) : bool :=
  existsb (String.eqb method) ["POST"; "PUT"; "PATCH"; "DELETE"].

Definition CSRF_TOKEN_MISSING : ApiError :=
  {| code := JStr "CSRF_TOKEN_MISSING";
     message := JStr "CSRF token is required for this operation. Please refresh the page and try again.";
     statusCode := Some 403;
     details := JUndefined |}.

Definition csrf_missing_warning (method : string) : string :=
  "SECURITY WARNING: CSRF token missing for " ++ method ++ " request. " ++
  "This request would be BLOCKED in production. " ++
  "Ensure CSRF token is set via meta tag or XSRF-TOKEN cookie.".

Definition config_headers (config : option ApiRequestConfig) : list (string * string) :=
  match config with
  | Some c => match headers c with Some hs => hs | None => [] end
  | None => []
  end.

Definition initial_headers (config : option ApiRequestConfig) : Headers :=
  new_Headers (obj_spread [("Content-Type", "application/json")] (config_headers config)).

Definition buildHeaders (a : Attempt) (config : option ApiRequestConfig)
    (method : option string) : M Headers :=
  let headers := initial_headers config in
  headers <-
    (if match config with
        | Some c => match withAuth c with Some false => false | _ => true end
        | None => true
        end
     then
       try_catch
         (token <- getAccessToken a ;;
          ret (Headers_set "Authorization" ("Bearer " ++ token) headers))
         (fun error =>
            console_warn "Failed to get access token:" ;;;
            ret headers)
     else ret headers) ;;
  match method with
  | Some m =>
      if negb (m =? "") && state_changing m then
        csrfToken <- getCsrfToken (att_document a) ;;
        if negb (match csrfToken with Some t => t | None => "" end =? "") then
          ret (Headers_set "X-CSRF-Token"
                 (match csrfToken with Some t => t | None => "" end) headers)
        else
          if isProduction env then throw (ThrowApiError CSRF_TOKEN_MISSING)
          else
            console_warn (csrf_missing_warning m) ;;;
            ret headers
      else ret headers
  | None => ret headers
  end.

Definition searchParams_append (k v : string) (u : URL) : URL :=
  {| url_protocol := url_protocol u;
     url_hostname := url_hostname u;
     url_base := url_base u;
     url_searchParams := url_searchParams u ++ [(k, v)];
     url_hash := url_hash u |}.

Definition new_URL (s : string) : M URL :=
  match URL_parse h s with
  | Some u => ret u
  | None => throw (ThrowError (mkError "TypeError" "Invalid URL"))
  end.

Definition buildUrl (endpoint : string) (params : option (list (string * ParamValue)))
  : M string :=
  target <- (if startsWith endpoint "http" then ret endpoint
             else (b <- getBaseUrl ;; ret (b ++ endpoint))) ;;
  url <- new_URL target ;;
  let url :=
    match params with
    | Some ps =>
        fold_left (fun u kv => searchParams_append (fst kv) (String_of (snd kv)) u) ps url
    | None => url
    end in
  ret (URL_toString h url).

Definition TIMEOUT : ApiError :=
  {| code := JStr "TIMEOUT";
     message := JStr "Request timeout";
     statusCode := Some 408;
     details := JUndefined |}.

Definition UNKNOWN : ApiError :=
  {| code := JStr "UNKNOWN";
     message := JStr "Request failed";
     statusCode := Some 500;
     details := JUndefined |}.

Definition RATE_LIMITED (retryAfter : option Z) (endpoint method : string) : ApiError :=
  {| code := JStr "RATE_LIMITED";
     message := JStr "Too many requests. Please wait and try again.";
     statusCode := Some 429;
     details :=
       JObj [("retryAfterSeconds",
              match retryAfter with Some n => JNum (inject_Z n) | None => JUndefined end);
             ("endpoint", JStr endpoint);
             ("method", JStr method)] |}.

Definition handleResponse (response : Response) : M JsVal :=
  let isJson :=
    match content_type response with
    | Some ct => includes ct "application/json"
    | None => false
    end in
  data <- (if isJson then await (body_json response)
           else (t <- await (body_text response) ;; ret (JStr t))) ;;
  if negb (ok response) then
    let error :=
      {| code := JStr ("HTTP_" ++ String_of_Z (status response));
         message := JStr (statusText response);
         statusCode := Some (status response);
         details := JUndefined |} in
    let error :=
      if isJson && is_object data then
        {| code := js_or (get_prop data "code") (code error);
           message := js_or (get_prop data "message") (message error);
           statusCode := statusCode error;
           details := get_prop data "details" |}
      else error in
    throw (ThrowApiError error)
  else ret data.

(** How one pass of the [for] loop ends when it does not throw. *)
Inductive Flow :=
| Returned (data : JsVal)
| Continue (lastError : option ApiError).

Definition is_AbortError (t : Thrown) : bool :=
  match t with
  | ThrowError e => err_name e =? "AbortError"
  | ThrowApiError _ => false
  end.

(** [(error as ApiError)?.code === 'RATE_LIMITED']; the exceptions of [fetch]
    and of the body readers carry no such [code]. *)
Definition has_code_RATE_LIMITED (t : Thrown) : bool :=
  match t with
  | ThrowApiError e => strict_eq_str (code e) "RATE_LIMITED"
  | ThrowError _ => false
  end.

Definition rate_limit_warning (method endpoint : string) (attempt maxRetries : nat)
    (delay : Q) : string :=
  "Rate limit hit on " ++ method ++ " " ++ endpoint ++ ". " ++
  "Attempt " ++ String_of_Z (Z.of_nat attempt + 1) ++ "/" ++
  String_of_Z (Z.of_nat maxRetries + 1) ++ ". " ++
  "Retrying in " ++ String_of_Z (Math_round (delay / 1000)) ++ "s...".

(** The body of the [for] loop of [request] for one value of [attempt]. *)
Definition request_attempt (method endpoint url : string)
    (config : option ApiRequestConfig) (body : option JsVal) (timeout : Z)
    (maxRetries attempt : nat) (lastError : option ApiError) : M Flow :=
  let a := net attempt in
  headers <- buildHeaders a config (Some method) ;;
  try_catch
    (emit (NetworkCall
             {| fc_url := url;
                fc_method := method;
                fc_headers := headers;
                fc_body := match body with
                           | Some b => if truthy b then Some b else None
                           | None => None
                           end;
                fc_timeout := timeout |}) ;;;
     response <- await (att_fetch a) ;;
     if (status response =? 429)%Z then
       let retryAfter := parseRetryAfter h (att_now a) (retry_after response) in
       let delay :=
         calculateBackoffDelay (att_random a) attempt (option_map inject_Z retryAfter) in
       console_warn (rate_limit_warning method endpoint attempt maxRetries delay) ;;;
       let lastError := RATE_LIMITED retryAfter endpoint method in
       if (attempt <? maxRetries)%nat then
         emit (Slept delay) ;;;
         ret (Continue (Some lastError))
       else throw (ThrowApiError lastError)
     else
       data <- handleResponse response ;;
       ret (Returned data))
    (fun error =>
       if is_AbortError error then throw (ThrowApiError TIMEOUT)
       else if has_code_RATE_LIMITED error && (attempt <? maxRetries)%nat then
         ret (Continue lastError)
       else throw error).

(** [for (let attempt = 0; attempt <= maxRetries; attempt++)], with
    [remaining] passes left, followed by the statement after the loop. *)
Fixpoint request_loop (method endpoint url : string)
    (config : option ApiRequestConfig) (body : option JsVal) (timeout : Z)
    (maxRetries : nat) (remaining attempt : nat) (lastError : option ApiError)
  : M JsVal :=
  match remaining with
  | O => throw (ThrowApiError (match lastError with Some e => e | None => UNKNOWN end))
  | S remaining' =>
      flow <- request_attempt method endpoint url config body timeout
                maxRetries attempt lastError ;;
      match flow with
      | Returned data => ret data
      | Continue lastError' =>
          request_loop method endpoint url config body timeout
            maxRetries remaining' (S attempt) lastError'
      end
  end.

(** [config?.skipRateLimitRetry ? 0 : RATE_LIMIT_CONFIG.maxRetries] *)
Definition maxRetries_of (config : option ApiRequestConfig) : nat :=
  match match config with Some c => skipRateLimitRetry c | None => None end with
  | Some true => O
  | _ => maxRetries RATE_LIMIT_CONFIG
  end.

Definition request (method endpoint : string) (config : option ApiRequestConfig)
    (body : option JsVal) : M JsVal :=
  fun w =>
    let timeout :=
      match match config with Some c => timeout c | None => None end with
      | Some t => if (t =? 0)%Z then defaultTimeout (this w) else t
      | None => defaultTimeout (this w)
      end in
    (url <- buildUrl endpoint (match config with Some c => params c | None => None end) ;;
     let maxRetries := maxRetries_of config in
     request_loop method endpoint url config body timeout maxRetries (S maxRetries) O None) w.

Definition get (endpoint : string) (config : option ApiRequestConfig) : M JsVal :=
  request "GET" endpoint config None.
Definition post (endpoint : string) (data : option JsVal) (config : option ApiRequestConfig) : M JsVal :=
  request "POST" endpoint config data.
Definition put (endpoint : string) (data : option JsVal) (config : option ApiRequestConfig) : M JsVal :=
  request "PUT" endpoint config data.
Definition patch (endpoint : string) (data : option JsVal) (config : option ApiRequestConfig) : M JsVal :=
  request "PATCH" endpoint config data.
Definition delete (endpoint : string) (config : option ApiRequestConfig) : M JsVal :=
  request "DELETE" endpoint config None.

End WithEnvironment.

(** *** Notions the properties are stated with *)

Definition params_of (c : option ApiRequestConfig) : option (list (string * ParamValue)) :=
  match c with Some c => params c | None => None end.

Definition skips_retry (c : option ApiRequestConfig) : bool :=
  match c with
  | Some c => match skipRateLimitRetry c with Some true => true | _ => false end
  | None => false
  end.

(** The network call of a pass, given the headers built for it. *)
Definition call_of (method : string) (body : option JsVal) (url : string)
    (timeout : Z) (hs : Headers) : FetchCall :=
  {| fc_url := url; fc_method := method; fc_headers := hs;
     fc_body := match body with
                | Some b => if truthy b then Some b else None
                | None => None
                end;
     fc_timeout := timeout |}.

(** Pass [i] gets as far as its network call. *)
Definition headers_built (h : Host) (env : ProcessEnv) (net : nat -> Attempt)
    (method : string) (config : option ApiRequestConfig) (i : nat) : Prop :=
  forall w, exists hs w1,
    buildHeaders h env (net i) config (Some method) w = (Return hs, w1).

Definition answered_429 (net : nat -> Attempt) (i : nat) : Prop :=
  exists r, att_fetch (net i) = Resolved r /\ status r = 429.

(** The parsed Retry-After hint of the response to pass [i]. *)
Definition hint_of (h : Host) (net : nat -> Attempt) (i : nat) (r : Response) : option Z :=
  parseRetryAfter h (att_now (net i)) (retry_after r).

(** Neither the meta tag nor the cookie yields an anti-forgery token. *)
Definition no_csrf_token (doc : Document) : bool :=
  match meta_csrf_token doc with
  | Some (Some content) => content =? ""
  | Some None | None => true
  end &&
  match match_XSRF_TOKEN (cookie doc) with
  | Some _ => false
  | None => true
  end.

Definition is_abort (e : JsError) : bool := err_name e =? "AbortError".




(** The world once the client has kept [b] as its base URL, and once the
    module has cached it. *)
Definition keeping (b : string) (w : World) : World :=
  {| cachedApiBaseUrl := cachedApiBaseUrl w;
     this := {| baseUrl := Some b; defaultTimeout := defaultTimeout (this w) |};
     trace := trace w |}.

Definition caching (b : string) (w : World) : World :=
  {| cachedApiBaseUrl := Some b; this := this w; trace := trace w |}.

(** [ps] appended to the query, each value through [String]. *)
Definition with_params (ps : list (string * ParamValue)) (u : URL) : URL :=
  {| url_protocol := url_protocol u;
     url_hostname := url_hostname u;
     url_base := url_base u;
     url_searchParams :=
       (url_searchParams u ++ map (fun kv => (fst kv, String_of (snd kv))) ps)%list;
     url_hash := url_hash u |}.

(** The request URL made from the string handed to [new URL]. *)
Definition url_from (h : Host) (target : string)
    (params : option (list (string * ParamValue))) : Outcome string :=
  match URL_parse h target with
  | Some u =>
      Return (URL_toString h (with_params (match params with Some ps => ps | None => [] end) u))
  | None => Throw (ThrowError (mkError "TypeError" "Invalid URL"))
  end.

End Client.

(* ===================================================================== *)
(** ** Credential lifecycle manager ([auth-service.ts])                   *)
(* ===================================================================== *)

(** The event loop is single-threaded: code runs to the next [await], and a
    suspended [async] body resumes when the promise it waits for settles.
    The module variables, the pending timers, the settled promises and the
    suspended bodies form the [State]; an [Action] is one turn of the loop. *)

Module Auth.

Definition TOKEN_REFRESH_BUFFER_MS : Z := 5 * 60 * 1000.

(** Time value of a [Date]; [None] is [NaN]. *)
Definition JsDate := option Z.

Record AuthenticationResult := mkAuthResult {
  accessToken : string;
  expiresOn : option JsDate
}.

Record Msal := mkMsal {
  allAccounts : list string;
  activeAccount : option string;
  tokenRequest_scopes : list string
}.

Record SilentRequest := mkSilentRequest {
  scopes : list string;
  account : string
}.

Inductive Stage := AwaitingSilent | AwaitingPopup.

Record Timer := mkTimer {
  timer_id : nat;
  set_at : Z;        (* clock when [setTimeout] was called *)
  delay : Z
}.

Definition fires_at (t : Timer) : Z := set_at t + delay t.

Inductive LogEntry :=
| acquireTokenSilent (r : SilentRequest)
| acquireTokenPopup (r : SilentRequest)
| secureLogger_error (msg : string).

Record State := mkState {
  (* module variables *)
  tokenRefreshTimeout : option nat;
  tokenRefreshPromise : option nat;
  isRefreshing : bool;
  msalInstance : option Msal;
  (* event loop *)
  timers : list Timer;                          (* pending timeouts *)
  next_timer : nat;
  settled : list (nat * Settled string);        (* promises already settled *)
  next_promise : nat;
  operations : list (nat * Stage * SilentRequest);  (* suspended bodies of the token promise *)
  renewal_waiters : list nat;                   (* timer callbacks awaiting a promise *)
  log : list LogEntry
}.

Definition init : State :=
  {| tokenRefreshTimeout := None; tokenRefreshPromise := None; isRefreshing := false;
     msalInstance := None;
     timers := []; next_timer := 1; settled := []; next_promise := 1;
     operations := []; renewal_waiters := []; log := [] |}.

Definition with_timers (st : State) (handle : option nat) (ts : list Timer) (next : nat) : State :=
  {| tokenRefreshTimeout := handle; tokenRefreshPromise := tokenRefreshPromise st;
     isRefreshing := isRefreshing st; msalInstance := msalInstance st;
     timers := ts; next_timer := next; settled := settled st;
     next_promise := next_promise st; operations := operations st;
     renewal_waiters := renewal_waiters st; log := log st |}.

Definition with_log (st : State) (e : LogEntry) : State :=
  {| tokenRefreshTimeout := tokenRefreshTimeout st; tokenRefreshPromise := tokenRefreshPromise st;
     isRefreshing := isRefreshing st; msalInstance := msalInstance st;
     timers := timers st; next_timer := next_timer st; settled := settled st;
     next_promise := next_promise st; operations := operations st;
     renewal_waiters := renewal_waiters st; log := log st ++ [e] |}.

Definition with_operations (st : State) (ops : list (nat * Stage * SilentRequest)) : State :=
  {| tokenRefreshTimeout := tokenRefreshTimeout st; tokenRefreshPromise := tokenRefreshPromise st;
     isRefreshing := isRefreshing st; msalInstance := msalInstance st;
     timers := timers st; next_timer := next_timer st; settled := settled st;
     next_promise := next_promise st; operations := ops;
     renewal_waiters := renewal_waiters st; log := log st |}.

Definition with_msal (st : State) (m : option Msal) : State :=
  {| tokenRefreshTimeout := tokenRefreshTimeout st; tokenRefreshPromise := tokenRefreshPromise st;
     isRefreshing := isRefreshing st; msalInstance := m;
     timers := timers st; next_timer := next_timer st; settled := settled st;
     next_promise := next_promise st; operations := operations st;
     renewal_waiters := renewal_waiters st; log := log st |}.

Definition with_waiter (st : State) (p : nat) : State :=
  {| tokenRefreshTimeout := tokenRefreshTimeout st; tokenRefreshPromise := tokenRefreshPromise st;
     isRefreshing := isRefreshing st; msalInstance := msalInstance st;
     timers := timers st; next_timer := next_timer st; settled := settled st;
     next_promise := next_promise st; operations := operations st;
     renewal_waiters := renewal_waiters st ++ [p]; log := log st |}.

(** [clearTimeout(id)] and [setTimeout(callback, delay)] at clock [now]. *)
Definition clearTimeout (id : nat) (ts : list Timer) : list Timer :=
  filter (fun t => negb (Nat.eqb (timer_id t) id)) ts.

Definition scheduleTokenRefresh (expiresOn : option JsDate) (now : Z) (st : State) : State :=
  let st :=
    match tokenRefreshTimeout st with
    | Some id => with_timers st None (clearTimeout id (timers st)) (next_timer st)
    | None => st
    end in
  match expiresOn with
  | None => st
  | Some date =>
      match date with
      | None => st                                (* NaN > 0 is false *)
      | Some expiryTime =>
          let refreshTime := expiryTime - TOKEN_REFRESH_BUFFER_MS in
          let timeUntilRefresh := refreshTime - now in
          if (0 <? timeUntilRefresh)%Z then
            with_timers st (Some (next_timer st))
              (timers st ++ [mkTimer (next_timer st) now timeUntilRefresh])
              (S (next_timer st))
          else st
      end
  end.

(** [getCurrentAccount()] *)
Definition getCurrentAccount (m : Msal) : option string :=
  match allAccounts m with
  | [] => None
  | first :: _ =>
      match activeAccount m with
      | Some a => Some a
      | None => Some first
      end
  end.

(** What the caller of [getAccessToken] holds: a promise that follows the
    shared promise [p], or one already rejected. *)
Inductive CallResult :=
| Follows (p : nat)
| Threw (e : JsError).

Definition getAccessToken (requested : option (list string)) (st : State)
  : CallResult * State :=
  match isRefreshing st, tokenRefreshPromise st with
  | true, Some p => (Follows p, st)
  | _, _ =>
      match msalInstance st with
      | None =>
          (Threw (mkError "Error" "MSAL instance not initialized. Call initializeMsal() first."), st)
      | Some msal =>
          match getCurrentAccount msal with
          | None => (Threw (mkError "Error" "No active account found"), st)
          | Some acc =>
              let request :=
                {| scopes := match requested with
                             | Some s => s
                             | None => tokenRequest_scopes msal
                             end;
                   account := acc |} in
              let p := next_promise st in
              (Follows p,
               {| tokenRefreshTimeout := tokenRefreshTimeout st;
                  tokenRefreshPromise := Some p;
                  isRefreshing := true;
                  msalInstance := msalInstance st;
                  timers := timers st; next_timer := next_timer st;
                  settled := settled st;
                  next_promise := S p;
                  operations := operations st ++ [(p, AwaitingSilent, request)];
                  renewal_waiters := renewal_waiters st;
                  log := log st ++ [acquireTokenSilent request] |})
          end
      end
  end.

Definition find_operation (p : nat) (st : State) : option (Stage * SilentRequest) :=
  match find (fun o => Nat.eqb (fst (fst o)) p) (operations st) with
  | Some (_, stage, r) => Some (stage, r)
  | None => None
  end.

Definition drop_operation (p : nat) (st : State) : State :=
  with_operations st (filter (fun o => negb (Nat.eqb (fst (fst o)) p)) (operations st)).

(** The [finally] block, then the settlement of the token promise [p]; a
    rejection also reaches the timer callbacks that await [p]. *)
Definition finish (p : nat) (result : Settled string) (st : State) : State :=
  let st := drop_operation p st in
  let failed_renewals :=
    match result with
    | Rejected _ =>
        map (fun _ => secureLogger_error "Proactive token refresh failed:")
            (filter (Nat.eqb p) (renewal_waiters st))
    | Resolved _ => []
    end in
  {| tokenRefreshTimeout := tokenRefreshTimeout st;
     tokenRefreshPromise := None;
     isRefreshing := false;
     msalInstance := msalInstance st;
     timers := timers st; next_timer := next_timer st;
     settled := settled st ++ [(p, result)];
     next_promise := next_promise st;
     operations := operations st;
     renewal_waiters := filter (fun q => negb (Nat.eqb p q)) (renewal_waiters st);
     log := log st ++ failed_renewals |}.

(** [acquireTokenSilent] settles: the body resumes after its first [await]. *)
Definition silent_settles (p : nat) (r : Settled AuthenticationResult) (now : Z)
    (st : State) : State :=
  match find_operation p st with
  | Some (AwaitingSilent, request) =>
      match r with
      | Resolved response =>
          finish p (Resolved (accessToken response))
            (scheduleTokenRefresh (expiresOn response) now st)
      | Rejected error =>
          let st := with_log st (secureLogger_error "Silent token acquisition failed:") in
          let st := with_log st (acquireTokenPopup request) in
          with_operations st
            (map (fun o => if Nat.eqb (fst (fst o)) p then (p, AwaitingPopup, request) else o)
                 (operations st))
      end
  | _ => st
  end.

(** [acquireTokenPopup] settles. *)
Definition popup_settles (p : nat) (r : Settled AuthenticationResult) (now : Z)
    (st : State) : State :=
  match find_operation p st with
  | Some (AwaitingPopup, request) =>
      match r with
      | Resolved response =>
          finish p (Resolved (accessToken response))
            (scheduleTokenRefresh (expiresOn response) now st)
      | Rejected interactiveError =>
          finish p (Rejected interactiveError)
            (with_log st (secureLogger_error "Interactive token acquisition failed:"))
      end
  | _ => st
  end.

(** A pending timeout fires: the callback of [scheduleTokenRefresh] runs. *)
Definition timer_fires (id : nat) (st : State) : State :=
  if existsb (fun t => Nat.eqb (timer_id t) id) (timers st) then
    let st := with_timers st (tokenRefreshTimeout st) (clearTimeout id (timers st)) (next_timer st) in
    match getAccessToken None st with
    | (Follows p, st') => with_waiter st' p
    | (Threw _, st') => with_log st' (secureLogger_error "Proactive token refresh failed:")
    end
  else st.

Inductive Action :=
| Call (requested : option (list string))      (* a component calls getAccessToken *)
| SilentSettles (p : nat) (r : Settled AuthenticationResult) (now : Z)
| PopupSettles (p : nat) (r : Settled AuthenticationResult) (now : Z)
| TimerFires (id : nat)
| MsalChanges (m : option Msal).                (* initializeMsal, sign-in, sign-out *)

Definition step (st : State) (a : Action) : State :=
  match a with
  | Call requested => snd (getAccessToken requested st)
  | SilentSettles p r now => silent_settles p r now st
  | PopupSettles p r now => popup_settles p r now st
  | TimerFires id => timer_fires id st
  | MsalChanges m => with_msal st m
  end.

Definition run (acts : list Action) (st : State) : State := fold_left step acts st.

Definition reachable (st : State) : Prop := exists acts, run acts init = st.

(** Calls made in the same turn of the event loop, one per entry. *)
Fixpoint calls (requested : list (option (list string))) (st : State)
  : list CallResult * State :=
  match requested with
  | [] => ([], st)
  | r :: rest =>
      let '(result, st1) := getAccessToken r st in
      let '(results, st2) := calls rest st1 in
      (result :: results, st2)
  end.

Definition promise_state (p : nat) (st : State) : option (Settled string) :=
  match find (fun e => Nat.eqb (fst e) p) (settled st) with
  | Some (_, r) => Some r
  | None => None
  end.

Definition silent_started (st : State) : nat :=
  length (filter (fun e => match e with acquireTokenSilent _ => true | _ => false end) (log st)).

Definition popup_started (st : State) : nat :=
  length (filter (fun e => match e with acquireTokenPopup _ => true | _ => false end) (log st)).

(** *** Notions the properties are stated with *)

(** Every pending renewal timer is the one the module variable refers to. *)
Definition timers_owned (st : State) : Prop :=
  timers st = [] \/
  exists t, timers st = [t] /\ tokenRefreshTimeout st = Some (timer_id t) /\
            (timer_id t < next_timer st)%nat.

Definition same_timers (st st' : State) : Prop :=
  timers st' = timers st /\
  tokenRefreshTimeout st' = tokenRefreshTimeout st /\
  next_timer st' = next_timer st.

Definition fresh_promises (st : State) : Prop :=
  forall q r, In (q, r) (settled st) -> (q < next_promise st)%nat.

(** No refresh operation: flag down, handle cleared, nothing suspended. *)
Definition idle (st : State) : Prop :=
  isRefreshing st = false /\ tokenRefreshPromise st = None /\ operations st = [].

(** One refresh operation, whose promise [p] is shared and still pending. *)
Definition in_progress (p : nat) (st : State) : Prop :=
  isRefreshing st = true /\ tokenRefreshPromise st = Some p /\
  (exists stage request, operations st = [(p, stage, request)]) /\
  (p < next_promise st)%nat /\
  promise_state p st = None.

Definition single_flight (st : State) : Prop :=
  fresh_promises st /\ (idle st \/ exists p, in_progress p st).

Definition request_for (m : Msal) (acc : string) (requested : option (list string))
  : SilentRequest :=
  {| scopes := match requested with Some s => s | None => tokenRequest_scopes m end;
     account := acc |}.

(** MSAL is initialised and knows an account. *)
Definition signed_in (st : State) : Prop :=
  exists m acc, msalInstance st = Some m /\ getCurrentAccount m = Some acc.

(** What a caller has observed in state [st]: the settlement of the promise
    its own promise follows, or the rejection it got at once. *)
Definition observed (c : CallResult) (st : State) : option (Settled string) :=
  match c with
  | Follows p => promise_state p st
  | Threw e => Some (Rejected e)
  end.

Definition all_observe (cs : list CallResult) (st : State) (r : Settled string) : Prop :=
  Forall (fun c => observed c st = Some r) cs.

(** Calls spread over the turns of the event loop: the actions are run in
    order and the results of the calls among them are collected. *)
Fixpoint turns (acts : list Action) (st : State) : list CallResult * State :=
  match acts with
  | [] => ([], st)
  | Call requested :: rest =>
      let '(result, st1) := getAccessToken requested st in
      let '(results, st2) := turns rest st1 in
      (result :: results, st2)
  | a :: rest => turns rest (step st a)
  end.

(** The scopes asked for by the calls among [acts]. *)
Definition requests_of (acts : list Action) : list (option (list string)) :=
  flat_map (fun a => match a with Call requested => [requested] | _ => [] end) acts.

(** [a] is not the settlement of an acquisition made for promise [p]. *)
Definition leaves_pending (p : nat) (a : Action) : Prop :=
  match a with
  | SilentSettles q _ _ | PopupSettles q _ _ => q <> p
  | _ => True
  end.

End Auth.

(* ===================================================================== *)
(** ** A concrete host and concrete traffic                               *)
(* ===================================================================== *)

(** Values on which the model is run: a host that understands URLs of the
    form [scheme://host[:port][/path][?query][#fragment]] made of unreserved
    characters, one HTTP date, and percent-free cookies; a page with and
    without an anti-forgery token; a few responses. *)

Module Sample.
Import Client.

Fixpoint split_at (stop : ascii -> bool) (s : string) : string * string :=
  match s with
  | EmptyString => (EmptyString, EmptyString)
  | String c s' =>
      if stop c then (EmptyString, s)
      else let '(a, b) := split_at stop s' in (String c a, b)
  end.

Fixpoint split_all (fuel : nat) (sep : ascii) (s : string) : list string :=
  match fuel with
  | O => [s]
  | S fuel' =>
      match split_at (Ascii.eqb sep) s with
      | (a, String _ rest) => a :: split_all fuel' sep rest
      | (a, EmptyString) => [a]
      end
  end.

Definition parse_query (q : string) : list (string * string) :=
  match q with
  | String _ body =>
      map (fun kv =>
             match split_at (Ascii.eqb "=") kv with
             | (k, String _ v) => (k, v)
             | (k, EmptyString) => (k, EmptyString)
             end)
          (filter (fun kv => negb (kv =? "")) (split_all (String.length body) "&" body))
  | EmptyString => []
  end.

Definition parse_url (s : string) : option URL :=
  let '(scheme, rest) := split_at (Ascii.eqb ":") s in
  match strip_prefix "://" rest with
  | Some after =>
      let '(host, tail) :=
        split_at (fun c => existsb (Ascii.eqb c) [":"; "/"; "?"; "#"]%char) after in
      let '(before_hash, hash) := split_at (Ascii.eqb "#") tail in
      let '(port_path, query) := split_at (Ascii.eqb "?") before_hash in
      if (scheme =? "") || (host =? "") then None
      else
        Some {| url_protocol := toLowerCase scheme ++ ":";
                url_hostname := toLowerCase host;
                url_base := toLowerCase scheme ++ "://" ++ toLowerCase host ++ port_path ++
                            (if includes port_path "/" then "" else "/");
                url_searchParams := parse_query query;
                url_hash := hash |}
  | None => None
  end.

Definition print_url (u : URL) : string :=
  url_base u ++
  match url_searchParams u with
  | [] => ""
  | first :: others =>
      fold_left (fun acc kv => acc ++ "&" ++ fst kv ++ "=" ++ snd kv) others
                ("?" ++ fst first ++ "=" ++ snd first)
  end ++
  url_hash u.

Definition host : Host :=
  {| URL_parse := parse_url;
     URL_toString := print_url;
     Date_parse := fun s =>
       if s =? "Wed, 21 Oct 2015 07:28:00 GMT" then Some 1445412480000 else None;
     decodeURIComponent := fun s => if includes s "%" then None else Some s |}.

Definition world0 : World :=
  {| cachedApiBaseUrl := None; this := new_ApiClient None None; trace := [] |}.

Definition production : ProcessEnv :=
  mkEnv (Some "https://api.example.com") (Some "production").
Definition development : ProcessEnv :=
  mkEnv (Some "http://localhost:5000") (Some "development").
Definition production_localhost : ProcessEnv :=
  mkEnv (Some "http://localhost:5000") (Some "production").

Definition page_without_token : Document :=
  {| meta_csrf_token := None; cookie := "theme=dark" |}.
Definition page_with_token : Document :=
  {| meta_csrf_token := None; cookie := "theme=dark; XSRF-TOKEN=abc123" |}.

Definition json_response (st : Z) (text : string) (retryAfter : option string)
    (data : JsVal) : Response :=
  {| status := st; statusText := text;
     content_type := Some "application/json; charset=utf-8";
     retry_after := retryAfter;
     body_json := Resolved data;
     body_text := Resolved "" |}.

Definition patient : JsVal := JObj [("id", JNum 42); ("name", JStr "Ada")].

Definition answers (page : Document) (f : Settled Response) : Attempt :=
  {| att_token := Resolved "token";
     att_document := page;
     att_fetch := f;
     att_now := 1445412470000;
     att_random := 1 # 2 |}.

(** Every pass is answered 429 with [Retry-After: 2]. *)
Definition always_throttled : nat -> Attempt :=
  fun _ => answers page_with_token
             (Resolved (json_response 429 "Too Many Requests" (Some "2") JNull)).

(** The network is down: [fetch] rejects with a [TypeError]. *)
Definition offline : nat -> Attempt :=
  fun _ => answers page_with_token (Rejected (mkError "TypeError" "Failed to fetch")).


(** A 503 whose JSON body carries [code: RATE_LIMITED], then a 200. *)
Definition unavailable_then_fine : nat -> Attempt :=
  fun i =>
    match i with
    | O => answers page_with_token
             (Resolved (json_response 503 "Service Unavailable" None
                          (JObj [("code", JStr "RATE_LIMITED");
                                 ("message", JStr "Service is shedding load")])))
    | _ => answers page_with_token (Resolved (json_response 200 "OK" None patient))
    end.

(** No anti-forgery token on the page; the server answers 200. *)
Definition tokenless_page : nat -> Attempt :=
  fun _ => answers page_without_token (Resolved (json_response 200 "OK" None patient)).

(** MSAL initialised, nobody signed in / one user signed in. *)
Definition signed_out : Auth.State :=
  Auth.run [Auth.MsalChanges (Some (Auth.mkMsal [] None ["api/read"]))] Auth.init.
Definition signed_in : Auth.State :=
  Auth.run [Auth.MsalChanges (Some (Auth.mkMsal ["ada@example.com"] None ["api/read"]))]
           Auth.init.
(** A token expiring at 4000000 was acquired at clock 1000. *)
Definition holding_token : Auth.State :=
  Auth.run [Auth.Call None;
            Auth.SilentSettles 1 (Resolved (Auth.mkAuthResult "t1" (Some (Some 4000000)))) 1000]
           signed_in.

End Sample.

(* ===================================================================== *)
(** ** Display and validation helpers for patient identifiers ([security.ts]) *)
(* ===================================================================== *)

(** Strings are sequences of code units, as everywhere in the embedding; the
    helpers below only look at the digits [0-9] and at the separator [@]. *)

Module Security.

(** [s.replace(/\D/g, '')] *)
Fixpoint digitsOnly (s : string) : string :=
  match s with
  | EmptyString => EmptyString
  | String c s' =>
      match digit_value c with
      | Some _ => String c (digitsOnly s')
      | None => digitsOnly s'
      end
  end.

(** [s.slice(start, stop)], [s.slice(start)] and [s.slice(-n)]; indices past
    the end are clipped, as [slice] does. *)
Definition slice (s : string) (start stop : nat) : string :=
  substring start (stop - start) s.
Definition slice_from (s : string) (start : nat) : string :=
  substring start (String.length s - start) s.
Definition slice_last (s : string) (n : nat) : string :=
  slice_from s (String.length s - n).

(** [s.split(sep)] for a one-character separator. *)
Fixpoint split (sep : ascii) (s : string) : list string :=
  match s with
  | EmptyString => [EmptyString]
  | String c s' =>
      if Ascii.eqb c sep then EmptyString :: split sep s'
      else
        match split sep s' with
        | piece :: pieces => String c piece :: pieces
        | [] => [String c EmptyString]
        end
  end.

Definition maskSSN (ssn : option string) : string :=
  match ssn with
  | None => ""
  | Some ssn =>
      if ssn =? "" then ""
      else
        let digitsOnly := digitsOnly ssn in
        if negb (String.length digitsOnly =? 9)%nat then "XXX-XX-XXXX"
        else
          let last4 := slice_last digitsOnly 4 in
          "XXX-XX-" ++ last4
  end.

Definition getSSNLast4 (ssn : option string) : string :=
  match ssn with
  | None => ""
  | Some ssn =>
      if ssn =? "" then ""
      else slice_last (digitsOnly ssn) 4
  end.

(** [formatSSN(ssn, masked = true)] *)
Definition formatSSN (ssn : option string) (masked : option bool) : string :=
  let masked := match masked with Some b => b | None => true end in
  match ssn with
  | None => ""
  | Some ssn =>
      if ssn =? "" then ""
      else
        let digitsOnly := digitsOnly ssn in
        if negb (String.length digitsOnly =? 9)%nat then ssn
        else if masked then maskSSN (Some ssn)
        else slice digitsOnly 0 3 ++ "-" ++ slice digitsOnly 3 5 ++ "-" ++ slice_from digitsOnly 5
  end.

Definition isValidSSN (ssn : string) : bool :=
  let digitsOnly := digitsOnly ssn in
  if negb (String.length digitsOnly =? 9)%nat then false
  else if digitsOnly =? "000000000" then false
  else
    let firstThree := parseInt10 (slice digitsOnly 0 3) in
    if match firstThree with
       | Some n => (n =? 0)%Z || (n =? 666)%Z || (900 <=? n)%Z
       | None => false                       (* comparisons with NaN *)
       end
    then false
    else
      let middleTwo := slice digitsOnly 3 5 in
      if middleTwo =? "00" then false
      else
        let lastFour := slice_from digitsOnly 5 in
        if lastFour =? "0000" then false
        else true.

Definition maskEmail (email : option string) : string :=
  match email with
  | None => ""
  | Some email =>
      if email =? "" then ""
      else
        let parts := split "@" email in
        let localPart := nth 0 parts "" in
        match nth_error parts 1 with
        | None => email
        | Some domain =>
            if domain =? "" then email
            else
              let maskedLocal :=
                if (1 <? String.length localPart)%nat
                then slice localPart 0 1 ++ "***"
                else localPart in
              maskedLocal ++ "@" ++ domain
        end
  end.

Definition maskPhoneNumber (phone : option string) : string :=
  match phone with
  | None => ""
  | Some phone =>
      if phone =? "" then ""
      else
        let digitsOnly := digitsOnly phone in
        if negb (String.length digitsOnly =? 10)%nat then "XXX-XXX-XXXX"
        else
          let last4 := slice_last digitsOnly 4 in
          "XXX-XXX-" ++ last4
  end.

(** [formatPhoneNumber(phone, masked = false)] *)
Definition formatPhoneNumber (phone : option string) (masked : option bool) : string :=
  let masked := match masked with Some b => b | None => false end in
  match phone with
  | None => ""
  | Some phone =>
      if phone =? "" then ""
      else
        let digitsOnly := digitsOnly phone in
        if negb (String.length digitsOnly =? 10)%nat then phone
        else if masked then maskPhoneNumber (Some phone)
        else "(" ++ slice digitsOnly 0 3 ++ ") " ++ slice digitsOnly 3 6 ++ "-" ++
             slice_from digitsOnly 6
  end.

Definition isValidPhoneNumber (phone : string) : bool :=
  (String.length (digitsOnly phone) =? 10)%nat.

(** *** Redaction of audit details *)

Definition REDACTED : JsVal := JStr "[REDACTED]".

Definition default_sensitiveFields : list string := ["ssn"; "password"; "token"; "apiKey"].

(** [sensitiveFields.some(field => key.toLowerCase().includes(field.toLowerCase()))] *)
Definition is_sensitive (sensitiveFields : list string) (key : string) : bool :=
  existsb (fun field => includes (toLowerCase key) (toLowerCase field)) sensitiveFields.

(** The name under which the element at [i] of an array is enumerated. *)
Definition index_key (i : nat) : string := String_of_Z (Z.of_nat i).

(** [redactSensitiveData(data, sensitiveFields)] on a decoded value.  The
    copy [{ ...data }] of an object has its properties; the copy of an array
    (of a string) is an object whose properties are the elements (the
    characters) under their indices; the copy of any other primitive has no
    property.  The loop then visits every property of the copy. *)
Fixpoint redact (sensitiveFields : list string) (data : JsVal) {struct data} : JsVal :=
  match data with
  | JObj props =>
      JObj ((fix each (ps : list (string * JsVal)) : list (string * JsVal) :=
               match ps with
               | [] => []
               | (key, value) :: rest =>
                   (key,
                    if is_sensitive sensitiveFields key then REDACTED
                    else if is_object value then redact sensitiveFields value
                    else value) :: each rest
               end) props)
  | JArr items =>
      JObj ((fix each (i : nat) (xs : list JsVal) : list (string * JsVal) :=
               match xs with
               | [] => []
               | value :: rest =>
                   (index_key i,
                    if is_sensitive sensitiveFields (index_key i) then REDACTED
                    else if is_object value then redact sensitiveFields value
                    else value) :: each (S i) rest
               end) 0%nat items)
  | JStr s =>
      JObj ((fix each (i : nat) (s : string) : list (string * JsVal) :=
               match s with
               | EmptyString => []
               | String c rest =>
                   (index_key i,
                    if is_sensitive sensitiveFields (index_key i) then REDACTED
                    else JStr (String c EmptyString)) :: each (S i) rest
               end) 0%nat s)
  | _ => JObj []
  end.

Definition redactSensitiveData (data : JsVal) (sensitiveFields : option (list string)) : JsVal :=
  redact (match sensitiveFields with Some fs => fs | None => default_sensitiveFields end) data.

(** *** Audit entries *)

Inductive AuditAction := audit_view | audit_create | audit_update | audit_delete.

Definition AuditAction_value (a : AuditAction) : string :=
  match a with
  | audit_view => "view"
  | audit_create => "create"
  | audit_update => "update"
  | audit_delete => "delete"
  end.

Record AuditEntry := mkAuditEntry {
  timestamp : Z;                  (* time value of [new Date()] *)
  userId : string;
  action : AuditAction;
  resourceType : string;
  resourceId : string;
  entry_details : option JsVal
}.

(** [createAuditEntry(...)]; [now] is the clock read by [new Date()]. *)
Definition createAuditEntry (now : Z) (userId : string) (action : AuditAction)
    (resourceType resourceId : string) (details : option JsVal) : AuditEntry :=
  {| timestamp := now;
     userId := userId;
     action := action;
     resourceType := resourceType;
     resourceId := resourceId;
     entry_details :=
       match details with
       | Some d => if truthy d then Some (redactSensitiveData d None) else None
       | None => None
       end |}.

(** *** Role checks on patient data *)

Inductive DataAction := data_view | data_edit | data_delete.

Record PermissionCheck := mkPermissionCheck {
  canView : bool;
  canEdit : bool;
  canDelete : bool;
  reason : option string
}.

Definition has (userRoles : list string) (role : string) : bool :=
  existsb (String.eqb role) userRoles.

Definition checkPatientDataPermission (userRoles : list string) (action : DataAction)
  : PermissionCheck :=
  let adminRoles := ["ADMIN"; "DOCTOR"; "NURSE"] in
  let viewOnlyRoles := ["RECEPTIONIST"; "LAB_TECHNICIAN"] in
  let canView := existsb (has userRoles) (adminRoles ++ viewOnlyRoles)%list in
  let canEdit := existsb (has userRoles) adminRoles in
  let canDelete := has userRoles "ADMIN" in
  match action with
  | data_view =>
      if negb canView then
        mkPermissionCheck canView canEdit canDelete
          (Some "Insufficient permissions to view patient data")
      else mkPermissionCheck canView canEdit canDelete None
  | data_edit =>
      if negb canEdit then
        mkPermissionCheck canView canEdit canDelete
          (Some "Insufficient permissions to edit patient data")
      else mkPermissionCheck canView canEdit canDelete None
  | data_delete =>
      if negb canDelete then
        mkPermissionCheck canView canEdit canDelete
          (Some "Insufficient permissions to delete patient data")
      else mkPermissionCheck canView canEdit canDelete None
  end.

(** *** Notions the properties are stated with *)

Definition nine_digits (s : string) : bool := (String.length (digitsOnly s) =? 9)%nat.
Definition ten_digits (s : string) : bool := (String.length (digitsOnly s) =? 10)%nat.

Definition is_digit (c : ascii) : bool :=
  match digit_value c with Some _ => true | None => false end.

Fixpoint forallb_string (p : ascii -> bool) (s : string) : bool :=
  match s with
  | EmptyString => true
  | String c s' => p c && forallb_string p s'
  end.

(** The number a string of digits denotes. *)
Fixpoint horner (acc : Z) (s : string) : Z :=
  match s with
  | EmptyString => acc
  | String c s' =>
      horner (10 * acc + match digit_value c with Some d => d | None => 0 end) s'
  end.
Definition number (s : string) : Z := horner 0 s.

(** [c] occurs in [s]. *)
Fixpoint has_char (c : ascii) (s : string) : bool :=
  match s with
  | EmptyString => false
  | String a s' => Ascii.eqb a c || has_char c s'
  end.

(** What the loop of [redactSensitiveData] leaves under [key]. *)
Definition redact_value (sensitiveFields : list string) (key : string) (value : JsVal)
  : JsVal :=
  if is_sensitive sensitiveFields key then REDACTED
  else if is_object value then redact sensitiveFields value
  else value.

Fixpoint array_entries (sensitiveFields : list string) (i : nat) (xs : list JsVal)
  : list (string * JsVal) :=
  match xs with
  | [] => []
  | value :: rest =>
      (index_key i, redact_value sensitiveFields (index_key i) value)
      :: array_entries sensitiveFields (S i) rest
  end.

Fixpoint string_entries (sensitiveFields : list string) (i : nat) (s : string)
  : list (string * JsVal) :=
  match s with
  | EmptyString => []
  | String c rest =>
      (index_key i, redact_value sensitiveFields (index_key i) (JStr (String c EmptyString)))
      :: string_entries sensitiveFields (S i) rest
  end.

(** The flag of a check that answers for [action]. *)
Definition allowed (c : PermissionCheck) (action : DataAction) : bool :=
  match action with
  | data_view => canView c
  | data_edit => canEdit c
  | data_delete => canDelete c
  end.

(** No property named by a sensitive field, at any depth, holds anything but
    the marker. *)
Fixpoint redacted (sensitiveFields : list string) (v : JsVal) {struct v} : Prop :=
  match v with
  | JObj props =>
      (fix each (ps : list (string * JsVal)) : Prop :=
         match ps with
         | [] => True
         | (key, value) :: rest =>
             (if is_sensitive sensitiveFields key then value = REDACTED
              else redacted sensitiveFields value) /\ each rest
         end) props
  | JArr items =>
      (fix each (xs : list JsVal) : Prop :=
         match xs with
         | [] => True
         | value :: rest => redacted sensitiveFields value /\ each rest
         end) items
  | _ => True
  end.

(** A value without arrays, at any depth. *)
Fixpoint array_free (v : JsVal) {struct v} : Prop :=
  match v with
  | JObj props =>
      (fix each (ps : list (string * JsVal)) : Prop :=
         match ps with
         | [] => True
         | (_, value) :: rest => array_free value /\ each rest
         end) props
  | JArr _ => False
  | _ => True
  end.

(** What holds of a value once it went through [redactSensitiveData]. *)
Definition settled (fields : list string) (v : JsVal) : Prop :=
  redacted fields v /\ array_free v /\ redact fields v = v.

(** An entry written by the loop. *)
Definition entry_settled (fields : list string) (kv : string * JsVal) : Prop :=
  (if is_sensitive fields (fst kv) then snd kv = REDACTED else redacted fields (snd kv)) /\
  array_free (snd kv) /\
  redact_value fields (fst kv) (snd kv) = snd kv.

End Security.

(* ===================================================================== *)
(** ** Sanitising logger ([secure-logger.ts])                             *)
(* ===================================================================== *)

Module SecureLogger.

Definition SENSITIVE_PATTERNS : list string :=
  ["password"; "token"; "apikey"; "api_key"; "secret"; "authorization"; "bearer"; "ssn";
   "social_security"; "credit_card"; "card_number"; "cvv"; "pin"; "medical_record";
   "diagnosis"; "prescription"; "health_condition"; "patient_data"].

(** [SENSITIVE_PATTERNS.some(pattern => pattern.test(key))]: every pattern is
    a word, looked for anywhere in the key without regard to case. *)
Definition isSensitiveKey (key : string) : bool :=
  existsb (fun pattern => includes (toLowerCase key) pattern) SENSITIVE_PATTERNS.

Definition REDACTED : JsVal := JStr "[REDACTED]".

Fixpoint sanitizeObject (obj : JsVal) {struct obj} : JsVal :=
  match obj with
  | JArr items => JArr (map sanitizeObject items)
  | JObj props =>
      JObj ((fix each (ps : list (string * JsVal)) : list (string * JsVal) :=
               match ps with
               | [] => []
               | (key, value) :: rest =>
                   (key,
                    if isSensitiveKey key then REDACTED
                    else if is_object value then sanitizeObject value
                    else value) :: each rest
               end) props)
  | _ => obj
  end.

(** An argument handed to the logger after the message: a plain value, or an
    instance of [Error]. *)
Inductive LogArg :=
| ArgValue (v : JsVal)
| ArgError (e : JsError).

Definition GENERIC_ERROR : string :=
  "An error occurred. Please contact support if the issue persists.".

Definition sanitizeError (env : ProcessEnv) (error : LogArg) : string :=
  match error with
  | ArgError e => if isProduction env then GENERIC_ERROR else err_message e
  | ArgValue (JStr s) => s
  | ArgValue _ => "Unknown error"
  end.

Inductive Level := level_error | level_warn | level_info | level_debug.

(** One call of [console.error], [console.warn], [console.info] or
    [console.debug]. *)
Record ConsoleLine := mkLine {
  level : Level;
  text : string;
  args : list LogArg
}.

(** [sanitizeObject(arg)] on an argument: an [Error] has no enumerable
    property of its own, so its copy is the empty object. *)
Definition sanitize_arg (arg : LogArg) : LogArg :=
  match arg with
  | ArgValue v => ArgValue (sanitizeObject v)
  | ArgError _ => ArgValue (JObj [])
  end.

(** The lines each method of [secureLogger] writes. *)
Definition error (env : ProcessEnv) (message : string) (args : list LogArg)
  : list ConsoleLine :=
  if isProduction env then
    let sanitizedArgs :=
      map (fun arg =>
             match arg with
             | ArgError _ => ArgValue (JStr (sanitizeError env arg))
             | ArgValue v => ArgValue (sanitizeObject v)
             end) args in
    [mkLine level_error ("[SECURE] " ++ message) sanitizedArgs]
  else [mkLine level_error message args].

Definition warn (env : ProcessEnv) (message : string) (args : list LogArg)
  : list ConsoleLine :=
  if isProduction env then
    let sanitizedArgs := map sanitize_arg args in
    [mkLine level_warn ("[SECURE] " ++ message) sanitizedArgs]
  else [mkLine level_warn message args].

Definition info (env : ProcessEnv) (message : string) (args : list LogArg)
  : list ConsoleLine :=
  if isProduction env then
    let sanitizedArgs := map sanitize_arg args in
    [mkLine level_info ("[SECURE] " ++ message) sanitizedArgs]
  else [mkLine level_info message args].

Definition debug (env : ProcessEnv) (message : string) (args : list LogArg)
  : list ConsoleLine :=
  if negb (isProduction env) then [mkLine level_debug message args] else [].

(** *** Notions the properties are stated with *)

(** No property with a sensitive name, at any depth and inside arrays too,
    holds anything but the marker. *)
Fixpoint clean (v : JsVal) {struct v} : Prop :=
  match v with
  | JObj props =>
      (fix each (ps : list (string * JsVal)) : Prop :=
         match ps with
         | [] => True
         | (key, value) :: rest =>
             (if isSensitiveKey key then value = REDACTED else clean value) /\ each rest
         end) props
  | JArr items =>
      (fix each (xs : list JsVal) : Prop :=
         match xs with
         | [] => True
         | value :: rest => clean value /\ each rest
         end) items
  | _ => True
  end.

Definition clean_arg (arg : LogArg) : Prop :=
  match arg with
  | ArgValue v => clean v
  | ArgError _ => False
  end.

(** The argument with what an [Error] says removed. *)
Definition anonymous (arg : LogArg) : LogArg :=
  match arg with
  | ArgValue v => ArgValue v
  | ArgError _ => ArgError (mkError "" "")
  end.

(** The value a property holds after sanitising. *)
Definition sanitize_value (key : string) (value : JsVal) : JsVal :=
  if isSensitiveKey key then REDACTED
  else if is_object value then sanitizeObject value
  else value.

End SecureLogger.

(* ===================================================================== *)
(** ** Signed-in user and roles ([auth-service.ts], [msal-instance.ts])   *)
(* ===================================================================== *)

Module Identity.

(** [AccountInfo] of MSAL, with the fields the application reads. *)
Record AccountInfo := mkAccount {
  localAccountId : string;
  username : string;
  name : option string;
  tenantId : string;
  idTokenClaims : JsVal           (* [JUndefined] when the account has none *)
}.

(** What the application asks of the [PublicClientApplication] singleton. *)
Record PublicClientApplication := mkPca {
  getAllAccounts : list AccountInfo;
  getActiveAccount : option AccountInfo
}.

(** [Object.values(UserRole)] *)
Definition UserRole_values : list string :=
  ["ADMIN"; "DOCTOR"; "NURSE"; "RECEPTIONIST"; "PHARMACIST"; "LAB_TECHNICIAN"].

Record User := mkUser {
  id : string;
  email : string;
  user_name : string;
  roles : list string;
  user_tenantId : string
}.

(** [getMsalInstance()]; [msalInstance] is the module variable. *)
Definition getMsalInstance (msalInstance : option PublicClientApplication)
  : Outcome PublicClientApplication :=
  match msalInstance with
  | None => Throw (new_Error "MSAL instance not initialized. Call initializeMsal() first.")
  | Some instance => Return instance
  end.

Definition isMsalInitialized (msalInstance : option PublicClientApplication) : bool :=
  match msalInstance with Some _ => true | None => false end.

Definition getCurrentAccount (msalInstance : option PublicClientApplication)
  : Outcome (option AccountInfo) :=
  match getMsalInstance msalInstance with
  | Throw t => Throw t
  | Return instance =>
      let accounts := getAllAccounts instance in
      match accounts with
      | [] => Return None
      | first :: _ =>
          Return (Some match getActiveAccount instance with
                       | Some active => active
                       | None => first
                       end)
      end
  end.

Definition isAuthenticated (msalInstance : option PublicClientApplication) : Outcome bool :=
  match getCurrentAccount msalInstance with
  | Throw t => Throw t
  | Return account => Return (match account with Some _ => true | None => false end)
  end.

(** [Object.values(UserRole).includes(role)] for a claim of any type. *)
Definition is_UserRole (role : JsVal) : bool :=
  match role with
  | JStr s => existsb (String.eqb s) UserRole_values
  | _ => false
  end.

Definition role_name (role : JsVal) : string :=
  match role with JStr s => s | _ => "" end.

Definition getUserFromAccount (account : AccountInfo) : User :=
  let idTokenClaims := idTokenClaims account in
  let roleClaims :=
    js_or (get_prop idTokenClaims "extension_Role") (get_prop idTokenClaims "roles") in
  let roles :=
    match roleClaims with
    | JArr items =>
        fold_left
          (fun roles role => if is_UserRole role then (roles ++ [role_name role])%list else roles)
          items []
    | JStr s => if is_UserRole roleClaims then [s] else []
    | _ => []
    end in
  {| id := localAccountId account;
     email := username account;
     user_name := match name account with
                  | Some n => if n =? "" then username account else n
                  | None => username account
                  end;
     roles := roles;
     user_tenantId := tenantId account |}.

Definition getCurrentUser (msalInstance : option PublicClientApplication)
  : Outcome (option User) :=
  match getCurrentAccount msalInstance with
  | Throw t => Throw t
  | Return None => Return None
  | Return (Some account) => Return (Some (getUserFromAccount account))
  end.

(** [user.roles.includes(role)] *)
Definition roles_include (user : User) (role : string) : bool :=
  existsb (String.eqb role) (roles user).

Definition hasRole (msalInstance : option PublicClientApplication) (role : string)
  : Outcome bool :=
  match getCurrentUser msalInstance with
  | Throw t => Throw t
  | Return user =>
      Return (match user with
              | Some user => roles_include user role || false
              | None => false
              end)
  end.

Definition hasAnyRole (msalInstance : option PublicClientApplication) (roles : list string)
  : Outcome bool :=
  match getCurrentUser msalInstance with
  | Throw t => Throw t
  | Return None => Return false
  | Return (Some user) => Return (existsb (fun role => roles_include user role) roles)
  end.

(** *** Notions the properties are stated with *)

(** The claim the roles are read from. *)
Definition roleClaims (account : AccountInfo) : JsVal :=
  js_or (get_prop (idTokenClaims account) "extension_Role")
        (get_prop (idTokenClaims account) "roles").

(** [role] is stated by the claim [claim]. *)
Definition stated_by (claim : JsVal) (role : string) : Prop :=
  match claim with
  | JArr items => In (JStr role) items
  | JStr s => s = role
  | _ => False
  end.

End Identity.

(* ===================================================================== *)
(** ** Retry policy of the query layer ([query-client.ts])                *)
(* ===================================================================== *)

Module QueryClient.
Import Backoff.

(** [error && typeof error === 'object' && 'statusCode' in error], and the
    [statusCode] read under that guard.  An error thrown by the client is an
    ApiError literal or an instance of [Error]; the latter has no such
    property. *)
Definition statusCode_in (error : Thrown) : option Z :=
  match error with
  | ThrowApiError apiError => statusCode apiError
  | ThrowError _ => None
  end.

(** The number a value is used as in arithmetic ([None] is [NaN]); the
    conversion of values that are not numbers is the platform's
    ([ToNumber]). *)
Definition as_number (ToNumber : JsVal -> option Q) (v : JsVal) : option Q :=
  match v with
  | JNum q => Some q
  | _ => ToNumber v
  end.

(** [calculateRetryDelay(failureCount, error)]; [random] is the value
    [Math.random()] returns in this call. *)
Definition calculateRetryDelay (ToNumber : JsVal -> option Q) (random : Q)
    (failureCount : nat) (error : Thrown) : option Q :=
  (let baseDelay := 1000 in
   let exponential :=
     let exponentialDelay := baseDelay * Math_pow2 failureCount in
     let jitter := random * (2 # 10) * exponentialDelay in
     Some (Qmin (exponentialDelay + jitter) 30000) in
   match error with
   | ThrowApiError apiError =>
       match statusCode apiError with
       | Some code =>
           if (code =? 429)%Z && truthy (get_prop (details apiError) "retryAfterSeconds") then
             match as_number ToNumber (get_prop (details apiError) "retryAfterSeconds") with
             | Some retryAfter =>
                 let jitter := random * (2 # 10) * retryAfter * 1000 in
                 Some (Qmin (retryAfter * 1000 + jitter) 30000)
             | None => None
             end
           else exponential
       | None => exponential
       end
   | ThrowError _ => exponential
   end)%Q.

(** [defaultQueryOptions.queries.retry] *)
Definition queries_retry (failureCount : nat) (error : Thrown) : bool :=
  match statusCode_in error with
  | Some statusCode =>
      if (statusCode =? 429)%Z then (failureCount <? 2)%nat
      else if negb (statusCode =? 0)%Z && (400 <=? statusCode)%Z && (statusCode <? 500)%Z
           then false
           else (failureCount <? 3)%nat
  | None => (failureCount <? 3)%nat
  end.

(** [defaultQueryOptions.mutations.retry] *)
Definition mutations_retry (failureCount : nat) (error : Thrown) : bool :=
  match statusCode_in error with
  | Some statusCode =>
      if (statusCode =? 429)%Z then (failureCount <? 1)%nat
      else false
  | None => false
  end.

End QueryClient.

(* ===================================================================== *)
(** ** Request pipeline: further notions                                  *)
(* ===================================================================== *)

Module ClientNotions.
Import Backoff Client.

(** The shapes of the values [request] throws for [endpoint] and [method]:
    an instance of [Error] (configuration, URL, transport, body), or one of
    the ApiError literals of the client. *)
Definition thrown_by_client (endpoint method : string) (t : Thrown) : Prop :=
  match t with
  | ThrowError _ => True
  | ThrowApiError e =>
      e = CSRF_TOKEN_MISSING \/
      e = TIMEOUT \/
      (exists retryAfter, e = RATE_LIMITED retryAfter endpoint method) \/
      (exists s, statusCode e = Some s /\ s <> 429 /\ ~ (200 <= s <= 299))
  end.

Definition sleeps_of (tr : list Event) : list Q :=
  flat_map (fun e => match e with Slept ms => [ms] | _ => [] end) tr.

Definition calls_of (tr : list Event) : list FetchCall :=
  flat_map (fun e => match e with NetworkCall c => [c] | _ => [] end) tr.

Definition token_requests (tr : list Event) : nat :=
  length (filter (fun e => match e with TokenRequested => true | _ => false end) tr).

(** Neither a network call nor a sleep. *)
Definition is_quiet (e : Event) : Prop :=
  match e with
  | NetworkCall _ | Slept _ => False
  | _ => True
  end.

(** [config?.timeout || this.defaultTimeout] *)
Definition effective_timeout (client : ApiClient) (config : option ApiRequestConfig) : Z :=
  match match config with Some c => timeout c | None => None end with
  | Some t => if (t =? 0)%Z then defaultTimeout client else t
  | None => defaultTimeout client
  end.

(** [body ? JSON.stringify(body) : undefined], before serialisation. *)
Definition sent_body (body : option JsVal) : option JsVal :=
  match body with
  | Some b => if truthy b then Some b else None
  | None => None
  end.

(** The body as [handleResponse] reads it. *)
Definition is_json (r : Response) : bool :=
  match content_type r with
  | Some ct => includes ct "application/json"
  | None => false
  end.

Definition response_data (r : Response) : Settled JsVal :=
  if is_json r then body_json r
  else match body_text r with
       | Resolved t => Resolved (JStr t)
       | Rejected e => Rejected e
       end.

(** The delay slept after pass [i] was answered 429. *)
Definition backoff_of (h : Host) (net : nat -> Attempt) (i : nat) : Q :=
  match att_fetch (net i) with
  | Resolved r =>
      calculateBackoffDelay (att_random (net i)) i (option_map inject_Z (hint_of h net i r))
  | Rejected _ => 0
  end.

(** The host checks of [getApiBaseUrl], taken together. *)
Definition local_or_private (hostname : string) : bool :=
  let isLocalhost :=
    existsb (String.eqb hostname) localhostVariants ||
    endsWith hostname ".local" ||
    startsWith hostname "127." in
  let isPrivateIP := privateIPv4Pattern hostname || privateIPv6Pattern hostname in
  isLocalhost || isPrivateIP.

(** [config?.withAuth !== false] *)
Definition wants_auth (config : option ApiRequestConfig) : bool :=
  match config with
  | Some c => match withAuth c with Some false => false | _ => true end
  | None => true
  end.

(** A dotted quad. *)
Definition dotted (a b c d : Z) : string :=
  String_of_Z a ++ "." ++ String_of_Z b ++ "." ++ String_of_Z c ++ "." ++ String_of_Z d.

(** The private ranges of RFC 1918. *)
Definition rfc1918 (a b : Z) : bool :=
  (a =? 10)%Z || ((a =? 172)%Z && (16 <=? b)%Z && (b <=? 31)%Z) ||
  ((a =? 192)%Z && (b =? 168)%Z).


(** The module as loaded: nothing cached, the singleton built without an
    explicit base URL. *)
Definition fresh_module (w : World) : Prop :=
  cachedApiBaseUrl w = None /\ baseUrl (this w) = None.

End ClientNotions.

(* ===================================================================== *)
(** ** Patient API and audit trail ([patient-api.ts], [security.ts])      *)
(* ===================================================================== *)

(** The functions of this layer run requests of the client and write to the
    console; their state is the world of the client together with the lines
    written. *)

Module PatientApi.
Import Client SecureLogger Security.

Record AppState := mkApp {
  api : World;
  console : list ConsoleLine
}.

Definition App (A : Type) : Type := AppState -> Outcome A * AppState.

Definition pure {A} (a : A) : App A := fun s => (Return a, s).
Definition raise {A} (t : Thrown) : App A := fun s => (Throw t, s).
Definition and_then {A B} (c : App A) (k : A -> App B) : App B :=
  fun s =>
    match c s with
    | (Return a, s') => k a s'
    | (Throw t, s') => (Throw t, s')
    end.
Definition catch {A} (c : App A) (handler : Thrown -> App A) : App A :=
  fun s =>
    match c s with
    | (Return a, s') => (Return a, s')
    | (Throw t, s') => handler t s'
    end.

(** A computation of the client, run on the client's part of the state. *)
Definition lift {A} (c : M A) : App A :=
  fun s =>
    match c (api s) with
    | (r, w) => (r, {| api := w; console := console s |})
    end.

Definition write (lines : list ConsoleLine) : App unit :=
  fun s => (Return tt, {| api := api s; console := (console s ++ lines)%list |}).

Definition settle {A} (o : Outcome A) : App A :=
  match o with
  | Return a => pure a
  | Throw t => raise t
  end.

Declare Scope app_scope.
Delimit Scope app_scope with app.
Notation "x <- c ;; k" := (and_then c (fun x => k))
  (at level 61, c at next level, right associativity) : app_scope.
Notation "c ;;; k" := (and_then c (fun _ => k))
  (at level 61, right associativity) : app_scope.
Local Open Scope app_scope.

(** An ApiError literal as the value it is.  A property holding [undefined]
    is not told apart from an absent one. *)
Definition JsVal_of_ApiError (e : ApiError) : JsVal :=
  JObj ([("code", code e); ("message", message e)] ++
        match statusCode e with
        | Some s => [("statusCode", JNum (inject_Z s))]
        | None => []
        end ++
        match details e with
        | JUndefined => []
        | d => [("details", d)]
        end)%list.

(** A caught value, as an argument of the logger. *)
Definition arg_of_thrown (t : Thrown) : LogArg :=
  match t with
  | ThrowApiError e => ArgValue (JsVal_of_ApiError e)
  | ThrowError e => ArgError e
  end.

(** [ENDPOINTS] *)
Definition ENDPOINTS_patients : string := "/api/v1/patients".
Definition ENDPOINTS_patient (id : string) : string := "/api/v1/patients/" ++ id.
Definition ENDPOINTS_search : string := "/api/v1/patients/search".
Definition ENDPOINTS_validate : string := "/api/v1/patients/validate".

(** [{ params }] as an [ApiRequestConfig] *)
Definition with_params_only (params : list (string * ParamValue)) : ApiRequestConfig :=
  {| headers := None; params := Some params; timeout := None;
     withAuth := None; skipRateLimitRetry := None |}.

Definition FORBIDDEN (message : string) : ApiError :=
  {| code := JStr "FORBIDDEN";
     message := JStr message;
     statusCode := Some 403;
     details := JUndefined |}.

(** An audit entry as the object handed to the client; the [Date] of
    [timestamp] is written as its time value. *)
Definition JsVal_of_AuditEntry (e : AuditEntry) : JsVal :=
  JObj [("timestamp", JNum (inject_Z (timestamp e)));
        ("userId", JStr (userId e));
        ("action", JStr (AuditAction_value (action e)));
        ("resourceType", JStr (resourceType e));
        ("resourceId", JStr (resourceId e));
        ("details", match entry_details e with Some d => d | None => JUndefined end)].

Definition AUDIT_ENDPOINT : string := "/api/v1/audit".

(** [{ withAuth: true }] *)
Definition with_auth_only : ApiRequestConfig :=
  {| headers := None; params := None; timeout := None;
     withAuth := Some true; skipRateLimitRetry := None |}.

(** [base.key] for the fields read of a patient ([demographics],
    [firstName], [lastName]), which no string, number or array has: reading
    from [undefined] or [null] throws. *)
Definition read_field (base : JsVal) (key : string) : App JsVal :=
  match base with
  | JUndefined =>
      raise (ThrowError (mkError "TypeError"
               ("Cannot read properties of undefined (reading '" ++ key ++ "')")))
  | JNull =>
      raise (ThrowError (mkError "TypeError"
               ("Cannot read properties of null (reading '" ++ key ++ "')")))
  | _ => pure (get_prop base key)
  end.

Section WithPlatform.

Variable h : Host.
Variable env : ProcessEnv.
(** The MSAL singleton as it stands when the function runs. *)
Variable msalInstance : option Identity.PublicClientApplication.
(** The conversion to string that a template literal applies. *)
Variable ToString : JsVal -> string.

(** [try { return await call } catch (error) { secureLogger.error(message, error); throw error }] *)
Definition logged {A} (message : string) (call : M A) : App A :=
  catch (lift call)
        (fun error =>
           write (SecureLogger.error env message [arg_of_thrown error]) ;;;
           raise error).

Definition fetchPatient (net : nat -> Attempt) (id : string) : App JsVal :=
  logged "Failed to fetch patient:" (get h env net (ENDPOINTS_patient id) None).

Definition fetchPatients (net : nat -> Attempt) (request : list (string * ParamValue))
  : App JsVal :=
  logged "Failed to fetch patients:"
         (get h env net ENDPOINTS_patients (Some (with_params_only request))).

Definition searchPatients (net : nat -> Attempt) (filters : list (string * ParamValue))
  : App JsVal :=
  logged "Failed to search patients:"
         (get h env net ENDPOINTS_search (Some (with_params_only filters))).

Definition registerPatient (net : nat -> Attempt) (data : JsVal) : App JsVal :=
  logged "Failed to register patient:" (post h env net ENDPOINTS_patients (Some data) None).

Definition updatePatient (net : nat -> Attempt) (id : string) (data : JsVal) : App JsVal :=
  logged "Failed to update patient:" (patch h env net (ENDPOINTS_patient id) (Some data) None).

Definition deactivatePatient (net : nat -> Attempt) (id : string) : App unit :=
  logged "Failed to deactivate patient:"
         (_ <- patch h env net (ENDPOINTS_patient id)
                 (Some (JObj [("isActive", JBool false)])) None ;;
          ret tt)%js.

Definition validatePatientData (net : nat -> Attempt) (data : JsVal) : App JsVal :=
  logged "Failed to validate patient data:"
         (post h env net ENDPOINTS_validate (Some data) None).

(** [logAuditEntry(userId, action, resourceType, resourceId, details)];
    [now] is the clock read by [createAuditEntry]. *)
Definition logAuditEntry (net : nat -> Attempt) (now : Z) (userId : string)
    (action : AuditAction) (resourceType resourceId : string) (details : option JsVal)
  : App unit :=
  catch
    (let auditEntry := createAuditEntry now userId action resourceType resourceId details in
     _ <- lift (post h env net AUDIT_ENDPOINT (Some (JsVal_of_AuditEntry auditEntry))
                  (Some with_auth_only)) ;;
     pure tt)
    (fun error =>
       write [mkLine level_error "Failed to log audit entry:" [arg_of_thrown error]] ;;;
       pure tt).

(** The [queryFn] of [usePatient(id, userId)]; [net] answers the fetch and
    [audit_net] the audit request. *)
Definition usePatient_queryFn (net audit_net : nat -> Attempt) (now : Z)
    (id : string) (userId : option string) : App JsVal :=
  patient <- fetchPatient net id ;;
  (if negb (match userId with Some u => u | None => "" end =? "") then
     demographics <- read_field patient "demographics" ;;
     firstName <- read_field demographics "firstName" ;;
     demographics' <- read_field patient "demographics" ;;
     lastName <- read_field demographics' "lastName" ;;
     logAuditEntry audit_net now (match userId with Some u => u | None => "" end)
       audit_view "Patient" id
       (Some (JObj [("patientName",
                     JStr (ToString firstName ++ " " ++ ToString lastName))]))
   else pure tt) ;;;
  pure patient.

(** The [mutationFn] of [useRegisterPatient], [useUpdatePatient] and
    [useDeactivatePatient]. *)
Definition useRegisterPatient_mutationFn (net : nat -> Attempt) (data : JsVal) : App JsVal :=
  canCreate <- settle (Identity.hasAnyRole msalInstance
                         ["ADMIN"; "DOCTOR"; "NURSE"; "RECEPTIONIST"]) ;;
  if negb canCreate then
    raise (ThrowApiError (FORBIDDEN "You do not have permission to register patients"))
  else registerPatient net data.

Definition useUpdatePatient_mutationFn (net : nat -> Attempt) (id : string) (data : JsVal)
  : App JsVal :=
  canUpdate <- settle (Identity.hasAnyRole msalInstance ["ADMIN"; "DOCTOR"; "NURSE"]) ;;
  if negb canUpdate then
    raise (ThrowApiError (FORBIDDEN "You do not have permission to update patient records"))
  else updatePatient net id data.

Definition useDeactivatePatient_mutationFn (net : nat -> Attempt) (patientId : string)
  : App unit :=
  canDelete <- settle (Identity.hasRole msalInstance "ADMIN") ;;
  if negb canDelete then
    raise (ThrowApiError
             (FORBIDDEN
                "You do not have permission to deactivate patient records. Admin access required."))
  else deactivatePatient net patientId.

End WithPlatform.

(** *** Notions the properties are stated with *)

(** The lines a wrapper writes for the outcome of its call. *)
Definition failure_lines {A} (env : ProcessEnv) (message : string) (r : Outcome A)
  : list ConsoleLine :=
  match r with
  | Return _ => []
  | Throw t => SecureLogger.error env message [arg_of_thrown t]
  end.

Definition nullish (v : JsVal) : bool :=
  match v with JUndefined | JNull => true | _ => false end.

(** The roles of the signed-in user; none when nobody is signed in. *)
Definition held_roles (msalInstance : option Identity.PublicClientApplication)
  : list string :=
  match Identity.getCurrentUser msalInstance with
  | Return (Some user) => Identity.roles user
  | _ => []
  end.

(** The body of the audit request of [usePatient]. *)
Definition view_entry (ToString : JsVal -> string) (now : Z) (userId id : string)
    (patient : JsVal) : JsVal :=
  JsVal_of_AuditEntry
    (createAuditEntry now userId audit_view "Patient" id
       (Some (JObj [("patientName",
                     JStr (ToString (get_prop (get_prop patient "demographics") "firstName")
                           ++ " " ++
                           ToString (get_prop (get_prop patient "demographics") "lastName")))]))).

(** The events a computation added to the trace of the client. *)
Definition added (s s' : AppState) (evs : list Event) : Prop :=
  trace (api s') = (trace (api s) ++ evs)%list.

(** What the client itself wrote with [console.warn] among [evs]. *)
Definition warnings_of (evs : list Event) : list string :=
  flat_map (fun e => match e with ConsoleWarn m => [m] | _ => [] end) evs.

(** The functions of the API that return data, as calls. *)
Inductive PatientCall :=
| FetchPatient (id : string)
| FetchPatients (request : list (string * ParamValue))
| SearchPatients (filters : list (string * ParamValue))
| RegisterPatient (data : JsVal)
| UpdatePatient (id : string) (data : JsVal)
| ValidatePatientData (data : JsVal).

Definition perform (h : Host) (env : ProcessEnv) (net : nat -> Attempt)
    (call : PatientCall) : App JsVal :=
  match call with
  | FetchPatient id => fetchPatient h env net id
  | FetchPatients request => fetchPatients h env net request
  | SearchPatients filters => searchPatients h env net filters
  | RegisterPatient data => registerPatient h env net data
  | UpdatePatient id data => updatePatient h env net id data
  | ValidatePatientData data => validatePatientData h env net data
  end.

(** The request each call is expected to make, and the message it is
    expected to log on failure. *)
Definition method_of (call : PatientCall) : string :=
  match call with
  | FetchPatient _ | FetchPatients _ | SearchPatients _ => "GET"
  | RegisterPatient _ | ValidatePatientData _ => "POST"
  | UpdatePatient _ _ => "PATCH"
  end.

Definition endpoint_of (call : PatientCall) : string :=
  match call with
  | FetchPatient id | UpdatePatient id _ => "/api/v1/patients/" ++ id
  | FetchPatients _ | RegisterPatient _ => "/api/v1/patients"
  | SearchPatients _ => "/api/v1/patients/search"
  | ValidatePatientData _ => "/api/v1/patients/validate"
  end.

Definition config_of (call : PatientCall) : option ApiRequestConfig :=
  match call with
  | FetchPatients params | SearchPatients params => Some (with_params_only params)
  | _ => None
  end.

Definition body_of (call : PatientCall) : option JsVal :=
  match call with
  | RegisterPatient data | UpdatePatient _ data | ValidatePatientData data => Some data
  | _ => None
  end.

Definition message_of (call : PatientCall) : string :=
  match call with
  | FetchPatient _ => "Failed to fetch patient:"
  | FetchPatients _ => "Failed to fetch patients:"
  | SearchPatients _ => "Failed to search patients:"
  | RegisterPatient _ => "Failed to register patient:"
  | UpdatePatient _ _ => "Failed to update patient:"
  | ValidatePatientData _ => "Failed to validate patient data:"
  end.

End PatientApi.

(* ===================================================================== *)
(** ** Concrete patients, users and traffic                               *)
(* ===================================================================== *)

Module Cases.
Import Client Identity PatientApi.

Definition ada : JsVal :=
  JObj [("id", JStr "42");
        ("demographics", JObj [("firstName", JStr "Ada"); ("lastName", JStr "Lovelace")])].

(** Every pass is answered 200 with the patient. *)
Definition fine : nat -> Attempt :=
  fun _ => Sample.answers Sample.page_with_token
             (Resolved (Sample.json_response 200 "OK" None ada)).

(** One 429 with [Retry-After: 2], then a 200. *)
Definition throttled_then_fine : nat -> Attempt :=
  fun i =>
    match i with
    | O => Sample.answers Sample.page_with_token
             (Resolved (Sample.json_response 429 "Too Many Requests" (Some "2") JNull))
    | _ => Sample.answers Sample.page_with_token
             (Resolved (Sample.json_response 200 "OK" None ada))
    end.



(** The token cannot be obtained; the server answers 200. *)
Definition without_token : Attempt :=
  {| att_token := Rejected (mkError "Error" "No active account");
     att_document := Sample.page_with_token;
     att_fetch := Resolved (Sample.json_response 200 "OK" None ada);
     att_now := 1445412470000;
     att_random := 1 # 2 |}.

(** Nothing requested, nothing written. *)
Definition at_rest : AppState := {| api := Sample.world0; console := [] |}.

(** The conversion of a template literal on strings, booleans, [null],
    [undefined] and plain objects; the examples hold no number and no array
    where a name is read. *)
Definition ToString (v : JsVal) : string :=
  match v with
  | JStr s => s
  | JNull => "null"
  | JBool true => "true"
  | JBool false => "false"
  | JUndefined => "undefined"
  | JObj _ => "[object Object]"
  | JNum _ | JArr _ => ""
  end.

(** MSAL initialised with one account whose token names the roles. *)
Definition signed_in_as (roles : list string) : option PublicClientApplication :=
  Some {| getAllAccounts :=
            [{| localAccountId := "u-1"; username := "ada@example.com";
                name := Some "Ada"; tenantId := "t-1";
                idTokenClaims := JObj [("roles", JArr (map JStr roles))] |}];
          getActiveAccount := None |}.

End Cases.

(* ===================================================================== *)
(** * Properties                                                          *)
(* ===================================================================== *)

Local Open Scope list_scope.

(** ** Retry / backoff engine *)

Module BackoffProps.
Import Backoff.

(** *** Delay *)

Lemma Math_pow2_Qpower (i : nat) : (Math_pow2 i == 2 ^ Z.of_nat i)%Q.
Proof. unfold Math_pow2. apply (Zpower_Qpower 2). lia. Qed.

Lemma Math_pow2_pos (i : nat) : (0 < Math_pow2 i)%Q.
Proof.
  unfold Math_pow2. change 0%Q with (inject_Z 0). rewrite <- Zlt_Qlt.
  apply Z.pow_pos_nonneg; lia.
Qed.

Lemma Math_pow2_S (i : nat) : (Math_pow2 (S i) == 2 * Math_pow2 i)%Q.
Proof.
  unfold Math_pow2. rewrite Nat2Z.inj_succ, Z.pow_succ_r by lia.
  rewrite inject_Z_mult. reflexivity.
Qed.

Lemma calculateBackoffDelay_hint (u : Q) (i : nat) (h : Q) :
  (0 < h)%Q ->
  (calculateBackoffDelay u i (Some h)
   == Qmin (h * 1000 + u * (2 # 10) * h * 1000) 30000)%Q.
Proof.
  intros Hh. unfold calculateBackoffDelay. cbv zeta.
  destruct (Qlt_le_dec 0 h) as [_ | Hle]; [reflexivity|].
  exfalso. apply (Qlt_not_le _ _ Hh Hle).
Qed.

Lemma calculateBackoffDelay_exponential (u : Q) (i : nat) :
  (calculateBackoffDelay u i None
   == Qmin (1000 * 2 ^ Z.of_nat i + u * (2 # 10) * 1000 * 2 ^ Z.of_nat i) 30000)%Q.
Proof.
  unfold calculateBackoffDelay. cbv zeta.
  unfold RATE_LIMIT_CONFIG, baseDelayMs, maxDelayMs, jitterFactor.
  rewrite Math_pow2_Qpower.
  apply Q.min_compat; [| reflexivity]. ring.
Qed.

Lemma calculateBackoffDelay_ignores_hint (u : Q) (i : nat) (hint : option Q) :
  (forall h, hint = Some h -> (h <= 0)%Q) ->
  calculateBackoffDelay u i hint = calculateBackoffDelay u i None.
Proof.
  intros H. destruct hint as [h|]; [| reflexivity].
  unfold calculateBackoffDelay. cbv zeta.
  destruct (Qlt_le_dec 0 h) as [Hlt | _]; [| reflexivity].
  exfalso. apply (Qlt_not_le _ _ Hlt). apply H. reflexivity.
Qed.

Lemma calculateBackoffDelay_cap (u : Q) (i : nat) (hint : option Q) :
  (calculateBackoffDelay u i hint <= 30000)%Q.
Proof.
  unfold calculateBackoffDelay. cbv zeta.
  destruct hint as [h|]; [destruct (Qlt_le_dec 0 h) |]; apply Q.le_min_r.
Qed.

Lemma calculateBackoffDelay_mono (u : Q) (i : nat) :
  (0 <= u)%Q ->
  (calculateBackoffDelay u i None <= calculateBackoffDelay u (S i) None)%Q.
Proof.
  intros Hu. unfold calculateBackoffDelay. cbv zeta.
  unfold RATE_LIMIT_CONFIG, baseDelayMs, maxDelayMs, jitterFactor.
  apply Q.min_le_compat_r.
  rewrite Math_pow2_S. pose proof (Math_pow2_pos i) as Hp.
  set (p := Math_pow2 i) in *. clearbody p.
  assert (Hup : (0 <= u * p)%Q)
    by (apply Qmult_le_0_compat; [exact Hu | apply Qlt_le_weak; exact Hp]).
  Lqa.nra.
Qed.

(** The same delay over the reals, where the expectation is an integral. *)

Lemma Q2R_Qmin (a b : Q) : Q2R (Qmin a b) = Rmin (Q2R a) (Q2R b).
Proof.
  destruct (Q.min_spec a b) as [[Hlt Heq] | [Hle Heq]].
  - rewrite (Qeq_eqR _ _ Heq). rewrite Rmin_left; [reflexivity|].
    apply Qle_Rle. apply Qlt_le_weak. exact Hlt.
  - rewrite (Qeq_eqR _ _ Heq). rewrite Rmin_right; [reflexivity|].
    apply Qle_Rle. exact Hle.
Qed.

Lemma Q2R_inject_Z (z : Z) : Q2R (inject_Z z) = IZR z.
Proof. unfold Q2R, inject_Z. simpl. field. Qed.

Lemma Q2R_Math_pow2 (i : nat) : Q2R (Math_pow2 i) = (2 ^ i)%R.
Proof. unfold Math_pow2. rewrite Q2R_inject_Z. symmetry. apply pow_IZR. Qed.

Lemma calculateBackoffDelay_real (u : Q) (i : nat) :
  Q2R (calculateBackoffDelay u i None) = delay_real i (Q2R u).
Proof.
  unfold calculateBackoffDelay, delay_real. cbv zeta.
  rewrite Q2R_Qmin, Q2R_plus, !Q2R_mult, Q2R_Math_pow2.
  unfold RATE_LIMIT_CONFIG, baseDelayMs, maxDelayMs, jitterFactor.
  replace (Q2R 1000) with 1000%R by (unfold Q2R; simpl; lra).
  replace (Q2R 30000) with 30000%R by (unfold Q2R; simpl; lra).
  replace (Q2R (2 # 10)) with (2 / 10)%R by (unfold Q2R; simpl; lra).
  reflexivity.
Qed.

Lemma Rmin_lipschitz (a b c : R) : (Rabs (Rmin a c - Rmin b c) <= Rabs (a - b))%R.
Proof.
  unfold Rmin. destruct (Rle_dec a c), (Rle_dec b c);
    unfold Rabs; repeat destruct Rcase_abs; lra.
Qed.

Lemma delay_real_continuous (i : nat) (x : R) : continuity_pt (delay_real i) x.
Proof.
  intros eps Heps.
  set (d := (1000 * 2 ^ i)%R).
  assert (Hd : (0 < d)%R) by (unfold d; apply Rmult_lt_0_compat; [lra | apply pow_lt; lra]).
  exists (eps / d)%R. split.
  - apply Rdiv_lt_0_compat; assumption.
  - intros y [_ Hy]. simpl in *. unfold R_dist, delay_real in *. fold d.
    eapply Rle_lt_trans; [apply Rmin_lipschitz|].
    replace (d + y * (2 / 10) * d - (d + x * (2 / 10) * d))%R
      with ((2 / 10 * d) * (y - x))%R by ring.
    rewrite Rabs_mult. rewrite (Rabs_pos_eq (2 / 10 * d)) by lra.
    apply Rlt_le_trans with (d * (eps / d))%R.
    + apply Rle_lt_trans with (d * Rabs (y - x))%R.
      * apply Rmult_le_compat_r; [apply Rabs_pos | lra].
      * apply Rmult_lt_compat_l; assumption.
    + right. field. lra.
Qed.

Lemma delay_real_integrable (i : nat) : Riemann_integrable (delay_real i) 0 1.
Proof.
  apply continuity_implies_RiemannInt; [lra|].
  intros x _. apply delay_real_continuous.
Qed.

Lemma delay_real_mono (i : nat) (u : R) :
  (0 <= u)%R -> (delay_real i u <= delay_real (S i) u)%R.
Proof.
  intros Hu. unfold delay_real.
  apply Rle_min_compat_r.
  assert (H2 : (0 < 2 ^ i)%R) by (apply pow_lt; lra).
  simpl pow. nra.
Qed.

(** C4. For every attempt index [i] and every jitter draw [u] in [0,1):
    with a positive server hint [h] the delay is
    [min(h*1000 + u*0.2*h*1000, 30000)]; otherwise it is
    [min(1000*2^i + u*0.2*1000*2^i, 30000)]; it never exceeds 30000 ms; and
    with no hint it is non-decreasing in [i], draw by draw and therefore in
    expectation (the integral of the delay over a uniform draw). *)
Theorem calculateBackoffDelay_formula (i : nat) (u : Q) (hint : option Q) :
  (0 <= u)%Q -> (u < 1)%Q ->
  (forall h, hint = Some h -> (0 < h)%Q ->
     (calculateBackoffDelay u i hint
      == Qmin (h * 1000 + u * (2 # 10) * h * 1000) 30000)%Q) /\
  ((forall h, hint = Some h -> (h <= 0)%Q) ->
     (calculateBackoffDelay u i hint
      == Qmin (1000 * 2 ^ Z.of_nat i + u * (2 # 10) * 1000 * 2 ^ Z.of_nat i) 30000)%Q) /\
  (calculateBackoffDelay u i hint <= 30000)%Q /\
  (calculateBackoffDelay u i None <= calculateBackoffDelay u (S i) None)%Q /\
  Q2R (calculateBackoffDelay u i None) = delay_real i (Q2R u) /\
  inhabited (Riemann_integrable (delay_real i) 0 1) /\
  (forall (this_attempt : Riemann_integrable (delay_real i) 0 1)
          (next_attempt : Riemann_integrable (delay_real (S i)) 0 1),
     (RiemannInt this_attempt <= RiemannInt next_attempt)%R).
Proof.
  intros Hu0 Hu1. repeat split.
  - intros h -> Hh. apply calculateBackoffDelay_hint. exact Hh.
  - intros Hno. rewrite (calculateBackoffDelay_ignores_hint u i hint Hno).
    apply calculateBackoffDelay_exponential.
  - apply calculateBackoffDelay_cap.
  - apply calculateBackoffDelay_mono. exact Hu0.
  - apply calculateBackoffDelay_real.
  - exact (delay_real_integrable i).
  - intros pr pr'. apply RiemannInt_P19; [lra|].
    intros x [Hx _]. apply delay_real_mono. lra.
Qed.

Lemma calculateBackoffDelay_formula_witness :
  (calculateBackoffDelay (1 # 2) 2 (Some 5%Q)
   == Qmin (5 * 1000 + (1 # 2) * (2 # 10) * 5 * 1000) 30000)%Q /\
  (calculateBackoffDelay (1 # 2) 2 None <= calculateBackoffDelay (1 # 2) 3 None)%Q.
Proof.
  destruct (calculateBackoffDelay_formula 2 (1 # 2) (Some 5%Q)) as (H1 & _ & _ & H4 & _).
  - vm_compute. discriminate.
  - reflexivity.
  - split; [apply (H1 5%Q eq_refl); reflexivity | exact H4].
Defined.

(** *** Retry-After *)

Lemma read_digits_step (c : ascii) (s : string) (seen : bool) (acc k : Z) :
  digit_value c = Some k ->
  read_digits (String c s) seen acc = read_digits s true (10 * acc + k).
Proof. intros H. simpl. rewrite H. reflexivity. Qed.

Ltac digit_step :=
  cbn [NilEmpty.string_of_uint Pos.of_uint_acc Pos.of_uint];
  erewrite read_digits_step by (vm_compute; reflexivity).

Lemma read_digits_acc (d : Decimal.uint) (p : positive) :
  read_digits (NilEmpty.string_of_uint d) true (Z.pos p)
  = Some (Z.pos (Pos.of_uint_acc d p)).
Proof.
  revert p. induction d; intros p; [reflexivity | ..];
    digit_step; rewrite <- IHd; f_equal; lia.
Qed.

Lemma read_digits_uint (d : Decimal.uint) (seen : bool) :
  d <> Decimal.Nil \/ seen = true ->
  read_digits (NilEmpty.string_of_uint d) seen 0 = Some (Z.of_uint d).
Proof.
  unfold Z.of_uint. revert seen.
  induction d; intros seen Hd;
    [destruct Hd as [Hd | ->]; [congruence | reflexivity] | ..];
    digit_step; try (apply IHd; right; reflexivity);
    cbn [Z.of_N]; rewrite <- read_digits_acc; f_equal.
Qed.

Lemma parseInt10_uint (d : Decimal.uint) :
  d <> Decimal.Nil ->
  parseInt10 (NilEmpty.string_of_uint d) = Some (Z.of_uint d).
Proof.
  intros Hd. pose proof (read_digits_uint d false (or_introl Hd)) as H.
  destruct d; try congruence; clear Hd;
    unfold parseInt10; cbn [NilEmpty.string_of_uint trimStart] in *;
    (match goal with |- context [isStrWhiteSpaceChar ?c] =>
       change (isStrWhiteSpaceChar c) with false end);
    cbv iota; rewrite H; f_equal; lia.
Qed.

(** [parseInt] reads back the decimal notation of every integer. *)
Lemma parseInt10_String_of_Z (n : Z) : parseInt10 (String_of_Z n) = Some n.
Proof.
  unfold String_of_Z. destruct n as [|p|p].
  - reflexivity.
  - pose proof (Unsigned.to_uint_nonnil p) as Hn.
    pose proof (DecimalPos.Unsigned.of_to p) as Hv.
    cbn [Z.to_int NilZero.string_of_int]. unfold NilZero.string_of_uint.
    destruct (Pos.to_uint p) eqn:E; try congruence; rewrite <- E in *;
      rewrite parseInt10_uint by assumption; unfold Z.of_uint; rewrite Hv; reflexivity.
  - pose proof (Unsigned.to_uint_nonnil p) as Hn.
    pose proof (DecimalPos.Unsigned.of_to p) as Hv.
    pose proof (read_digits_uint (Pos.to_uint p) false (or_introl Hn)) as Hr.
    cbn [Z.to_int NilZero.string_of_int]. unfold NilZero.string_of_uint.
    assert (Hs : (match Pos.to_uint p with
                  | Decimal.Nil => "0"
                  | _ => NilEmpty.string_of_uint (Pos.to_uint p)
                  end) = NilEmpty.string_of_uint (Pos.to_uint p)).
    { destruct (Pos.to_uint p); congruence. }
    rewrite Hs. unfold parseInt10. cbn [trimStart].
    change (isStrWhiteSpaceChar "-") with false. cbv iota.
    rewrite Hr. unfold Z.of_uint. rewrite Hv. reflexivity.
Qed.

Lemma startsWith_app (s p : string) :
  startsWith s p = true -> exists rest, s = (p ++ rest)%string.
Proof.
  revert s. induction p as [|b p IH]; intros s H.
  - exists s. reflexivity.
  - destruct s as [|a s]; [discriminate|]. simpl in H.
    apply andb_true_iff in H. destruct H as [Hab Hs].
    apply Ascii.eqb_eq in Hab. subst b.
    destruct (IH s Hs) as [rest ->]. exists rest. reflexivity.
Qed.

(** No HTTP date begins like a number. *)
Lemma parseInt10_day_name (s : string) :
  begins_with_day_name s = true -> parseInt10 s = None.
Proof.
  unfold begins_with_day_name, http_day_names. cbn [existsb].
  rewrite !orb_true_iff. intros H.
  repeat (destruct H as [H | H]); try discriminate;
    apply startsWith_app in H; destruct H as [rest ->]; reflexivity.
Qed.

Lemma ceil_div_spec (n : Z) :
  1000 * (ceil_div n 1000 - 1) < n <= 1000 * ceil_div n 1000.
Proof.
  unfold ceil_div.
  pose proof (Z.div_mod (- n) 1000 ltac:(lia)).
  pose proof (Z.mod_pos_bound (- n) 1000 ltac:(lia)). lia.
Qed.

Section RetryAfter.
Variable h : Host.
Variable now : Z.

Lemma parseRetryAfter_seconds (n : Z) :
  parseRetryAfter h now (Some (String_of_Z n)) = Some n.
Proof.
  unfold parseRetryAfter.
  assert (Hne : (String_of_Z n =? "") = false).
  { pose proof (parseInt10_String_of_Z n) as H.
    destruct (String_of_Z n); [discriminate | reflexivity]. }
  rewrite Hne, parseInt10_String_of_Z. reflexivity.
Qed.

(** Digits only: the integer the Standard Library reads in them. *)
Lemma parseRetryAfter_digits (s : string) (d : Decimal.uint) :
  NilZero.uint_of_string s = Some d ->
  parseRetryAfter h now (Some s) = Some (Z.of_uint d).
Proof.
  intros H.
  assert (Hd : d <> Decimal.Nil).
  { intros ->. exact (NilZero.uint_of_string_nonnil s H). }
  assert (Hs : NilEmpty.string_of_uint d = s).
  { destruct s; [discriminate H | apply NilEmpty.sus; exact H]. }
  unfold parseRetryAfter. rewrite <- Hs at 2. rewrite (parseInt10_uint d Hd).
  destruct s; [discriminate H | reflexivity].
Qed.

Lemma parseRetryAfter_leading_integer (s : string) (n : Z) :
  parseInt10 s = Some n -> parseRetryAfter h now (Some s) = Some n.
Proof.
  intros H. unfold parseRetryAfter. rewrite H.
  destruct s; [discriminate | reflexivity].
Qed.

Lemma parseRetryAfter_date (s : string) (t : Z) :
  begins_with_day_name s = true ->
  Date_parse h s = Some t ->
  now < t ->
  parseRetryAfter h now (Some s) = Some (ceil_div (t - now) 1000).
Proof.
  intros Hday Hdate Hfuture. unfold parseRetryAfter.
  rewrite (parseInt10_day_name s Hday), Hdate.
  assert (Hne : (s =? "") = false) by (destruct s; [discriminate | reflexivity]).
  rewrite Hne.
  destruct (Z.ltb_spec 0 (t - now)); [reflexivity | lia].
Qed.

Lemma parseRetryAfter_absent (s : string) :
  parseInt10 s = None -> Date_parse h s = None ->
  parseRetryAfter h now (Some s) = None.
Proof.
  intros Hint Hdate. unfold parseRetryAfter. rewrite Hint, Hdate.
  destruct (s =? ""); reflexivity.
Qed.

End RetryAfter.

(** C5, as amended.  [parseRetryAfter] returns the integer when the value is
    the decimal notation of an integer number of seconds; for an HTTP date in
    the future it returns the whole number of seconds until that date,
    rounded up; it returns absent for a missing or empty value and for every
    value in which [parseInt] finds no leading integer and which [Date] cannot
    parse; a value with a leading integer yields that integer whatever
    follows it. *)
Theorem parseRetryAfter_reads_seconds_and_dates (h : Host) (now : Z) :
  (forall s d, NilZero.uint_of_string s = Some d ->
     parseRetryAfter h now (Some s) = Some (Z.of_uint d)) /\
  (forall n, parseRetryAfter h now (Some (String_of_Z n)) = Some n) /\
  (forall s t, begins_with_day_name s = true -> Date_parse h s = Some t -> now < t ->
     exists k, parseRetryAfter h now (Some s) = Some k /\
               1000 * (k - 1) < t - now <= 1000 * k) /\
  (forall s, parseInt10 s = None -> Date_parse h s = None ->
     parseRetryAfter h now (Some s) = None) /\
  parseRetryAfter h now None = None /\
  parseRetryAfter h now (Some "") = None /\
  (forall s n, parseInt10 s = Some n -> parseRetryAfter h now (Some s) = Some n).
Proof.
  repeat split.
  - apply parseRetryAfter_digits.
  - apply parseRetryAfter_seconds.
  - intros s t Hday Hdate Hfuture. exists (ceil_div (t - now) 1000).
    split; [apply parseRetryAfter_date; assumption | apply ceil_div_spec].
  - apply parseRetryAfter_absent.
  - apply parseRetryAfter_leading_integer.
Qed.

Lemma parseRetryAfter_reads_seconds_and_dates_witness :
  parseRetryAfter Sample.host 1445412470500 (Some "120") = Some 120 /\
  (exists k, parseRetryAfter Sample.host 1445412470500
               (Some "Wed, 21 Oct 2015 07:28:00 GMT") = Some k /\
             1000 * (k - 1) < 1445412480000 - 1445412470500 <= 1000 * k) /\
  parseRetryAfter Sample.host 1445412470500 (Some "soon") = None.
Proof.
  destruct (parseRetryAfter_reads_seconds_and_dates Sample.host 1445412470500)
    as (_ & H1 & H2 & H3 & _).
  split; [exact (H1 120) |]. split.
  - apply H2; reflexivity.
  - apply H3; reflexivity.
Defined.

(** C5 as stated fails: a value that is neither an integer number of seconds
    nor an HTTP date is not always treated as absent. *)
Lemma parseRetryAfter_keeps_leading_integer : ~ invalid_values_are_absent.
Proof.
  intros H.
  specialize (H Sample.host 0 "5 apples" eq_refl eq_refl).
  discriminate H.
Qed.

End BackoffProps.

(** ** Configuration validator *)

Module ConfigProps.

(** C7, as amended.  With [http://localhost:5000] configured, resolution in
    production throws a configuration error, a plain [Error] and not an
    [ApiError]; in any other mode it returns the configured value and emits
    no warning: the world, console included, is left as it was. *)
Theorem localhost_base_url (h : Host) (env : ProcessEnv) (u : URL) (w : World) :
  NEXT_PUBLIC_API_URL env = Some "http://localhost:5000" ->
  URL_parse h "http://localhost:5000" = Some u ->
  url_protocol u = "http:" ->
  (isProduction env = true ->
   exists t, getApiBaseUrl h env w = (Throw t, w) /\
             is_plain_Error t = true /\ is_ApiError t = false) /\
  (isProduction env = false ->
   getApiBaseUrl h env w = (Return "http://localhost:5000", w)).
Proof.
  intros Hcfg Hparse Hproto. unfold getApiBaseUrl. rewrite Hcfg.
  cbn [String.eqb Ascii.eqb Bool.eqb]. unfold try_catch. rewrite Hparse, Hproto.
  split; intros Hprod; rewrite Hprod.
  - cbn. eexists. split; [reflexivity|]. split; reflexivity.
  - cbn. reflexivity.
Qed.

Lemma localhost_base_url_witness :
  (exists t, getApiBaseUrl Sample.host Sample.production_localhost Sample.world0
             = (Throw t, Sample.world0) /\
             is_plain_Error t = true /\ is_ApiError t = false) /\
  getApiBaseUrl Sample.host Sample.development Sample.world0
    = (Return "http://localhost:5000", Sample.world0).
Proof.
  split.
  - apply (localhost_base_url Sample.host Sample.production_localhost
             (mkURL "http:" "localhost" "http://localhost:5000/" [] "") Sample.world0);
      reflexivity.
  - apply (localhost_base_url Sample.host Sample.development
             (mkURL "http:" "localhost" "http://localhost:5000/" [] "") Sample.world0);
      reflexivity.
Defined.

(** C7 as stated fails: in non-production mode the configured value resolves
    and no warning is emitted. *)
Lemma localhost_development_is_silent :
  getApiBaseUrl Sample.host Sample.development Sample.world0
    = (Return "http://localhost:5000", Sample.world0) /\
  warnings (trace (snd (getApiBaseUrl Sample.host Sample.development Sample.world0))) = [].
Proof. split; reflexivity. Qed.

(** The warning belongs to the unconfigured fallback. *)
Lemma unconfigured_development_warns (h : Host) (w : World) :
  exists msg,
    getApiBaseUrl h (mkEnv None (Some "development")) w
      = (Return "http://localhost:5000", record_event (ConsoleWarn msg) w).
Proof. eexists. reflexivity. Qed.

End ConfigProps.

(** ** Request pipeline *)

Module ClientProps.
Import Backoff Client.

Lemma network_calls_app (a b : list Event) :
  network_calls (a ++ b) = (network_calls a + network_calls b)%nat.
Proof. unfold network_calls. rewrite filter_app, length_app. reflexivity. Qed.

Lemma network_calls_quiet (evs : list Event) :
  Forall (fun e => ~ is_NetworkCall e) evs -> network_calls evs = 0%nat.
Proof.
  induction 1 as [|e evs He _ IH]; [reflexivity|].
  change (e :: evs) with ([e] ++ evs). rewrite network_calls_app, IH.
  destruct e; simpl in *; try reflexivity. tauto.
Qed.

Section Emits.
Variable P : Event -> Prop.

Lemma emits_ret {A} (a : A) : emits P (ret a).
Proof. intros w r w1 H. inversion H; subst. exists []. rewrite app_nil_r. auto. Qed.

Lemma emits_throw {A} (t : Thrown) : emits P (@throw A t).
Proof. intros w r w1 H. inversion H; subst. exists []. rewrite app_nil_r. auto. Qed.

Lemma emits_await {A} (p : Settled A) : emits P (await p).
Proof. destruct p; [apply emits_ret | apply emits_throw]. Qed.

Lemma emits_emit (e : Event) : P e -> emits P (emit e).
Proof. intros He w r w1 H. inversion H; subst. exists [e]. simpl. auto. Qed.

Lemma emits_bind {A B} (c : M A) (k : A -> M B) :
  emits P c -> (forall a, emits P (k a)) -> emits P (bind c k).
Proof.
  intros Hc Hk w r w1 H. unfold bind in H.
  destruct (c w) as [[a | t] w'] eqn:E.
  - destruct (Hc _ _ _ E) as (e1 & H1 & F1).
    destruct (Hk a _ _ _ H) as (e2 & H2 & F2).
    exists (e1 ++ e2)%list. split.
    + rewrite H2, H1. now rewrite app_assoc.
    + apply Forall_app; auto.
  - inversion H; subst. exact (Hc _ _ _ E).
Qed.

Lemma emits_try_catch {A} (c : M A) (k : Thrown -> M A) :
  emits P c -> (forall t, emits P (k t)) -> emits P (try_catch c k).
Proof.
  intros Hc Hk w r w1 H. unfold try_catch in H.
  destruct (c w) as [[a | t] w'] eqn:E.
  - inversion H; subst. exact (Hc _ _ _ E).
  - destruct (Hc _ _ _ E) as (e1 & H1 & F1).
    destruct (Hk t _ _ _ H) as (e2 & H2 & F2).
    exists (e1 ++ e2)%list. split.
    + rewrite H2, H1. now rewrite app_assoc.
    + apply Forall_app; auto.
Qed.

End Emits.

Lemma emits_weaken (P Q : Event -> Prop) {A} (c : M A) :
  (forall e, P e -> Q e) -> emits P c -> emits Q c.
Proof.
  intros HPQ Hc w r w1 H. destruct (Hc _ _ _ H) as (evs & E & F).
  exists evs. split; [exact E|]. eapply Forall_impl; eauto.
Qed.

Ltac emits_step :=
  first
    [ apply emits_ret
    | apply emits_throw
    | apply emits_await
    | apply emits_emit; simpl; tauto
    | apply emits_bind; [| intros ]
    | apply emits_try_catch; [| intros ]
    | match goal with
      | |- emits _ (if ?b then _ else _) => destruct b
      | |- emits _ (match ?x with _ => _ end) => destruct x
      end ].

Section Pipeline.
Variable h : Host.
Variable env : ProcessEnv.
Variable net : nat -> Attempt.

Lemma getCsrfToken_emits (doc : Document) : emits (fun _ => False) (getCsrfToken h doc).
Proof. unfold getCsrfToken. repeat emits_step. Qed.

Lemma buildHeaders_emits (a : Attempt) config method :
  emits (fun e => ~ is_NetworkCall e) (buildHeaders h env a config method).
Proof.
  unfold buildHeaders, getAccessToken, console_warn.
  repeat first [ emits_step
               | eapply emits_weaken; [| apply getCsrfToken_emits]; simpl; tauto ].
Qed.

Lemma emits_network_calls {A} (c : M A) w r w1 :
  emits (fun e => ~ is_NetworkCall e) c -> c w = (r, w1) ->
  network_calls (trace w1) = network_calls (trace w).
Proof.
  intros Hc H. destruct (Hc _ _ _ H) as (evs & -> & F).
  rewrite network_calls_app, (network_calls_quiet _ F). lia.
Qed.

Lemma set_cachedApiBaseUrl_emits v : emits (fun _ => False) (set_cachedApiBaseUrl v).
Proof. intros w r w1 H. inversion H; subst. exists []. simpl. rewrite app_nil_r. auto. Qed.

Lemma set_baseUrl_emits v : emits (fun _ => False) (set_baseUrl v).
Proof. intros w r w1 H. inversion H; subst. exists []. simpl. rewrite app_nil_r. auto. Qed.

Lemma getApiBaseUrl_emits : emits is_warning (getApiBaseUrl h env).
Proof.
  unfold getApiBaseUrl, console_warn. repeat emits_step.
Qed.

Lemma getApiBaseUrlLazy_emits : emits is_warning (getApiBaseUrlLazy h env).
Proof.
  intros w r w1. unfold getApiBaseUrlLazy.
  destruct (cachedApiBaseUrl w).
  - apply (emits_ret is_warning).
  - revert w r w1.
    change (emits is_warning
              (u <- getApiBaseUrl h env ;; set_cachedApiBaseUrl (Some u) ;;; ret u)).
    repeat first [ apply getApiBaseUrl_emits
                 | eapply emits_weaken; [| apply set_cachedApiBaseUrl_emits]; simpl; tauto
                 | emits_step ].
Qed.

Lemma getBaseUrl_emits : emits is_warning (getBaseUrl h env).
Proof.
  intros w r w1. unfold getBaseUrl.
  destruct (baseUrl (this w)).
  - apply (emits_ret is_warning).
  - revert w r w1.
    change (emits is_warning
              (u <- getApiBaseUrlLazy h env ;; set_baseUrl (Some u) ;;; ret u)).
    repeat first [ apply getApiBaseUrlLazy_emits
                 | eapply emits_weaken; [| apply set_baseUrl_emits]; simpl; tauto
                 | emits_step ].
Qed.

Lemma buildUrl_emits endpoint params : emits is_warning (buildUrl h env endpoint params).
Proof.
  unfold buildUrl, new_URL.
  repeat first [ apply getBaseUrl_emits | emits_step ].
Qed.

Lemma buildUrl_network endpoint params w r w1 :
  buildUrl h env endpoint params w = (r, w1) ->
  network_calls (trace w1) = network_calls (trace w).
Proof.
  apply emits_network_calls. eapply emits_weaken; [| apply buildUrl_emits].
  intros [] ; simpl; tauto.
Qed.

Lemma fold_append_params (ps : list (string * ParamValue)) : forall u,
  fold_left (fun u kv => searchParams_append (fst kv) (String_of (snd kv)) u) ps u
  = with_params ps u.
Proof.
  induction ps as [|kv ps IH]; intros u.
  - destruct u. unfold with_params. cbn. now rewrite app_nil_r.
  - cbn [fold_left]. rewrite IH. unfold with_params, searchParams_append. cbn.
    now rewrite <- app_assoc.
Qed.

Lemma buildUrl_from target params w :
  (url <- new_URL h target ;;
   let url :=
     match params with
     | Some ps =>
         fold_left (fun u kv => searchParams_append (fst kv) (String_of (snd kv)) u) ps url
     | None => url
     end in
   ret (URL_toString h url)) w = (url_from h target params, w).
Proof.
  unfold bind, new_URL, url_from.
  destruct (URL_parse h target) as [u|]; [| reflexivity].
  cbn [ret]. destruct params as [ps|].
  - rewrite fold_append_params. reflexivity.
  - unfold ret. repeat f_equal. destruct u. unfold with_params. cbn. now rewrite app_nil_r.
Qed.

Section Request.
Variables (method endpoint : string) (config : option ApiRequestConfig)
          (body : option JsVal).

Lemma request_attempt_429 url timeout M attempt lastError w r :
  headers_built h env net method config attempt ->
  att_fetch (net attempt) = Resolved r -> status r = 429 ->
  exists w1,
    network_calls (trace w1) = S (network_calls (trace w)) /\
    request_attempt h env net method endpoint url config body timeout M attempt lastError w =
      if (attempt <? M)%nat
      then (Return (Continue (Some (RATE_LIMITED (hint_of h net attempt r) endpoint method))), w1)
      else (Throw (ThrowApiError (RATE_LIMITED (hint_of h net attempt r) endpoint method)), w1).
Proof.
  intros Hb Hf Hs. destruct (Hb w) as (hs & w0 & Hh).
  pose proof (emits_network_calls _ _ _ _ (buildHeaders_emits _ _ _) Hh) as Hn.
  unfold request_attempt, bind, try_catch. rewrite Hh.
  unfold emit at 1. rewrite Hf. cbn [await ret].
  apply Z.eqb_eq in Hs. rewrite Hs.
  unfold console_warn, emit, hint_of.
  destruct (attempt <? M)%nat eqn:E; cbn -[rate_limit_warning calculateBackoffDelay]; rewrite ?E; unfold throw, ret.
  - eexists. split; [| reflexivity].
    unfold record_event; cbn [trace]. rewrite !network_calls_app. cbn. lia.
  - eexists. split; [| reflexivity].
    unfold record_event; cbn [trace]. rewrite !network_calls_app. cbn. lia.
Qed.

Lemma request_loop_all_429 url timeout M :
  forall k attempt lastError w,
    (attempt + k = M)%nat ->
    (forall i, (attempt <= i <= M)%nat -> headers_built h env net method config i /\ answered_429 net i) ->
    exists r_last w',
      att_fetch (net M) = Resolved r_last /\
      request_loop h env net method endpoint url config body timeout M (S k) attempt lastError w =
        (Throw (ThrowApiError (RATE_LIMITED (hint_of h net M r_last) endpoint method)), w') /\
      network_calls (trace w') = (network_calls (trace w) + S k)%nat.
Proof.
  induction k as [|k IH]; intros attempt lastError w Hk Hall.
  - assert (attempt = M) by lia. subst attempt.
    destruct (Hall M ltac:(lia)) as (Hb & r & Hf & Hs).
    destruct (request_attempt_429 url timeout M M lastError w r Hb Hf Hs) as (w1 & Hn & Ha).
    rewrite Nat.ltb_irrefl in Ha.
    exists r, w1. split; [exact Hf|]. split; [| lia].
    cbn [request_loop]. unfold bind. rewrite Ha. reflexivity.
  - destruct (Hall attempt ltac:(lia)) as (Hb & r & Hf & Hs).
    destruct (request_attempt_429 url timeout M attempt lastError w r Hb Hf Hs) as (w1 & Hn & Ha).
    assert (E : (attempt <? M)%nat = true) by (apply Nat.ltb_lt; lia).
    rewrite E in Ha.
    destruct (IH (S attempt) (Some (RATE_LIMITED (hint_of h net attempt r) endpoint method)) w1
                ltac:(lia)) as (r_last & w' & Hlast & Hloop & Hcount).
    { intros i Hi. apply Hall. lia. }
    exists r_last, w'. split; [exact Hlast|]. split; [| lia].
    cbn [request_loop]. unfold bind at 1. rewrite Ha. exact Hloop.
Qed.

(** Passes answered 429 while retries are left: the loop moves on, one
    network call per pass. *)
Lemma request_loop_throttled_prefix url timeout M :
  forall k remaining attempt lastError w,
    (attempt + k <= M)%nat ->
    (forall i, (attempt <= i < attempt + k)%nat ->
       headers_built h env net method config i /\ answered_429 net i) ->
    exists lastError' w',
      request_loop h env net method endpoint url config body timeout M (k + remaining)
        attempt lastError w
      = request_loop h env net method endpoint url config body timeout M remaining
          (attempt + k) lastError' w' /\
      network_calls (trace w') = (network_calls (trace w) + k)%nat.
Proof.
  induction k as [|k IH]; intros remaining attempt lastError w Hk Hall.
  - exists lastError, w. rewrite !Nat.add_0_r. split; reflexivity.
  - destruct (Hall attempt ltac:(lia)) as (Hb & r & Hf & Hs).
    destruct (request_attempt_429 url timeout M attempt lastError w r Hb Hf Hs)
      as (w1 & Hn & Ha).
    assert (E : (attempt <? M)%nat = true) by (apply Nat.ltb_lt; lia).
    rewrite E in Ha.
    destruct (IH remaining (S attempt)
                (Some (RATE_LIMITED (hint_of h net attempt r) endpoint method)) w1
                ltac:(lia)) as (le & w' & Hloop & Hcount).
    { intros i Hi. apply Hall. lia. }
    exists le, w'. split; [| lia].
    cbn [Nat.add request_loop]. unfold bind at 1. rewrite Ha.
    rewrite Hloop. f_equal. lia.
Qed.

Lemma maxRetries_of_cases : maxRetries_of config = if skips_retry config then 0%nat else 3%nat.
Proof.
  unfold maxRetries_of, skips_retry.
  destruct config as [c|]; [destruct (skipRateLimitRetry c) as [[|]|]|]; reflexivity.
Qed.

Lemma request_unfold w url w0 :
  buildUrl h env endpoint (params_of config) w = (Return url, w0) ->
  exists timeout,
    request h env net method endpoint config body w =
    request_loop h env net method endpoint url config body timeout
      (maxRetries_of config) (S (maxRetries_of config)) 0 None w0.
Proof.
  intros Hu. unfold request, bind. fold (params_of config). rewrite Hu.
  eexists. reflexivity.
Qed.

(** C3.  When every pass is answered 429, the request makes one network call
    per pass, [maxRetries + 1] in all (4 by default, 1 when the caller sets
    [skipRateLimitRetry]), then rejects with the ApiError RATE_LIMITED,
    statusCode 429, whose [details.retryAfterSeconds] is the parsed
    Retry-After hint of the last response; the trace ends there. *)
Theorem rate_limit_exhaustion w url w0 :
  buildUrl h env endpoint (params_of config) w = (Return url, w0) ->
  (forall i, (i <= maxRetries_of config)%nat -> headers_built h env net method config i /\ answered_429 net i) ->
  exists r_last e w',
    att_fetch (net (maxRetries_of config)) = Resolved r_last /\
    request h env net method endpoint config body w = (Throw (ThrowApiError e), w') /\
    code e = JStr "RATE_LIMITED" /\
    statusCode e = Some 429 /\
    get_prop (details e) "retryAfterSeconds"
      = match hint_of h net (maxRetries_of config) r_last with
        | Some n => JNum (inject_Z n)
        | None => JUndefined
        end /\
    network_calls (trace w') =
      (network_calls (trace w) + (if skips_retry config then 1 else 4))%nat.
Proof.
  intros Hu Hall.
  destruct (request_unfold w url w0 Hu) as (timeout & ->).
  destruct (request_loop_all_429 url timeout (maxRetries_of config)
              (maxRetries_of config) 0%nat None w0 eq_refl) as (r & w' & Hr & Hloop & Hn).
  { intros i Hi. apply Hall. lia. }
  exists r, (RATE_LIMITED (hint_of h net (maxRetries_of config) r) endpoint method), w'.
  repeat split; try assumption; try reflexivity.
  rewrite Hn, (buildUrl_network _ _ _ _ _ Hu), maxRetries_of_cases.
  destruct (skips_retry config); lia.
Qed.

(** *** CSRF *)

Lemma getCsrfToken_none doc w :
  no_csrf_token doc = true ->
  exists o, getCsrfToken h doc w = (Return o, w) /\
            (match o with Some t => t | None => "" end =? "") = true.
Proof.
  unfold no_csrf_token, getCsrfToken. intros H.
  apply andb_true_iff in H. destruct H as [Hmeta Hcookie].
  destruct (meta_csrf_token doc) as [[content|]|].
  - exists (Some content). split; [reflexivity | exact Hmeta].
  - exists None. split; reflexivity.
  - destruct (match_XSRF_TOKEN (cookie doc)); [discriminate|].
    exists None. split; reflexivity.
Qed.

Lemma filter_replace_first n m v hs :
  (toLowerCase m =? toLowerCase n) = false ->
  filter (name_is n) (replace_first m v hs) = filter (name_is n) hs.
Proof.
  intros Hnm.
  assert (Hout : forall l, filter (name_is n) (filter (fun x => negb (name_is m x)) l)
                           = filter (name_is n) l).
  { induction l as [|[k x] l IH]; [reflexivity|].
    cbn [filter]. unfold name_is at 2. cbn [fst].
    destruct (k =? toLowerCase m) eqn:Em; cbn [negb filter].
    - apply String.eqb_eq in Em. subst k.
      unfold name_is at 3. cbn [fst]. rewrite Hnm. exact IH.
    - destruct (name_is n (k, x)); [f_equal|]; exact IH. }
  induction hs as [|[k x] hs IH]; [reflexivity|].
  cbn [replace_first]. unfold name_is at 2. cbn [fst].
  destruct (k =? toLowerCase m) eqn:Em.
  - apply String.eqb_eq in Em. subst k. cbn [filter].
    unfold name_is at 1. cbn [fst]. rewrite Hnm.
    replace (name_is n (toLowerCase m, x)) with false
      by (unfold name_is; cbn [fst]; now rewrite Hnm).
    apply Hout.
  - cbn [filter]. destruct (name_is n (k, x)); [f_equal|]; exact IH.
Qed.

Lemma Headers_get_set_other n m v hs :
  (toLowerCase m =? toLowerCase n) = false ->
  Headers_get n (Headers_set m v hs) = Headers_get n hs.
Proof.
  intros Hnm. unfold Headers_get, Headers_set.
  destruct (existsb (name_is m) hs).
  - rewrite filter_replace_first by exact Hnm. reflexivity.
  - unfold Headers_append. rewrite filter_app. simpl.
    unfold name_is at 2. cbn [fst]. rewrite Hnm. rewrite app_nil_r. reflexivity.
Qed.

Lemma buildHeaders_csrf_production a w :
  state_changing method = true ->
  no_csrf_token (att_document a) = true ->
  isProduction env = true ->
  exists w1, buildHeaders h env a config (Some method) w
             = (Throw (ThrowApiError CSRF_TOKEN_MISSING), w1).
Proof.
  intros Hm Hdoc Hprod.
  assert (Hne : negb (method =? "") = true).
  { destruct method; [discriminate | reflexivity]. }
  unfold buildHeaders. unfold bind at 1.
  match goal with |- context [(if ?b then ?x else ?y) w] => destruct ((if b then x else y) w) as [[hs | t] w1] eqn:E end.
  - rewrite Hne, Hm. cbn [andb]. unfold bind.
    destruct (getCsrfToken_none (att_document a) w1 Hdoc) as (o & -> & Ho).
    rewrite Ho, Hprod. cbn. eexists. reflexivity.
  - exfalso. revert E.
    destruct (match config with Some c => match withAuth c with Some false => false | _ => true end | None => true end).
    + unfold try_catch, bind, getAccessToken, emit, await.
      destruct (att_token a); cbn; discriminate.
    + discriminate.
Qed.

Lemma auth_headers_emits a (hs0 : Headers) (b : bool) :
  emits (fun e => ~ is_NetworkCall e)
    (if b then
       try_catch
         (token <- getAccessToken a ;;
          ret (Headers_set "Authorization" ("Bearer " ++ token)%string hs0))
         (fun error => console_warn "Failed to get access token:" ;;; ret hs0)
     else ret hs0).
Proof. unfold getAccessToken, console_warn. repeat emits_step. Qed.

Lemma auth_headers_csrf a (hs0 : Headers) (b : bool) w r w1 :
  (if b then
     try_catch
       (token <- getAccessToken a ;;
        ret (Headers_set "Authorization" ("Bearer " ++ token)%string hs0))
       (fun error => console_warn "Failed to get access token:" ;;; ret hs0)
   else ret hs0) w = (r, w1) ->
  exists hs, r = Return hs /\
    Headers_get "X-CSRF-Token" hs = Headers_get "X-CSRF-Token" hs0.
Proof.
  destruct b.
  - unfold try_catch, bind, getAccessToken, emit, await, console_warn, ret, throw.
    destruct (att_token a) as [token | e]; intros H; inversion H; subst; clear H.
    + eexists. split; [reflexivity|]. apply Headers_get_set_other. reflexivity.
    + eexists. split; reflexivity.
  - intros H. inversion H; subst. eexists. split; reflexivity.
Qed.

Lemma buildHeaders_csrf_development a w :
  state_changing method = true ->
  no_csrf_token (att_document a) = true ->
  isProduction env = false ->
  exists hs w1 pre,
    buildHeaders h env a config (Some method) w = (Return hs, w1) /\
    trace w1 = trace w ++ pre /\
    network_calls pre = 0%nat /\
    In (ConsoleWarn (csrf_missing_warning method)) pre /\
    Headers_get "X-CSRF-Token" hs = Headers_get "X-CSRF-Token" (initial_headers config).
Proof.
  intros Hm Hdoc Hprod.
  assert (Hne : negb (method =? "") = true).
  { destruct method; [discriminate | reflexivity]. }
  unfold buildHeaders. unfold bind at 1.
  match goal with
  | |- context [(if ?b then ?x else ?y) w] =>
      destruct ((if b then x else y) w) as [r w1] eqn:E;
      pose proof (auth_headers_emits a (initial_headers config) b _ _ _ E) as (pre & Hpre & Fpre);
      destruct (auth_headers_csrf a (initial_headers config) b _ _ _ E) as (hs & -> & Hget)
  end.
  rewrite Hne, Hm. cbn [andb]. unfold bind.
  destruct (getCsrfToken_none (att_document a) w1 Hdoc) as (o & -> & Ho).
  rewrite Ho, Hprod. cbn [negb]. unfold console_warn, emit, ret.
  exists hs, (record_event (ConsoleWarn (csrf_missing_warning method)) w1),
         (pre ++ [ConsoleWarn (csrf_missing_warning method)]).
  split; [reflexivity|]. split; [| split; [| split]].
  - unfold record_event. cbn [trace]. rewrite Hpre. now rewrite app_assoc.
  - rewrite network_calls_app, (network_calls_quiet _ Fpre). reflexivity.
  - apply in_or_app. right. left. reflexivity.
  - exact Hget.
Qed.

Lemma handleResponse_emits r : emits (fun _ => True) (handleResponse r).
Proof. unfold handleResponse. repeat emits_step. Qed.

Lemma anything (P : Event -> Prop) {A} (c : M A) : emits P c -> emits (fun _ => True) c.
Proof. apply emits_weaken. auto. Qed.

Lemma request_attempt_emits url timeout M attempt lastError :
  emits (fun _ => True)
    (request_attempt h env net method endpoint url config body timeout M attempt lastError).
Proof.
  unfold request_attempt, console_warn.
  repeat first [ apply handleResponse_emits
               | apply (anything _ _ (buildHeaders_emits _ _ _))
               | emits_step ].
Qed.

Lemma request_loop_emits url timeout M k : forall attempt lastError,
  emits (fun _ => True)
    (request_loop h env net method endpoint url config body timeout M k attempt lastError).
Proof.
  induction k as [|k IH]; intros attempt lastError; cbn [request_loop].
  - apply emits_throw.
  - apply emits_bind; [apply request_attempt_emits|].
    intros [data | le]; [apply emits_ret | apply IH].
Qed.

(** Once the headers of a pass are built, the pass opens with its network call. *)
Lemma request_attempt_calls url timeout M attempt lastError w hs w1 :
  buildHeaders h env (net attempt) config (Some method) w = (Return hs, w1) ->
  exists r w2 post,
    request_attempt h env net method endpoint url config body timeout M attempt lastError w
      = (r, w2) /\
    trace w2 = trace w1 ++ NetworkCall (call_of method body url timeout hs) :: post.
Proof.
  intros Hh. unfold request_attempt. unfold bind at 1. rewrite Hh.
  match goal with
  | |- context [try_catch (emit ?e ;;; ?k) ?handler w1] =>
      assert (Hk : emits (fun _ => True) (try_catch k handler));
      [ unfold console_warn;
        repeat first [apply handleResponse_emits | emits_step] |];
      destruct (try_catch k handler (record_event e w1)) as [r w2] eqn:E;
      destruct (Hk _ _ _ E) as (post & Hpost & _);
      exists r, w2, post; split;
      [ revert E; unfold try_catch, bind, emit; intros E; exact E |]
  end.
  rewrite Hpost. unfold record_event. cbn [trace]. now rewrite <- app_assoc.
Qed.

Lemma warnings_quiet (evs : list Event) :
  Forall is_warning evs -> network_calls evs = 0%nat.
Proof.
  intros F. apply network_calls_quiet. eapply Forall_impl; [| exact F].
  intros []; simpl; tauto.
Qed.

Lemma request_loop_extends url timeout M k attempt lastError w r1 w2 :
  request_attempt h env net method endpoint url config body timeout M attempt lastError w
    = (r1, w2) ->
  exists r' w' post,
    request_loop h env net method endpoint url config body timeout M (S k) attempt lastError w
      = (r', w') /\
    trace w' = trace w2 ++ post.
Proof.
  intros Ha. cbn [request_loop]. unfold bind at 1. rewrite Ha.
  destruct r1 as [[data | le] | t].
  - exists (Return data), w2, []. split; [reflexivity | now rewrite app_nil_r].
  - destruct (request_loop h env net method endpoint url config body timeout M k
                (S attempt) le w2) as [r' w'] eqn:E.
    destruct (request_loop_emits _ _ _ _ _ _ _ _ _ E) as (post & Hpost & _).
    exists r', w', post. split; [reflexivity | exact Hpost].
  - exists (Throw t), w2, []. split; [reflexivity | now rewrite app_nil_r].
Qed.

(** C6.  A state-changing request issued when neither the meta tag nor the
    cookie yields an anti-forgery token: in production it rejects with the
    ApiError CSRF_TOKEN_MISSING, statusCode 403, and the trace gains no
    network call; in any other mode the CSRF warning is logged and the
    network call is made, and its X-CSRF-Token header is whatever the caller
    put in [config.headers] (none, unless the caller supplied one). *)
Theorem csrf_enforcement w url w0 :
  state_changing method = true ->
  no_csrf_token (att_document (net 0)) = true ->
  buildUrl h env endpoint (params_of config) w = (Return url, w0) ->
  (isProduction env = true ->
   exists e w',
     request h env net method endpoint config body w = (Throw (ThrowApiError e), w') /\
     code e = JStr "CSRF_TOKEN_MISSING" /\
     statusCode e = Some 403 /\
     network_calls (trace w') = network_calls (trace w)) /\
  (isProduction env = false ->
   exists r w' pre c post,
     request h env net method endpoint config body w = (r, w') /\
     trace w' = trace w ++ pre ++ NetworkCall c :: post /\
     network_calls pre = 0%nat /\
     In (ConsoleWarn (csrf_missing_warning method)) pre /\
     fc_method c = method /\
     Headers_get "X-CSRF-Token" (fc_headers c)
       = Headers_get "X-CSRF-Token" (initial_headers config)).
Proof.
  intros Hm Hdoc Hu.
  destruct (request_unfold w url w0 Hu) as (timeout & Hreq).
  destruct (buildUrl_emits _ _ _ _ _ Hu) as (pre0 & Hpre0 & Fpre0).
  split; intros Hprod.
  - destruct (buildHeaders_csrf_production (net 0%nat) w0 Hm Hdoc Hprod) as (w1 & Hh).
    exists CSRF_TOKEN_MISSING, w1. rewrite Hreq.
    split; [| split; [reflexivity | split; [reflexivity |]]].
    + cbn [request_loop]. unfold bind at 1. unfold request_attempt. unfold bind at 1.
      rewrite Hh. reflexivity.
    + rewrite (emits_network_calls _ _ _ _ (buildHeaders_emits _ _ _) Hh).
      apply (buildUrl_network _ _ _ _ _ Hu).
  - destruct (buildHeaders_csrf_development (net 0%nat) w0 Hm Hdoc Hprod)
      as (hs & w1 & pre & Hh & Hpre & Npre & Ipre & Hget).
    destruct (request_attempt_calls url timeout (maxRetries_of config) 0%nat None w0 hs w1 Hh)
      as (r1 & w2 & post & Ha & Hpost).
    destruct (request_loop_extends url timeout (maxRetries_of config) (maxRetries_of config)
                0%nat None w0 r1 w2 Ha) as (r' & w' & post2 & Hloop & Hpost2).
    rewrite Hreq.
    exists r', w', (pre0 ++ pre), (call_of method body url timeout hs), (post ++ post2).
    split; [exact Hloop|]. split; [| split; [| split; [| split; [reflexivity | exact Hget]]]].
    + rewrite Hpost2, Hpost, Hpre, Hpre0.
      rewrite <- !app_assoc. cbn [app]. reflexivity.
    + rewrite network_calls_app, Npre, (warnings_quiet _ Fpre0). reflexivity.
    + apply in_or_app. right. exact Ipre.
Qed.

(** *** Thrown values *)







(** A response other than 429 that [handleResponse] rejects ends the pass by
    throwing its ApiError, unless that error carries the code RATE_LIMITED
    while retries are left: then the loop goes on, without a sleep. *)
Lemma request_attempt_http_error url timeout M attempt lastError w r e :
  headers_built h env net method config attempt ->
  att_fetch (net attempt) = Resolved r -> status r <> 429 ->
  (forall w0, handleResponse r w0 = (Throw (ThrowApiError e), w0)) ->
  exists w1,
    request_attempt h env net method endpoint url config body timeout M attempt lastError w
      = (if strict_eq_str (code e) "RATE_LIMITED" && (attempt <? M)%nat
         then Return (Continue lastError)
         else Throw (ThrowApiError e), w1) /\
    network_calls (trace w1) = S (network_calls (trace w)).
Proof.
  intros Hb Hf Hs Hr. destruct (Hb w) as (hs & w0 & Hh).
  destruct (buildHeaders_emits _ _ _ _ _ _ Hh) as (pre & Hpre & Fpre).
  unfold request_attempt, bind, try_catch. rewrite Hh.
  unfold emit at 1. rewrite Hf. cbn [await ret].
  apply Z.eqb_neq in Hs. rewrite Hs. rewrite Hr.
  cbn [is_AbortError has_code_RATE_LIMITED].
  exists (record_event
            (NetworkCall (call_of method body url timeout hs)) w0).
  split.
  - destruct (strict_eq_str (code e) "RATE_LIMITED" && (attempt <? M)%nat); reflexivity.
  - unfold record_event. cbn [trace]. rewrite Hpre, !network_calls_app.
    rewrite (network_calls_quiet _ Fpre). cbn. lia.
Qed.


(** After [k] throttled passes, a failure status other than 429 ends the
    request with the ApiError of [handleResponse], provided that error does
    not carry the code RATE_LIMITED while retries are left. *)
Lemma request_http_error_after w url w0 k r e :
  buildUrl h env endpoint (params_of config) w = (Return url, w0) ->
  (k <= maxRetries_of config)%nat ->
  (forall i, (i < k)%nat -> headers_built h env net method config i /\ answered_429 net i) ->
  headers_built h env net method config k ->
  att_fetch (net k) = Resolved r -> status r <> 429 ->
  (forall w1, handleResponse r w1 = (Throw (ThrowApiError e), w1)) ->
  strict_eq_str (code e) "RATE_LIMITED" && (k <? maxRetries_of config)%nat = false ->
  exists w',
    request h env net method endpoint config body w = (Throw (ThrowApiError e), w') /\
    network_calls (trace w') = (network_calls (trace w) + S k)%nat.
Proof.
  intros Hu Hk Hpre Hb Hf Hs Hr Hcode.
  destruct (request_unfold w url w0 Hu) as (timeout & Hreq).
  destruct (request_loop_throttled_prefix url timeout (maxRetries_of config) k
              (S (maxRetries_of config - k)) 0%nat None w0 ltac:(lia))
    as (le & w1 & Hloop & Hn1).
  { intros i Hi. apply Hpre. lia. }
  destruct (request_attempt_http_error url timeout (maxRetries_of config) k le w1 r e
              Hb Hf Hs Hr) as (w2 & Ha & Hn2).
  rewrite Hcode in Ha.
  exists w2. rewrite Hreq. split.
  - replace (S (maxRetries_of config)) with (k + S (maxRetries_of config - k))%nat by lia.
    rewrite Hloop. cbn [Nat.add request_loop]. unfold bind at 1. rewrite Ha. reflexivity.
  - rewrite Hn2, Hn1, (buildUrl_network _ _ _ _ _ Hu). lia.
Qed.

(** C10.  An endpoint that starts with [http] is itself the string handed to
    [new URL]: the result does not depend on the environment, and the world
    (the client's [baseUrl], the module cache, the console) is left untouched,
    so base-URL resolution and its validation do not run.  Any other endpoint
    is appended to the resolved base URL: the one the client holds; failing
    that the one the module has cached, which the client then keeps; failing
    that the one [getApiBaseUrl] returns for the environment (the configured
    URL, validated in production), which the module caches and the client
    keeps.  A failed resolution is the failure of [buildUrl].  In both cases
    each query parameter is appended to the query through [String]. *)
Theorem buildUrl_absolute_or_relative (params : option (list (string * ParamValue)))
    (w : World) :
  (startsWith endpoint "http" = true ->
   buildUrl h env endpoint params w = (url_from h endpoint params, w)) /\
  (startsWith endpoint "http" = false ->
   (forall b w1, getBaseUrl h env w = (Return b, w1) ->
      buildUrl h env endpoint params w = (url_from h (b ++ endpoint)%string params, w1)) /\
   (forall t w1, getBaseUrl h env w = (Throw t, w1) ->
      buildUrl h env endpoint params w = (Throw t, w1)) /\
   match baseUrl (this w), cachedApiBaseUrl w with
   | Some b, _ =>
       buildUrl h env endpoint params w = (url_from h (b ++ endpoint)%string params, w)
   | None, Some b =>
       buildUrl h env endpoint params w
       = (url_from h (b ++ endpoint)%string params, keeping b w)
   | None, None =>
       match getApiBaseUrl h env w with
       | (Return b, w0) =>
           buildUrl h env endpoint params w
           = (url_from h (b ++ endpoint)%string params, keeping b (caching b w0))
       | (Throw t, w0) => buildUrl h env endpoint params w = (Throw t, w0)
       end
   end /\
   (forall u parsed,
      baseUrl (this w) = None -> cachedApiBaseUrl w = None ->
      NEXT_PUBLIC_API_URL env = Some u -> u <> ""%string -> URL_parse h u = Some parsed ->
      (isProduction env = true ->
       url_protocol parsed = "https:"%string /\
       ClientNotions.local_or_private (url_hostname parsed) = false) ->
      buildUrl h env endpoint params w
      = (url_from h (u ++ endpoint)%string params, keeping u (caching u w)))).
Proof.
  assert (Hresolve :
    startsWith endpoint "http" = false ->
    forall r w1, getBaseUrl h env w = (r, w1) ->
      buildUrl h env endpoint params w
      = match r with
        | Return b => (url_from h (b ++ endpoint)%string params, w1)
        | Throw t => (Throw t, w1)
        end).
  { intros Hs r w1 Hb. unfold buildUrl. rewrite Hs.
    unfold bind at 1. unfold bind at 1. rewrite Hb.
    destruct r as [b | t]; [| reflexivity]. cbn [ret]. apply buildUrl_from. }
  split; intros Hs.
  - unfold buildUrl. rewrite Hs. unfold bind at 1. cbn [ret]. apply buildUrl_from.
  - split; [| split; [| split]].
    + intros b w1 Hb. exact (Hresolve Hs _ _ Hb).
    + intros t w1 Hb. exact (Hresolve Hs _ _ Hb).
    + destruct (baseUrl (this w)) as [b|] eqn:Eb.
      * apply (Hresolve Hs (Return b) w). unfold getBaseUrl. now rewrite Eb.
      * destruct (cachedApiBaseUrl w) as [b|] eqn:Ec.
        -- apply (Hresolve Hs (Return b) (keeping b w)).
           unfold getBaseUrl, getApiBaseUrlLazy. rewrite Eb. unfold bind at 1. now rewrite Ec.
        -- destruct (getApiBaseUrl h env w) as [[b | t] w0] eqn:Eg.
           ++ apply (Hresolve Hs (Return b) (keeping b (caching b w0))).
              unfold getBaseUrl, getApiBaseUrlLazy. rewrite Eb. unfold bind at 1.
              rewrite Ec. unfold bind at 1. rewrite Eg. reflexivity.
           ++ apply (Hresolve Hs (Throw t) w0).
              unfold getBaseUrl, getApiBaseUrlLazy. rewrite Eb. unfold bind at 1.
              rewrite Ec. unfold bind at 1. rewrite Eg. reflexivity.
    + intros u parsed Eb Ec Hu Hne Hp Hprod.
      apply (Hresolve Hs (Return u) (keeping u (caching u w))).
      assert (Eg : getApiBaseUrl h env w = (Return u, w)).
      { unfold getApiBaseUrl. rewrite Hu. apply String.eqb_neq in Hne. rewrite Hne.
        unfold try_catch. rewrite Hp.
        destruct (isProduction env); cbn [andb]; [| reflexivity].
        destruct (Hprod eq_refl) as [Hhttps Hlocal]. rewrite Hhttps.
        unfold ClientNotions.local_or_private in Hlocal. cbv zeta in Hlocal.
        cbn [String.eqb Ascii.eqb Bool.eqb negb].
        rewrite Hlocal. reflexivity. }
      unfold getBaseUrl, getApiBaseUrlLazy. rewrite Eb. unfold bind at 1.
      rewrite Ec. unfold bind at 1. rewrite Eg. reflexivity.
Qed.

End Request.
End Pipeline.

(** *** Concrete runs *)


Lemma rate_limit_exhaustion_witness :
  exists e w',
    request Sample.host Sample.development Sample.always_throttled "GET" "/patients" None None
      Sample.world0 = (Throw (ThrowApiError e), w') /\
    code e = JStr "RATE_LIMITED" /\
    get_prop (details e) "retryAfterSeconds" = JNum 2 /\
    network_calls (trace w') = 4%nat.
Proof.
  destruct (rate_limit_exhaustion Sample.host Sample.development Sample.always_throttled
              "GET" "/patients" None None Sample.world0
              "http://localhost:5000/patients"
              (snd (buildUrl Sample.host Sample.development "/patients" None Sample.world0))
              eq_refl)
    as (r & e & w' & Hr & Hreq & Hcode & _ & Hhint & Hcalls).
  - intros i _. split.
    + intros w. eexists. eexists. reflexivity.
    + eexists. split; reflexivity.
  - exists e, w'. inversion Hr. subst r. repeat split; assumption.
Defined.

Lemma csrf_enforcement_witness :
  (exists e w',
     request Sample.host Sample.production Sample.tokenless_page "POST" "/patients" None
       (Some Sample.patient) Sample.world0 = (Throw (ThrowApiError e), w') /\
     code e = JStr "CSRF_TOKEN_MISSING" /\ statusCode e = Some 403 /\
     network_calls (trace w') = 0%nat) /\
  (exists r w' pre c post,
     request Sample.host Sample.development Sample.tokenless_page "POST" "/patients" None
       (Some Sample.patient) Sample.world0 = (r, w') /\
     trace w' = pre ++ NetworkCall c :: post /\
     network_calls pre = 0%nat /\
     Headers_get "X-CSRF-Token" (fc_headers c) = None).
Proof.
  split.
  - destruct (csrf_enforcement Sample.host Sample.production Sample.tokenless_page
                "POST" "/patients" None (Some Sample.patient) Sample.world0
                "https://api.example.com/patients"
                (snd (buildUrl Sample.host Sample.production "/patients" None Sample.world0))
                eq_refl eq_refl eq_refl) as [Hprod _].
    exact (Hprod eq_refl).
  - destruct (csrf_enforcement Sample.host Sample.development Sample.tokenless_page
                "POST" "/patients" None (Some Sample.patient) Sample.world0
                "http://localhost:5000/patients"
                (snd (buildUrl Sample.host Sample.development "/patients" None Sample.world0))
                eq_refl eq_refl eq_refl) as [_ Hdev].
    destruct (Hdev eq_refl) as (r & w' & pre & c & post & H1 & H2 & H3 & _ & _ & H6).
    exists r, w', pre, c, post. repeat split; assumption.
Defined.

Lemma buildUrl_absolute_or_relative_witness :
  buildUrl Sample.host Sample.production_localhost "https://fhir.example.org/Patient"
    (Some [("page", PNumber 2); ("active", PBoolean true)]) Sample.world0
    = (Return "https://fhir.example.org/Patient?page=2&active=true", Sample.world0) /\
  buildUrl Sample.host Sample.development "/patients"
    (Some [("q", PString "ada")]) Sample.world0
    = (Return "http://localhost:5000/patients?q=ada",
       keeping "http://localhost:5000" (caching "http://localhost:5000" Sample.world0)).
Proof.
  split.
  - apply (proj1 (buildUrl_absolute_or_relative Sample.host Sample.production_localhost
                    "https://fhir.example.org/Patient"
                    (Some [("page", PNumber 2); ("active", PBoolean true)]) Sample.world0)).
    reflexivity.
  - destruct (proj2 (buildUrl_absolute_or_relative Sample.host Sample.development
                       "/patients" (Some [("q", PString "ada")]) Sample.world0) eq_refl)
      as (_ & _ & _ & H).
    apply (H "http://localhost:5000"%string
             (mkURL "http:" "localhost" "http://localhost:5000/" [] ""));
      try reflexivity; discriminate.
Defined.

(** C9, the failing input.  A 503 whose JSON body carries
    [code: RATE_LIMITED] is thrown by [handleResponse] as an ApiError with
    that code; the [catch] of [request] takes it for its own rate-limit error
    and continues the loop: a second network call follows at once, with no
    sleep between the two, although no response was a 429. *)
Theorem relabelled_503_is_retried :
  (forall i r, att_fetch (Sample.unavailable_then_fine i) = Resolved r -> status r <> 429) /\
  fst (request Sample.host Sample.development Sample.unavailable_then_fine
         "GET" "/patients/42" None None Sample.world0) = Return Sample.patient /\
  network_calls
    (trace (snd (request Sample.host Sample.development Sample.unavailable_then_fine
                   "GET" "/patients/42" None None Sample.world0))) = 2%nat /\
  (forall ms,
     ~ In (Slept ms)
          (trace (snd (request Sample.host Sample.development Sample.unavailable_then_fine
                         "GET" "/patients/42" None None Sample.world0)))).
Proof.
  split; [| split; [| split]].
  - intros [|i] r H; inversion H; subst r; discriminate.
  - reflexivity.
  - reflexivity.
  - vm_compute. intros ms [H | [H | [H | [H | []]]]]; discriminate H.
Qed.

End ClientProps.

(** ** Credential lifecycle manager *)

Module AuthProps.
Import Auth.

Lemma run_invariant (P : State -> Prop) :
  (forall st a, P st -> P (step st a)) ->
  forall acts st, P st -> P (run acts st).
Proof.
  intros Hstep. induction acts as [|a acts IH]; intros st H; cbn.
  - exact H.
  - apply IH. apply Hstep. exact H.
Qed.

(** *** The renewal timer *)

Lemma clearTimeout_owned (t : Timer) : clearTimeout (timer_id t) [t] = [].
Proof. unfold clearTimeout. cbn. rewrite Nat.eqb_refl. reflexivity. Qed.

Lemma scheduleTokenRefresh_cases (T : option JsDate) (now : Z) (st : State) :
  timers_owned st ->
  let st' := scheduleTokenRefresh T now st in
  match T with
  | Some (Some t) =>
      if (0 <? t - TOKEN_REFRESH_BUFFER_MS - now)%Z then
        timers st' = [mkTimer (next_timer st) now (t - TOKEN_REFRESH_BUFFER_MS - now)] /\
        tokenRefreshTimeout st' = Some (next_timer st) /\
        next_timer st' = S (next_timer st)
      else timers st' = [] /\ tokenRefreshTimeout st' = None /\ next_timer st' = next_timer st
  | _ => timers st' = [] /\ tokenRefreshTimeout st' = None /\ next_timer st' = next_timer st
  end.
Proof.
  intros Hown. unfold scheduleTokenRefresh.
  assert (Hclear :
    let st0 := match tokenRefreshTimeout st with
               | Some id => with_timers st None (clearTimeout id (timers st)) (next_timer st)
               | None => st
               end in
    timers st0 = [] /\ tokenRefreshTimeout st0 = None /\ next_timer st0 = next_timer st).
  { destruct Hown as [Hnil | (t & Ht & Hid & _)].
    - destruct (tokenRefreshTimeout st) eqn:E; cbn; rewrite ?Hnil; auto.
    - rewrite Hid. cbn. rewrite Ht, clearTimeout_owned. auto. }
  cbv zeta in Hclear. destruct Hclear as (Hts & Hh & Hn).
  cbv zeta.
  destruct T as [[t|]|]; [| repeat split; assumption | repeat split; assumption].
  destruct (0 <? t - TOKEN_REFRESH_BUFFER_MS - now)%Z; [| repeat split; assumption].
  cbn. rewrite Hts, Hn. repeat split; reflexivity.
Qed.

Lemma scheduleTokenRefresh_owned T now st :
  timers_owned st -> timers_owned (scheduleTokenRefresh T now st).
Proof.
  intros Hown. pose proof (scheduleTokenRefresh_cases T now st Hown) as H.
  cbv zeta in H. unfold timers_owned.
  destruct T as [[t|]|]; [destruct (0 <? _)%Z |..];
    destruct H as (H1 & H2 & H3); rewrite H1, H2, H3; auto.
  right. eexists. split; [reflexivity|]. split; [reflexivity|]. cbn. lia.
Qed.

(** Fields the scheduler leaves alone. *)
Lemma scheduleTokenRefresh_frame T now st :
  let st' := scheduleTokenRefresh T now st in
  isRefreshing st' = isRefreshing st /\
  tokenRefreshPromise st' = tokenRefreshPromise st /\
  msalInstance st' = msalInstance st /\
  settled st' = settled st /\
  next_promise st' = next_promise st /\
  operations st' = operations st /\
  renewal_waiters st' = renewal_waiters st /\
  log st' = log st.
Proof.
  unfold scheduleTokenRefresh.
  destruct (tokenRefreshTimeout st); destruct T as [[t|]|];
    try destruct (0 <? _)%Z; cbn; repeat split; reflexivity.
Qed.

Lemma getAccessToken_timers requested st :
  same_timers st (snd (getAccessToken requested st)).
Proof.
  unfold getAccessToken, same_timers.
  destruct (isRefreshing st), (tokenRefreshPromise st), (msalInstance st) as [m|];
    try destruct (getCurrentAccount m); cbn; repeat split; reflexivity.
Qed.

Lemma timers_owned_ext st st' :
  same_timers st st' -> timers_owned st -> timers_owned st'.
Proof. unfold timers_owned, same_timers. intros (-> & -> & ->). auto. Qed.

Lemma finish_timers p r st : same_timers st (finish p r st).
Proof. repeat split; reflexivity. Qed.

Lemma step_timers_owned st a : timers_owned st -> timers_owned (step st a).
Proof.
  intros Hown. destruct a as [requested | p r now | p r now | id | m]; cbn [step].
  - eapply timers_owned_ext; [apply getAccessToken_timers | exact Hown].
  - unfold silent_settles.
    destruct (find_operation p st) as [[[|] request]|]; try exact Hown.
    destruct r as [response | error].
    + eapply timers_owned_ext; [apply finish_timers |].
      apply scheduleTokenRefresh_owned. exact Hown.
    + eapply timers_owned_ext; [| exact Hown]. repeat split; reflexivity.
  - unfold popup_settles.
    destruct (find_operation p st) as [[[|] request]|]; try exact Hown.
    destruct r as [response | error].
    + eapply timers_owned_ext; [apply finish_timers |].
      apply scheduleTokenRefresh_owned. exact Hown.
    + eapply timers_owned_ext; [| exact Hown]. repeat split; reflexivity.
  - unfold timer_fires.
    destruct (existsb _ (timers st)) eqn:E; [| exact Hown].
    set (st0 := with_timers st (tokenRefreshTimeout st) (clearTimeout id (timers st)) (next_timer st)).
    assert (H0 : timers_owned st0).
    { unfold timers_owned, st0. cbn.
      destruct Hown as [Hnil | (t & Ht & Hid & _)].
      - rewrite Hnil. left. reflexivity.
      - rewrite Ht in *. cbn in E. rewrite orb_false_r in E.
        unfold clearTimeout. cbn. rewrite E. cbn. left. reflexivity. }
    pose proof (getAccessToken_timers None st0) as H1.
    destruct (getAccessToken None st0) as [[q | e] st1]; cbn [snd] in *;
      (eapply timers_owned_ext; [| exact H0]);
      destruct H1 as (? & ? & ?); repeat split; cbn; assumption.
  - eapply timers_owned_ext; [| exact Hown]. repeat split; reflexivity.
Qed.

Lemma reachable_timers_owned st : reachable st -> timers_owned st.
Proof.
  intros [acts <-]. apply (run_invariant timers_owned step_timers_owned).
  left. reflexivity.
Qed.

(** C8.  After [scheduleTokenRefresh] with expiry [T], in any reachable
    state: at most one renewal timer is pending; when [T] is present and
    [T - 5 min] is strictly in the future, the pending timer is a new one (the
    previous one, if any, was cancelled) and fires at [T - 5 min]; when
    [T - 5 min] is not in the future, or [T] is absent or no valid date, no
    timer is pending. *)
Theorem renewal_timer (st : State) (T : option JsDate) (now : Z) :
  reachable st ->
  let st' := scheduleTokenRefresh T now st in
  (length (timers st') <= 1)%nat /\
  (forall t, T = Some (Some t) -> now < t - 5 * 60 * 1000 ->
     exists tm, timers st' = [tm] /\ fires_at tm = t - 5 * 60 * 1000 /\
                tokenRefreshTimeout st' = Some (timer_id tm) /\
                ~ In tm (timers st)) /\
  ((forall t, T = Some (Some t) -> t - 5 * 60 * 1000 <= now) ->
     timers st' = [] /\ tokenRefreshTimeout st' = None).
Proof.
  intros Hreach. pose proof (reachable_timers_owned st Hreach) as Hown.
  pose proof (scheduleTokenRefresh_cases T now st Hown) as H. cbv zeta in *.
  unfold TOKEN_REFRESH_BUFFER_MS in H.
  split; [| split].
  - destruct T as [[t|]|]; [destruct (0 <? _)%Z |..];
      destruct H as (-> & _); cbn; lia.
  - intros t -> Hlt.
    destruct (Z.ltb_spec 0 (t - 5 * 60 * 1000 - now)); [| lia].
    destruct H as (H1 & H2 & _). eexists. split; [exact H1|].
    split; [unfold fires_at; cbn; lia|]. split; [exact H2|].
    destruct Hown as [Hnil | (t0 & Ht0 & _ & Hfresh)].
    + rewrite Hnil. intros [].
    + rewrite Ht0. intros [Heq | []]. subst t0. cbn in Hfresh. lia.
  - intros Hpast. destruct T as [[t|]|]; [| destruct H as (? & ? & _); auto ..].
    specialize (Hpast t eq_refl).
    destruct (Z.ltb_spec 0 (t - 5 * 60 * 1000 - now)); [lia|].
    destruct H as (? & ? & _); auto.
Qed.

Lemma reachable_run (acts : list Action) (st : State) :
  reachable st -> reachable (run acts st).
Proof.
  intros [pre <-]. exists (pre ++ acts). unfold run. apply fold_left_app.
Qed.

Lemma renewal_timer_witness :
  timers Sample.holding_token = [mkTimer 1 1000 3699000] /\
  exists tm, timers (scheduleTokenRefresh (Some (Some 9000000)) 5000 Sample.holding_token) = [tm] /\
             fires_at tm = 9000000 - 5 * 60 * 1000 /\
             timer_id tm <> 1%nat.
Proof.
  split; [reflexivity|].
  destruct (renewal_timer Sample.holding_token (Some (Some 9000000)) 5000) as (_ & H & _).
  - unfold Sample.holding_token. apply reachable_run.
    unfold Sample.signed_in. eexists. reflexivity.
  - destruct (H 9000000 eq_refl) as (tm & H1 & H2 & _ & H4); [lia|].
    exists tm. split; [exact H1|]. split; [exact H2|].
    intros Hid. apply H4. left. destruct tm as [id at_ d].
    cbn in Hid. subst id. vm_compute in H1. inversion H1.
Defined.

(** *** Single flight *)

Lemma promise_state_fresh p st :
  fresh_promises st -> (next_promise st <= p)%nat -> promise_state p st = None.
Proof.
  unfold fresh_promises, promise_state. intros Hf Hp.
  destruct (find _ (settled st)) as [[q r]|] eqn:E; [| reflexivity].
  apply find_some in E. destruct E as [Hin Heq]. cbn in Heq.
  apply Nat.eqb_eq in Heq. subst q. specialize (Hf _ _ Hin). lia.
Qed.

Lemma getAccessToken_joins requested p st :
  in_progress p st -> getAccessToken requested st = (Follows p, st).
Proof.
  intros (Hr & Hp & _). unfold getAccessToken. rewrite Hr, Hp. reflexivity.
Qed.

Lemma getAccessToken_starts requested st m acc :
  isRefreshing st = false ->
  msalInstance st = Some m -> getCurrentAccount m = Some acc ->
  exists st1,
    getAccessToken requested st = (Follows (next_promise st), st1) /\
    isRefreshing st1 = true /\
    tokenRefreshPromise st1 = Some (next_promise st) /\
    operations st1 = operations st ++ [(next_promise st, AwaitingSilent, request_for m acc requested)] /\
    log st1 = log st ++ [acquireTokenSilent (request_for m acc requested)] /\
    settled st1 = settled st /\
    next_promise st1 = S (next_promise st) /\
    msalInstance st1 = msalInstance st.
Proof.
  intros Hr Hm Ha. unfold getAccessToken. rewrite Hr, Hm, Ha.
  eexists. split; [reflexivity|]. cbn. repeat split; reflexivity.
Qed.

Lemma getAccessToken_throws requested st :
  isRefreshing st = false ->
  (msalInstance st = None \/ exists m, msalInstance st = Some m /\ getCurrentAccount m = None) ->
  exists e, getAccessToken requested st = (Threw e, st).
Proof.
  intros Hr H. unfold getAccessToken. rewrite Hr.
  destruct H as [-> | (m & -> & ->)]; eexists; reflexivity.
Qed.

Lemma getAccessToken_single_flight requested st :
  single_flight st -> single_flight (snd (getAccessToken requested st)).
Proof.
  intros [Hf [Hidle | (p & Hp)]].
  - destruct Hidle as (Hr & Hh & Ho).
    destruct (msalInstance st) as [m|] eqn:Hm.
    + destruct (getCurrentAccount m) as [acc|] eqn:Ha.
      * destruct (getAccessToken_starts requested st m acc Hr Hm Ha)
          as (st1 & -> & H1 & H2 & H3 & H4 & H5 & H6 & H7).
        cbn [snd]. split.
        -- unfold fresh_promises. rewrite H5, H6. intros q r Hin.
           specialize (Hf _ _ Hin). lia.
        -- right. exists (next_promise st). unfold in_progress.
           rewrite H1, H2, H3, H6, Ho. repeat split; try reflexivity.
           ++ eexists _, _. reflexivity.
           ++ lia.
           ++ unfold promise_state. rewrite H5.
              apply (promise_state_fresh _ st Hf). lia.
      * destruct (getAccessToken_throws requested st Hr) as (e & ->).
        { right. eauto. }
        split; [exact Hf | left; repeat split; assumption].
    + destruct (getAccessToken_throws requested st Hr) as (e & ->); [auto|].
      split; [exact Hf | left; repeat split; assumption].
  - rewrite (getAccessToken_joins requested p st Hp). split; [exact Hf | right; eauto].
Qed.

Lemma promise_state_settled p result st :
  promise_state p st = None ->
  find (fun e => Nat.eqb (fst e) p) (settled st ++ [(p, result)]) = Some (p, result).
Proof.
  unfold promise_state. intros H.
  induction (settled st) as [|[q r] l IH]; cbn in *.
  - rewrite Nat.eqb_refl. reflexivity.
  - destruct (Nat.eqb q p); [discriminate | exact (IH H)].
Qed.

Lemma finish_settles p result st stage request :
  operations st = [(p, stage, request)] ->
  promise_state p st = None ->
  let st' := finish p result st in
  idle st' /\ promise_state p st' = Some result /\
  next_promise st' = next_promise st /\
  settled st' = settled st ++ [(p, result)] /\
  msalInstance st' = msalInstance st.
Proof.
  intros Ho Hp. cbv zeta. unfold idle, finish, drop_operation. cbn.
  rewrite Ho. cbn. rewrite Nat.eqb_refl. cbn.
  repeat split; try reflexivity.
  unfold promise_state. cbn. rewrite (promise_state_settled p result st Hp). reflexivity.
Qed.

Lemma find_operation_one p stage request st :
  operations st = [(p, stage, request)] ->
  forall q, find_operation q st = if Nat.eqb p q then Some (stage, request) else None.
Proof.
  intros Ho q. unfold find_operation. rewrite Ho. cbn.
  destruct (Nat.eqb p q); reflexivity.
Qed.

Lemma find_operation_idle st q : operations st = [] -> find_operation q st = None.
Proof. intros Ho. unfold find_operation. rewrite Ho. reflexivity. Qed.

Lemma fresh_after_finish p result st :
  fresh_promises st -> (p < next_promise st)%nat ->
  forall st', next_promise st' = next_promise st ->
              settled st' = settled st ++ [(p, result)] ->
              fresh_promises st'.
Proof.
  intros Hf Hp st' Hn Hs. unfold fresh_promises. rewrite Hn, Hs.
  intros q r Hin. apply in_app_or in Hin. destruct Hin as [Hin | [Heq | []]].
  - eapply Hf; eauto.
  - inversion Heq; subst. exact Hp.
Qed.

Lemma scheduleTokenRefresh_in_progress p T now st :
  in_progress p st -> in_progress p (scheduleTokenRefresh T now st).
Proof.
  destruct (scheduleTokenRefresh_frame T now st) as (F1 & F2 & F3 & F4 & F5 & F6 & F7 & F8).
  unfold in_progress, promise_state. rewrite F1, F2, F4, F5, F6. auto.
Qed.

Lemma scheduleTokenRefresh_fresh T now st :
  fresh_promises st -> fresh_promises (scheduleTokenRefresh T now st).
Proof.
  destruct (scheduleTokenRefresh_frame T now st) as (F1 & F2 & F3 & F4 & F5 & F6 & F7 & F8).
  unfold fresh_promises. rewrite F4, F5. auto.
Qed.

(** The [finally] block ends the operation in progress. *)
Lemma finish_single_flight p result st :
  fresh_promises st -> in_progress p st -> single_flight (finish p result st).
Proof.
  intros Hf (Hr & Hh & (stage & request & Ho) & Hlt & Hps).
  destruct (finish_settles p result st stage request Ho Hps) as (Hidle & _ & Hn & Hs & _).
  split; [| left; exact Hidle].
  eapply fresh_after_finish; eauto.
Qed.

Lemma silent_settles_single_flight p r now st :
  single_flight st -> single_flight (silent_settles p r now st).
Proof.
  intros [Hf [Hidle | (q & Hq)]]; unfold silent_settles.
  - destruct Hidle as (? & ? & Ho). rewrite (find_operation_idle st p Ho).
    split; [exact Hf | left; repeat split; assumption].
  - pose proof Hq as (Hr & Hh & (stage & request & Ho) & Hlt & Hps).
    rewrite (find_operation_one q stage request st Ho p).
    destruct (Nat.eqb_spec q p) as [-> | Hne]; [| split; [exact Hf | right; eauto]].
    destruct stage; [| split; [exact Hf | right; eauto]].
    destruct r as [response | error].
    + apply finish_single_flight;
        [apply scheduleTokenRefresh_fresh | apply scheduleTokenRefresh_in_progress]; assumption.
    + split; [exact Hf |]. right. exists p. unfold in_progress. cbn.
      rewrite Ho. cbn. rewrite Nat.eqb_refl.
      repeat split; try assumption. eexists _, _. reflexivity.
Qed.

Lemma popup_settles_single_flight p r now st :
  single_flight st -> single_flight (popup_settles p r now st).
Proof.
  intros [Hf [Hidle | (q & Hq)]]; unfold popup_settles.
  - destruct Hidle as (? & ? & Ho). rewrite (find_operation_idle st p Ho).
    split; [exact Hf | left; repeat split; assumption].
  - pose proof Hq as (Hr & Hh & (stage & request & Ho) & Hlt & Hps).
    rewrite (find_operation_one q stage request st Ho p).
    destruct (Nat.eqb_spec q p) as [-> | Hne]; [| split; [exact Hf | right; eauto]].
    destruct stage; [split; [exact Hf | right; eauto] |].
    destruct r as [response | error].
    + apply finish_single_flight;
        [apply scheduleTokenRefresh_fresh | apply scheduleTokenRefresh_in_progress]; assumption.
    + apply finish_single_flight.
      * exact Hf.
      * unfold in_progress. cbn. repeat split; try assumption. eexists _, _. exact Ho.
Qed.

Lemma single_flight_ext st st' :
  isRefreshing st' = isRefreshing st ->
  tokenRefreshPromise st' = tokenRefreshPromise st ->
  operations st' = operations st ->
  settled st' = settled st ->
  next_promise st' = next_promise st ->
  single_flight st -> single_flight st'.
Proof.
  unfold single_flight, fresh_promises, idle, in_progress, promise_state.
  intros -> -> -> -> ->. auto.
Qed.

Lemma step_single_flight st a : single_flight st -> single_flight (step st a).
Proof.
  intros H. destruct a as [requested | p r now | p r now | id | m]; cbn [step].
  - apply getAccessToken_single_flight. exact H.
  - apply silent_settles_single_flight. exact H.
  - apply popup_settles_single_flight. exact H.
  - unfold timer_fires. destruct (existsb _ (timers st)); [| exact H].
    set (st0 := with_timers st (tokenRefreshTimeout st) (clearTimeout id (timers st)) (next_timer st)).
    assert (H0 : single_flight st0) by (eapply single_flight_ext; [..| exact H]; reflexivity).
    pose proof (getAccessToken_single_flight None st0 H0) as H1.
    destruct (getAccessToken None st0) as [[q | e] st1]; cbn [snd] in H1;
      (eapply single_flight_ext; [..| exact H1]; reflexivity).
  - eapply single_flight_ext; [..| exact H]; reflexivity.
Qed.

Lemma reachable_single_flight st : reachable st -> single_flight st.
Proof.
  intros [acts <-]. apply (run_invariant single_flight step_single_flight).
  split; [intros q r [] | left; repeat split; reflexivity].
Qed.

Lemma calls_join p st : in_progress p st ->
  forall requested, calls requested st = (map (fun _ => Follows p) requested, st).
Proof.
  intros Hp. induction requested as [|r rest IH]; [reflexivity|].
  cbn [calls map]. rewrite (getAccessToken_joins r p st Hp), IH. reflexivity.
Qed.

Lemma started_app (l l' : list LogEntry) (f : LogEntry -> bool) :
  length (filter f (l ++ l')) = (length (filter f l) + length (filter f l'))%nat.
Proof. rewrite filter_app, length_app. reflexivity. Qed.

Lemma started_errors (f : LogEntry -> bool) {A} (xs : list A) msg :
  f (secureLogger_error msg) = false ->
  length (filter f (map (fun _ => secureLogger_error msg) xs)) = 0%nat.
Proof. intros Hf. induction xs; cbn; [reflexivity | rewrite Hf; exact IHxs]. Qed.

Lemma finish_started p result st :
  silent_started (finish p result st) = silent_started st /\
  popup_started (finish p result st) = popup_started st.
Proof.
  unfold silent_started, popup_started, finish. cbn [log drop_operation with_operations].
  rewrite !started_app. destruct result; cbn [length filter].
  - split; lia.
  - rewrite !started_errors by reflexivity. split; lia.
Qed.

Lemma scheduleTokenRefresh_started T now st :
  silent_started (scheduleTokenRefresh T now st) = silent_started st /\
  popup_started (scheduleTokenRefresh T now st) = popup_started st.
Proof.
  destruct (scheduleTokenRefresh_frame T now st) as (_ & _ & _ & _ & _ & _ & _ & F8).
  unfold silent_started, popup_started. rewrite F8. split; reflexivity.
Qed.

(** Settlement of the operation in progress, by case. *)
Lemma silent_resolved p response now st request :
  in_progress p st -> operations st = [(p, AwaitingSilent, request)] ->
  let st' := silent_settles p (Resolved response) now st in
  promise_state p st' = Some (Resolved (accessToken response)) /\ idle st' /\
  silent_started st' = silent_started st /\ popup_started st' = popup_started st.
Proof.
  intros Hp Ho. cbv zeta. unfold silent_settles.
  rewrite (find_operation_one p _ _ st Ho p), Nat.eqb_refl.
  pose proof (scheduleTokenRefresh_in_progress p (expiresOn response) now st Hp)
    as (_ & _ & _ & _ & Hps).
  destruct (scheduleTokenRefresh_frame (expiresOn response) now st)
    as (_ & _ & _ & _ & _ & F6 & _).
  rewrite <- F6 in Ho.
  destruct (finish_settles p (Resolved (accessToken response)) _ _ _ Ho Hps)
    as ((I1 & I2 & I3) & Hst & _).
  destruct (finish_started p (Resolved (accessToken response))
              (scheduleTokenRefresh (expiresOn response) now st)) as [S1 S2].
  destruct (scheduleTokenRefresh_started (expiresOn response) now st) as [S3 S4].
  repeat split; try assumption; congruence.
Qed.

Lemma silent_rejected p error now st request :
  in_progress p st -> operations st = [(p, AwaitingSilent, request)] ->
  let st' := silent_settles p (Rejected error) now st in
  in_progress p st' /\ operations st' = [(p, AwaitingPopup, request)] /\
  silent_started st' = silent_started st /\ popup_started st' = S (popup_started st).
Proof.
  intros (Hr & Hh & _ & Hlt & Hps) Ho. cbv zeta. unfold silent_settles.
  rewrite (find_operation_one p _ _ st Ho p), Nat.eqb_refl.
  unfold in_progress, silent_started, popup_started. cbn.
  rewrite Ho. cbn. rewrite Nat.eqb_refl.
  rewrite <- !app_assoc, !started_app. cbn.
  repeat split; try assumption; try lia. eexists _, _. reflexivity.
Qed.

Lemma popup_settled p (r : Settled AuthenticationResult) now st request :
  in_progress p st -> operations st = [(p, AwaitingPopup, request)] ->
  let st' := popup_settles p r now st in
  promise_state p st'
    = Some (match r with
            | Resolved response => Resolved (accessToken response)
            | Rejected e => Rejected e
            end) /\
  idle st' /\
  silent_started st' = silent_started st /\ popup_started st' = popup_started st.
Proof.
  intros Hp Ho. cbv zeta. unfold popup_settles.
  rewrite (find_operation_one p _ _ st Ho p), Nat.eqb_refl.
  destruct r as [response | e].
  - pose proof (scheduleTokenRefresh_in_progress p (expiresOn response) now st Hp)
      as (_ & _ & _ & _ & Hps).
    destruct (scheduleTokenRefresh_frame (expiresOn response) now st)
      as (_ & _ & _ & _ & _ & F6 & _).
    rewrite <- F6 in Ho.
    destruct (finish_settles p (Resolved (accessToken response)) _ _ _ Ho Hps)
      as ((I1 & I2 & I3) & Hst & _).
    destruct (finish_started p (Resolved (accessToken response))
                (scheduleTokenRefresh (expiresOn response) now st)) as [S1 S2].
    destruct (scheduleTokenRefresh_started (expiresOn response) now st) as [S3 S4].
    repeat split; try assumption; congruence.
  - destruct Hp as (_ & _ & _ & _ & Hps).
    set (st0 := with_log st (secureLogger_error "Interactive token acquisition failed:")).
    assert (Ho0 : operations st0 = [(p, AwaitingPopup, request)]) by exact Ho.
    assert (Hps0 : promise_state p st0 = None) by exact Hps.
    destruct (finish_settles p (Rejected e) st0 _ _ Ho0 Hps0) as ((I1 & I2 & I3) & Hst & _).
    destruct (finish_started p (Rejected e) st0) as [S1 S2].
    repeat split; try assumption.
    + rewrite S1. unfold silent_started, st0. cbn. rewrite started_app. cbn. lia.
    + rewrite S2. unfold popup_started, st0. cbn. rewrite started_app. cbn. lia.
Qed.

(** While the operation for [p] is in progress, an action that does not
    settle it leaves it as it is and starts nothing; a call joins it. *)
Lemma step_keeps p stage request st a :
  in_progress p st -> operations st = [(p, stage, request)] -> leaves_pending p a ->
  in_progress p (step st a) /\
  operations (step st a) = [(p, stage, request)] /\
  silent_started (step st a) = silent_started st /\
  popup_started (step st a) = popup_started st.
Proof.
  intros Hp Ho Ha.
  assert (Hsame : in_progress p st /\ operations st = [(p, stage, request)] /\
                  silent_started st = silent_started st /\
                  popup_started st = popup_started st)
    by (split; [exact Hp | split; [exact Ho | split; reflexivity]]).
  destruct a as [requested | q r now | q r now | id | m]; cbn [step].
  - rewrite (getAccessToken_joins requested p st Hp). exact Hsame.
  - cbn in Ha. unfold silent_settles.
    rewrite (find_operation_one p _ _ st Ho q).
    destruct (Nat.eqb_spec p q); [congruence | exact Hsame].
  - cbn in Ha. unfold popup_settles.
    rewrite (find_operation_one p _ _ st Ho q).
    destruct (Nat.eqb_spec p q); [congruence | exact Hsame].
  - unfold timer_fires.
    destruct (existsb _ (timers st)); [| exact Hsame].
    set (st0 := with_timers st (tokenRefreshTimeout st) _ (next_timer st)).
    assert (Hp0 : in_progress p st0) by exact Hp.
    rewrite (getAccessToken_joins None p st0 Hp0). exact Hsame.
  - exact Hsame.
Qed.

Lemma turns_join p stage request : forall acts st,
  in_progress p st -> operations st = [(p, stage, request)] ->
  Forall (leaves_pending p) acts ->
  turns acts st = (map (fun _ => Follows p) (requests_of acts), run acts st) /\
  in_progress p (run acts st) /\
  operations (run acts st) = [(p, stage, request)] /\
  silent_started (run acts st) = silent_started st /\
  popup_started (run acts st) = popup_started st.
Proof.
  induction acts as [|a acts IH]; intros st Hp Ho Hall.
  - split; [reflexivity | split; [exact Hp | split; [exact Ho | split; reflexivity]]].
  - inversion Hall as [|? ? Ha Hrest]; subst.
    destruct (step_keeps p stage request st a Hp Ho Ha) as (Hp' & Ho' & S1 & S2).
    destruct (IH (step st a) Hp' Ho' Hrest) as (Ht & Hp'' & Ho'' & S1' & S2').
    change (run (a :: acts) st) with (run acts (step st a)).
    split; [| split; [exact Hp'' | split; [exact Ho'' | split; congruence]]].
    destruct a as [requested | q r now | q r now | id | m];
      cbn [turns requests_of flat_map app map]; try exact Ht.
    assert (Hstep : step st (Call requested) = st)
      by (cbn [step]; now rewrite (getAccessToken_joins requested p st Hp)).
    rewrite Hstep in Ht |- *.
    rewrite (getAccessToken_joins requested p st Hp), Ht. reflexivity.
Qed.

(** Calls made in one turn are calls spread over no further turn. *)
Lemma calls_are_turns (requested : list (option (list string))) : forall st,
  turns (map Call requested) st = calls requested st.
Proof.
  induction requested as [|r rest IH]; intros st; [reflexivity|].
  cbn [map turns calls]. destruct (getAccessToken r st) as [c st1]. now rewrite IH.
Qed.

Lemma all_observe_joined p (xs : list (option (list string))) st r :
  promise_state p st = Some r ->
  all_observe (map (fun _ => Follows p) xs) st r.
Proof.
  intros Hps. unfold all_observe. apply Forall_forall. intros c Hin.
  apply in_map_iff in Hin. destruct Hin as (x & <- & _). exact Hps.
Qed.

(** C2, as amended.  In a reachable state with no refresh in progress and
    an account signed in, a first call starts exactly one silent acquisition
    and no interactive one.  Every later call, made in the same turn or in a
    later one while the operation has not settled (whatever else happens in
    between: timers firing, the account changing, other settlements), holds
    the same shared promise and starts nothing, so all observe the same
    settlement.  If the silent acquisition succeeds the promise resolves with
    its token; if it fails, exactly one interactive acquisition follows, the
    calls made while it is pending join as well, and its outcome, token or
    error, settles the promise.  In every case the flag and the shared handle
    are cleared when the operation settles. *)
Theorem single_flight_refresh (st : State)
    (first : option (list string)) (later during_popup : list Action) :
  reachable st -> isRefreshing st = false -> signed_in st ->
  let p := next_promise st in
  Forall (leaves_pending p) later -> Forall (leaves_pending p) during_popup ->
  let results := fst (turns (Call first :: later) st) in
  let st1 := snd (turns (Call first :: later) st) in
  results = map (fun _ => Follows p) (first :: requests_of later) /\
  st1 = run (Call first :: later) st /\
  silent_started st1 = S (silent_started st) /\
  popup_started st1 = popup_started st /\
  in_progress p st1 /\
  (forall response now,
     let st2 := silent_settles p (Resolved response) now st1 in
     all_observe results st2 (Resolved (accessToken response)) /\
     idle st2 /\
     silent_started st2 = S (silent_started st) /\
     popup_started st2 = popup_started st) /\
  (forall error now,
     let joined := fst (turns during_popup (silent_settles p (Rejected error) now st1)) in
     let st2 := snd (turns during_popup (silent_settles p (Rejected error) now st1)) in
     joined = map (fun _ => Follows p) (requests_of during_popup) /\
     in_progress p st2 /\
     silent_started st2 = S (silent_started st) /\
     popup_started st2 = S (popup_started st) /\
     forall (r : Settled AuthenticationResult) now',
       let st3 := popup_settles p r now' st2 in
       all_observe (results ++ joined) st3
         (match r with
          | Resolved response => Resolved (accessToken response)
          | Rejected interactiveError => Rejected interactiveError
          end) /\
       idle st3 /\
       silent_started st3 = S (silent_started st) /\
       popup_started st3 = S (popup_started st)).
Proof.
  intros Hreach Hr (m & acc & Hm & Ha). cbv zeta. intros Hlater Hduring.
  destruct (reachable_single_flight st Hreach) as [Hf [Hidle | (q & Hq)]];
    [| destruct Hq as (Hq & _); congruence].
  destruct Hidle as (_ & _ & Ho).
  destruct (getAccessToken_starts first st m acc Hr Hm Ha)
    as (st0 & Hcall & H1 & H2 & H3 & H4 & H5 & H6 & H7).
  rewrite Ho in H3. cbn [app] in H3.
  assert (Hp : in_progress (next_promise st) st0).
  { unfold in_progress. rewrite H1, H2, H3, H6. repeat split; try reflexivity.
    - eexists _, _. reflexivity.
    - lia.
    - unfold promise_state. rewrite H5. apply (promise_state_fresh _ st Hf). lia. }
  assert (S1 : silent_started st0 = S (silent_started st)).
  { unfold silent_started. rewrite H4, started_app. cbn. lia. }
  assert (S2 : popup_started st0 = popup_started st).
  { unfold popup_started. rewrite H4, started_app. cbn. lia. }
  destruct (turns_join _ _ _ later st0 Hp H3 Hlater) as (Ht & Hp1 & Ho1 & S1' & S2').
  assert (Hrun : run (Call first :: later) st = run later st0).
  { change (run (Call first :: later) st) with (run later (step st (Call first))).
    cbn [step]. now rewrite Hcall. }
  cbn [turns]. rewrite Hcall, Ht. cbn [fst snd]. rewrite Hrun.
  set (st1 := run later st0) in *.
  assert (Hobs : forall (xs : list (option (list string))) st' r,
            promise_state (next_promise st) st' = Some r ->
            all_observe (Follows (next_promise st)
                           :: map (fun _ => Follows (next_promise st)) xs) st' r).
  { intros xs st' r Hps. constructor; [exact Hps|]. apply all_observe_joined. exact Hps. }
  split; [reflexivity|]. split; [reflexivity|].
  split; [congruence|]. split; [congruence|]. split; [exact Hp1|].
  split.
  - intros response now.
    destruct (silent_resolved _ response now st1 _ Hp1 Ho1) as (A & B & C & D).
    split; [apply Hobs; exact A|]. split; [exact B|]. split; congruence.
  - intros error now.
    destruct (silent_rejected _ error now st1 _ Hp1 Ho1) as (A & B & C & D).
    destruct (turns_join _ _ _ during_popup _ A B Hduring) as (Ht2 & Hp2 & Ho2 & S1'' & S2'').
    rewrite Ht2. cbn [fst snd].
    split; [reflexivity|]. split; [exact Hp2|]. split; [congruence|]. split; [congruence|].
    intros r now'.
    destruct (popup_settled _ r now' _ _ Hp2 Ho2) as (E & F & G & I).
    split; [| split; [exact F | split; congruence]].
    unfold all_observe. apply Forall_app. split.
    + apply Hobs. exact E.
    + apply all_observe_joined. exact E.
Qed.

Lemma single_flight_refresh_witness :
  fst (turns [Call None; Call (Some ["api/write"]); MsalChanges None; TimerFires 1; Call None]
         Sample.holding_token)
    = [Follows 2%nat; Follows 2%nat; Follows 2%nat] /\
  silent_started
    (snd (turns [Call None; Call (Some ["api/write"]); MsalChanges None; TimerFires 1;
                 Call None] Sample.holding_token))
    = S (silent_started Sample.holding_token) /\
  (let st2 :=
     snd (turns [Call (Some ["api/read"])]
            (silent_settles 2
               (Rejected (mkError "InteractionRequiredAuthError" "login_required")) 20
               (snd (turns [Call None; Call (Some ["api/write"]); MsalChanges None;
                            TimerFires 1; Call None] Sample.holding_token)))) in
   idle (popup_settles 2 (Rejected (mkError "BrowserAuthError" "popup_window_error")) 30
           st2)).
Proof.
  destruct (single_flight_refresh Sample.holding_token None
              [Call (Some ["api/write"]); MsalChanges None; TimerFires 1; Call None]
              [Call (Some ["api/read"])])
    as (H1 & _ & H2 & _ & _ & _ & H6).
  - unfold Sample.holding_token. apply reachable_run.
    unfold Sample.signed_in. eexists. reflexivity.
  - reflexivity.
  - eexists. eexists. split; reflexivity.
  - repeat constructor.
  - repeat constructor.
  - split; [exact H1|]. split; [exact H2|].
    destruct (H6 (mkError "InteractionRequiredAuthError" "login_required") 20)
      as (_ & _ & _ & _ & H7).
    destruct (H7 (Rejected (mkError "BrowserAuthError" "popup_window_error")) 30)
      as (_ & Hidle & _).
    exact Hidle.
Defined.

(** C2 as stated fails: with nobody signed in, calls made while no refresh is
    in progress start no acquisition at all; each is rejected on its own. *)
Lemma signed_out_calls_start_nothing :
  reachable Sample.signed_out /\
  isRefreshing Sample.signed_out = false /\
  fst (calls [None; None; None] Sample.signed_out)
    = [Threw (mkError "Error" "No active account found");
       Threw (mkError "Error" "No active account found");
       Threw (mkError "Error" "No active account found")] /\
  silent_started (snd (calls [None; None; None] Sample.signed_out)) = 0%nat.
Proof.
  split; [eexists; reflexivity |]. repeat split; reflexivity.
Qed.

End AuthProps.

(** ** Decoded values *)

Module JsProps.

Lemma JsVal_induction (P : JsVal -> Prop) :
  P JUndefined -> P JNull -> (forall b, P (JBool b)) -> (forall q, P (JNum q)) ->
  (forall s, P (JStr s)) ->
  (forall items, Forall P items -> P (JArr items)) ->
  (forall props, Forall (fun kv => P (snd kv)) props -> P (JObj props)) ->
  forall v, P v.
Proof.
  intros Hu Hn Hb Hq Hs Ha Ho. fix IH 1.
  intros [| | b | q | s | items | props];
    [exact Hu | exact Hn | apply Hb | apply Hq | apply Hs | |].
  - apply Ha. induction items as [|x xs IHxs]; constructor; [apply IH | exact IHxs].
  - apply Ho. induction props as [|[k x] ps IHps]; constructor; [apply IH | exact IHps].
Qed.

End JsProps.

(** ** Display and validation helpers *)

Module SecurityProps.
Import Security.

(** *** Digits *)

Lemma digitsOnly_all_digits s : forallb_string is_digit (digitsOnly s) = true.
Proof.
  induction s as [|c s IH]; [reflexivity|]. cbn [digitsOnly].
  destruct (digit_value c) eqn:E; [| exact IH].
  cbn [forallb_string]. unfold is_digit at 1. rewrite E. exact IH.
Qed.

Lemma digitsOnly_of_digits s : forallb_string is_digit s = true -> digitsOnly s = s.
Proof.
  induction s as [|c s IH]; [reflexivity|]. cbn [forallb_string digitsOnly].
  unfold is_digit at 1. destruct (digit_value c); [| discriminate].
  intros H. now rewrite IH.
Qed.

Lemma digitsOnly_idempotent s : digitsOnly (digitsOnly s) = digitsOnly s.
Proof. apply digitsOnly_of_digits, digitsOnly_all_digits. Qed.

Lemma digitsOnly_app a b : digitsOnly (a ++ b)%string = (digitsOnly a ++ digitsOnly b)%string.
Proof.
  induction a as [|c a IH]; [reflexivity|]. cbn [String.append digitsOnly].
  destruct (digit_value c); cbn [String.append]; now rewrite IH.
Qed.

Lemma digitsOnly_nonempty s : digitsOnly s <> ""%string -> (s =? "")%string = false.
Proof. destruct s; [intros H; now elim H | reflexivity]. Qed.

Lemma length_app (a b : string) :
  String.length (a ++ b)%string = (String.length a + String.length b)%nat.
Proof. induction a as [|c a IH]; [reflexivity|]. cbn. now rewrite IH. Qed.

Lemma substring_all s : substring 0 (String.length s) s = s.
Proof. induction s as [|c s IH]; [reflexivity|]. cbn. now rewrite IH. Qed.

Lemma substring_skip a b n :
  substring (String.length a) n (a ++ b)%string = substring 0 n b.
Proof. induction a as [|c a IH]; [reflexivity|]. cbn. exact IH. Qed.

Lemma slice_last_app hidden shown :
  slice_last (hidden ++ shown)%string (String.length shown) = shown.
Proof.
  unfold slice_last, slice_from. rewrite length_app.
  replace (String.length hidden + String.length shown - String.length shown)%nat
    with (String.length hidden) by lia.
  rewrite substring_skip.
  replace (String.length hidden + String.length shown - String.length hidden)%nat
    with (String.length shown) by lia.
  apply substring_all.
Qed.

Ltac explode s :=
  repeat (let c := fresh "c" in destruct s as [|c s]; [discriminate|]);
  try (destruct s; [| discriminate]).

(** X1.  The mask of a nine-digit number shows its last four
    digits and nothing else: it is the same whatever the first five digits
    and whatever punctuation the number was typed with.  Any other non-empty
    input is masked entirely; an absent or empty one gives the empty string. *)
Theorem maskSSN_shows_last_four :
  (forall ssn hidden shown,
     digitsOnly ssn = (hidden ++ shown)%string ->
     String.length hidden = 5%nat -> String.length shown = 4%nat ->
     maskSSN (Some ssn) = ("XXX-XX-" ++ shown)%string /\
     getSSNLast4 (Some ssn) = shown) /\
  (forall ssn, ssn <> ""%string -> nine_digits ssn = false ->
     maskSSN (Some ssn) = "XXX-XX-XXXX"%string) /\
  maskSSN None = ""%string /\ maskSSN (Some ""%string) = ""%string.
Proof.
  split; [| split; [| split; reflexivity]].
  - intros ssn hidden shown Hd Hh Hs.
    assert (Hne : (ssn =? "")%string = false).
    { apply digitsOnly_nonempty. rewrite Hd. destruct hidden; [discriminate | discriminate]. }
    assert (H9 : (String.length (hidden ++ shown)%string =? 9)%nat = true)
      by (now rewrite length_app, Hh, Hs).
    unfold maskSSN, getSSNLast4. rewrite Hne, Hd, H9. cbn [negb].
    rewrite <- Hs, slice_last_app. split; reflexivity.
  - intros ssn Hne H9. unfold maskSSN.
    destruct (ssn =? "")%string eqn:E; [apply String.eqb_eq in E; contradiction|].
    unfold nine_digits in H9. now rewrite H9.
Qed.

Lemma maskSSN_shows_last_four_witness :
  maskSSN (Some "123-45-6789"%string) = "XXX-XX-6789"%string /\
  maskSSN (Some "987 65 6789"%string) = "XXX-XX-6789"%string /\
  maskSSN (Some "12-34"%string) = "XXX-XX-XXXX"%string.
Proof.
  destruct maskSSN_shows_last_four as (Hshow & Hhide & _).
  split; [| split].
  - apply (Hshow "123-45-6789" "12345" "6789")%string; reflexivity.
  - apply (Hshow "987 65 6789" "98765" "6789")%string; reflexivity.
  - apply Hhide; [discriminate | reflexivity].
Defined.

(** *** Formatting *)

Lemma digitsOnly_digit c s :
  is_digit c = true -> digitsOnly (String c s) = String c (digitsOnly s).
Proof. unfold is_digit. cbn [digitsOnly]. destruct (digit_value c); [reflexivity | discriminate]. Qed.

Lemma digitsOnly_skip c s :
  digit_value c = None -> digitsOnly (String c s) = digitsOnly s.
Proof. intros H. cbn [digitsOnly]. now rewrite H. Qed.

Ltac digits :=
  repeat first
    [ rewrite digitsOnly_digit by assumption
    | rewrite digitsOnly_skip by reflexivity ].

Ltac each_digit H :=
  cbn [forallb_string] in H;
  repeat (let D := fresh "D" in apply andb_prop in H; destruct H as [D H]).

Lemma isValidSSN_digits a b : digitsOnly a = digitsOnly b -> isValidSSN a = isValidSSN b.
Proof. intros H. unfold isValidSSN. now rewrite H. Qed.

Lemma maskSSN_digits a b :
  a <> ""%string -> b <> ""%string -> digitsOnly a = digitsOnly b ->
  maskSSN (Some a) = maskSSN (Some b).
Proof.
  intros Ha Hb H. unfold maskSSN. rewrite H.
  destruct a; [contradiction|]. destruct b; [contradiction|]. reflexivity.
Qed.

(** X2.  A number with nine digits, however it was typed, is
    laid out as ddd-dd-dddd.  The layout keeps the digits, so it is stable
    under formatting again and has the same validity and the same mask as
    the input; by default the masked form is shown.  A non-empty value
    without exactly nine digits is returned as it was typed, also when the
    masked form is asked for. *)
Theorem formatSSN_round_trip (ssn : string) :
  (nine_digits ssn = true ->
   let shown := formatSSN (Some ssn) (Some false) in
   String.length shown = 11%nat /\
   digitsOnly shown = digitsOnly ssn /\
   formatSSN (Some shown) (Some false) = shown /\
   isValidSSN shown = isValidSSN ssn /\
   maskSSN (Some shown) = maskSSN (Some ssn) /\
   formatSSN (Some ssn) None = maskSSN (Some ssn)) /\
  (nine_digits ssn = false ->
   forall masked, formatSSN (Some ssn) masked = ssn).
Proof.
  split.
  - unfold nine_digits. intros H9.
    assert (Hne : (ssn =? "")%string = false).
    { apply digitsOnly_nonempty. intros E. rewrite E in H9. discriminate. }
    assert (Hne' : ssn <> ""%string) by (intros ->; discriminate).
    pose proof (digitsOnly_all_digits ssn) as Hall.
    assert (Hshown : formatSSN (Some ssn) (Some false)
                     = (slice (digitsOnly ssn) 0 3 ++ "-" ++ slice (digitsOnly ssn) 3 5 ++ "-" ++
                        slice_from (digitsOnly ssn) 5)%string).
    { unfold formatSSN. now rewrite Hne, H9. }
    assert (Hdef : formatSSN (Some ssn) None = maskSSN (Some ssn)).
    { unfold formatSSN. now rewrite Hne, H9. }
    cbv zeta. rewrite Hshown. clear Hshown.
    remember (digitsOnly ssn) as d eqn:Ed.
    apply Nat.eqb_eq in H9. explode d. each_digit Hall.
    cbn [slice slice_from substring String.length Nat.sub String.append].
    assert (Hdig : digitsOnly
              (String c (String c0 (String c1 (String "-" (String c2 (String c3 (String "-"
                 (String c4 (String c5 (String c6 (String c7 "")))))))))))
            = String c (String c0 (String c1 (String c2 (String c3
                 (String c4 (String c5 (String c6 (String c7 ""))))))))).
    { digits. reflexivity. }
    split; [reflexivity|]. split; [exact Hdig|]. split; [| split; [| split]].
    + unfold formatSSN. rewrite Hdig. reflexivity.
    + apply isValidSSN_digits. now rewrite Hdig, Ed.
    + apply maskSSN_digits; [discriminate | exact Hne' | now rewrite Hdig, Ed].
    + exact Hdef.
  - unfold nine_digits. intros H9 masked. unfold formatSSN. rewrite H9.
    destruct ssn; reflexivity.
Qed.

Lemma formatSSN_round_trip_witness :
  formatSSN (Some "123 45 6789"%string) (Some false) = "123-45-6789"%string /\
  isValidSSN "123-45-6789" = isValidSSN "123 45 6789" /\
  formatSSN (Some "12345678"%string) (Some true) = "12345678"%string.
Proof.
  destruct (formatSSN_round_trip "123 45 6789") as [Hnine _].
  destruct (Hnine eq_refl) as (_ & _ & _ & Hvalid & _).
  destruct (formatSSN_round_trip "12345678") as [_ Hother].
  split; [reflexivity | split; [exact Hvalid | exact (Hother eq_refl (Some true))]].
Defined.

(** *** Validity *)

Lemma digit_is_no_prefix c d :
  digit_value c = Some d ->
  isStrWhiteSpaceChar c = false /\ c <> "-"%char /\ c <> "+"%char.
Proof.
  destruct c as [[] [] [] [] [] [] [] []]; vm_compute; intros H;
    try discriminate H; repeat split; discriminate.
Qed.

Lemma read_digits_horner s :
  forallb_string is_digit s = true ->
  forall seen acc, s <> ""%string \/ seen = true ->
    read_digits s seen acc = Some (horner acc s).
Proof.
  induction s as [|c s IH]; intros Hall seen acc Hs.
  - destruct Hs as [Hs | ->]; [now elim Hs | reflexivity].
  - cbn [forallb_string] in Hall. apply andb_prop in Hall. destruct Hall as [Hc Hall].
    unfold is_digit in Hc. cbn [read_digits horner].
    destruct (digit_value c) as [d|]; [| discriminate].
    apply IH; [exact Hall | right; reflexivity].
Qed.

(** [parseInt] of a non-empty string of digits is the number it denotes. *)
Lemma parseInt10_digits s :
  s <> ""%string -> forallb_string is_digit s = true -> parseInt10 s = Some (number s).
Proof.
  intros Hne Hall. destruct s as [|c s]; [now elim Hne|].
  pose proof Hall as Hc. cbn [forallb_string] in Hc. apply andb_prop in Hc.
  destruct Hc as [Hc _]. unfold is_digit in Hc.
  destruct (digit_value c) as [d|] eqn:Ed; [| discriminate].
  destruct (digit_is_no_prefix c d Ed) as (Hw & Hm & Hp).
  unfold parseInt10. cbn [trimStart]. rewrite Hw.
  assert (Hsign : (match String c s with
                   | String "-" r => (-1, r)
                   | String "+" r => (1, r)
                   | _ => (1, String c s)
                   end) = (1, String c s)).
  { destruct c as [[] [] [] [] [] [] [] []]; try reflexivity; congruence. }
  rewrite Hsign. rewrite (read_digits_horner _ Hall) by (left; discriminate).
  unfold number. f_equal. lia.
Qed.

(** X3.  A value is accepted exactly when its digits, read
    without the punctuation, are nine and split into an area between 001 and
    899 other than 666, a group other than 00 and a serial other than 0000. *)
Theorem isValidSSN_rules (ssn : string) :
  isValidSSN ssn = true <->
  exists area group serial,
    digitsOnly ssn = (area ++ group ++ serial)%string /\
    String.length area = 3%nat /\ String.length group = 2%nat /\
    String.length serial = 4%nat /\
    0 < number area < 900 /\ number area <> 666 /\
    group <> "00"%string /\ serial <> "0000"%string.
Proof.
  pose proof (digitsOnly_all_digits ssn) as Hall.
  unfold isValidSSN. remember (digitsOnly ssn) as d eqn:Ed. clear Ed ssn.
  split.
  - destruct (String.length d =? 9)%nat eqn:H9; [| discriminate].
    apply Nat.eqb_eq in H9. explode d.
    cbn [negb slice slice_from substring String.length Nat.sub].
    assert (Harea : forallb_string is_digit (String c (String c0 (String c1 ""))) = true).
    { each_digit Hall. cbn [forallb_string]. now rewrite D, D0, D1. }
    rewrite parseInt10_digits by first [exact Harea | discriminate].
    destruct (_ =? "000000000")%string; [discriminate|].
    destruct (number _ =? 0)%Z eqn:E0; [discriminate|].
    destruct (number _ =? 666)%Z eqn:E6; [discriminate|].
    destruct (900 <=? number _)%Z eqn:E9; [discriminate|]. cbn [orb].
    destruct (_ =? "00")%string eqn:Eg; [discriminate|].
    destruct (_ =? "0000")%string eqn:Es; [discriminate|]. intros _.
    exists (String c (String c0 (String c1 ""))), (String c2 (String c3 "")),
           (String c4 (String c5 (String c6 (String c7 "")))).
    apply Z.eqb_neq in E0, E6. apply Z.leb_gt in E9.
    apply String.eqb_neq in Eg, Es.
    assert (0 <= number (String c (String c0 (String c1 "")))).
    { unfold number. cbn [horner].
      repeat match goal with
             | |- context [digit_value ?x] =>
                 let E := fresh in
                 destruct (digit_value x) eqn:E;
                 [ unfold digit_value in E;
                   destruct (Nat.leb 48 (nat_of_ascii x) && Nat.leb (nat_of_ascii x) 57)%bool;
                   inversion E; subst
                 | ]
             end; lia. }
    repeat split; try assumption; try reflexivity; lia.
  - intros (area & group & serial & -> & Ha & Hg & Hs & Hrange & H666 & Hgroup & Hserial).
    explode area. explode group. explode serial.
    cbn [String.append String.length Nat.eqb negb slice slice_from substring Nat.sub] in *.
    assert (Harea : forallb_string is_digit (String c (String c0 (String c1 ""))) = true).
    { each_digit Hall. cbn [forallb_string]. now rewrite D, D0, D1. }
    rewrite parseInt10_digits by first [exact Harea | discriminate].
    destruct (_ =? "000000000")%string eqn:Ez.
    { apply String.eqb_eq in Ez. inversion Ez; subst.
      change (number "000") with 0 in Hrange. lia. }
    replace (number _ =? 0)%Z with false by (symmetry; apply Z.eqb_neq; lia).
    replace (number _ =? 666)%Z with false by (symmetry; apply Z.eqb_neq; lia).
    replace (900 <=? number _)%Z with false by (symmetry; apply Z.leb_gt; lia).
    cbn [orb]. apply String.eqb_neq in Hgroup, Hserial. now rewrite Hgroup, Hserial.
Qed.

(** X4.  A number with ten digits, however it was typed, is
    laid out as (ddd) ddd-dddd: the layout keeps the digits, is valid, is
    stable under formatting again, and its mask shows the last four digits
    only.  A value without exactly ten digits is returned as it was typed,
    also when the masked form is asked for. *)
Theorem formatPhoneNumber_round_trip (phone : string) :
  (ten_digits phone = true ->
   let shown := formatPhoneNumber (Some phone) None in
   String.length shown = 14%nat /\
   digitsOnly shown = digitsOnly phone /\
   isValidPhoneNumber shown = true /\
   formatPhoneNumber (Some shown) None = shown /\
   maskPhoneNumber (Some shown) = maskPhoneNumber (Some phone) /\
   forall hidden last4,
     digitsOnly phone = (hidden ++ last4)%string -> String.length last4 = 4%nat ->
     maskPhoneNumber (Some phone) = ("XXX-XXX-" ++ last4)%string /\
     formatPhoneNumber (Some phone) (Some true) = ("XXX-XXX-" ++ last4)%string) /\
  (ten_digits phone = false ->
   forall masked, formatPhoneNumber (Some phone) masked = phone).
Proof.
  split.
  - unfold ten_digits. intros H10.
    assert (Hne : (phone =? "")%string = false).
    { apply digitsOnly_nonempty. intros E. rewrite E in H10. discriminate. }
    pose proof (digitsOnly_all_digits phone) as Hall.
    assert (Hshown : formatPhoneNumber (Some phone) None
                     = ("(" ++ slice (digitsOnly phone) 0 3 ++ ") " ++
                        slice (digitsOnly phone) 3 6 ++ "-" ++
                        slice_from (digitsOnly phone) 6)%string).
    { unfold formatPhoneNumber. now rewrite Hne, H10. }
    assert (Hmask : forall hidden last4,
              digitsOnly phone = (hidden ++ last4)%string -> String.length last4 = 4%nat ->
              maskPhoneNumber (Some phone) = ("XXX-XXX-" ++ last4)%string /\
              formatPhoneNumber (Some phone) (Some true) = ("XXX-XXX-" ++ last4)%string).
    { intros hidden last4 Hd H4. unfold formatPhoneNumber, maskPhoneNumber.
      rewrite Hne, H10. cbn [negb]. rewrite Hd, <- H4, slice_last_app. split; reflexivity. }
    cbv zeta. rewrite Hshown. clear Hshown.
    assert (Hm : forall shown, shown <> ""%string -> digitsOnly shown = digitsOnly phone ->
                 maskPhoneNumber (Some shown) = maskPhoneNumber (Some phone)).
    { intros shown Hs Hd. unfold maskPhoneNumber. rewrite Hd, Hne.
      destruct shown; [contradiction | reflexivity]. }
    remember (digitsOnly phone) as d eqn:Ed.
    apply Nat.eqb_eq in H10. explode d. each_digit Hall.
    cbn [slice slice_from substring String.length Nat.sub String.append].
    assert (Hdig : digitsOnly
              (String "(" (String c (String c0 (String c1 (String ")" (String " "
                 (String c2 (String c3 (String c4 (String "-"
                    (String c5 (String c6 (String c7 (String c8 ""))))))))))))))
            = String c (String c0 (String c1 (String c2 (String c3
                 (String c4 (String c5 (String c6 (String c7 (String c8 "")))))))))).
    { digits. reflexivity. }
    split; [reflexivity|]. split; [exact Hdig|]. split; [| split; [| split]].
    + unfold isValidPhoneNumber. rewrite Hdig. reflexivity.
    + unfold formatPhoneNumber. rewrite Hdig. reflexivity.
    + apply Hm; [discriminate | exact Hdig].
    + exact Hmask.
  - unfold ten_digits. intros H10 masked. unfold formatPhoneNumber. rewrite H10.
    destruct phone; reflexivity.
Qed.

Lemma formatPhoneNumber_round_trip_witness :
  formatPhoneNumber (Some "555.123.4567"%string) None = "(555) 123-4567"%string /\
  maskPhoneNumber (Some "555.123.4567"%string) = "XXX-XXX-4567"%string /\
  formatPhoneNumber (Some "123-4567"%string) (Some true) = "123-4567"%string.
Proof.
  destruct (formatPhoneNumber_round_trip "555.123.4567") as [Hten _].
  destruct (Hten eq_refl) as (_ & _ & _ & _ & _ & Hmask).
  destruct (Hmask "555123"%string "4567"%string eq_refl eq_refl) as [Hm _].
  destruct (formatPhoneNumber_round_trip "123-4567") as [_ Hother].
  split; [reflexivity | split; [exact Hm | exact (Hother eq_refl (Some true))]].
Defined.

(** *** E-mail addresses *)

Lemma split_piece sep (piece rest : string) :
  has_char sep piece = false ->
  split sep (piece ++ String sep rest)%string = piece :: split sep rest.
Proof.
  induction piece as [|c piece IH]; cbn [has_char String.append split].
  - intros _. now rewrite Ascii.eqb_refl.
  - intros H. apply orb_false_iff in H. destruct H as [Hc Hp].
    rewrite Hc, (IH Hp). reflexivity.
Qed.

Lemma split_last sep (piece : string) :
  has_char sep piece = false -> split sep piece = [piece].
Proof.
  induction piece as [|c piece IH]; cbn [has_char split]; [reflexivity|].
  intros H. apply orb_false_iff in H. destruct H as [Hc Hp].
  rewrite Hc, (IH Hp). reflexivity.
Qed.

Lemma split_head sep (s : string) : exists piece pieces, split sep s = piece :: pieces.
Proof.
  induction s as [|c s (piece & pieces & IH)]; cbn [split]; [eauto|].
  destruct (Ascii.eqb c sep); [eauto|]. rewrite IH. eauto.
Qed.

(** X5.  Of an address local@domain the mask keeps the first
    character of the local part and the domain: addresses that differ only
    after that first character have the same mask.  A local part of a single
    character is shown as it is, text after a second [@] is dropped, and a
    value without [@] (or with nothing after it) is returned unmasked. *)
Theorem maskEmail_keeps_first_character :
  (forall first rest domain tail,
     has_char "@" (String first rest) = false -> rest <> ""%string ->
     has_char "@" domain = false -> domain <> ""%string ->
     maskEmail (Some (String first rest ++ "@" ++ domain)%string)
       = (String first "***" ++ "@" ++ domain)%string /\
     maskEmail (Some (String first rest ++ "@" ++ domain ++ "@" ++ tail)%string)
       = (String first "***" ++ "@" ++ domain)%string) /\
  (forall first domain,
     first <> "@"%char -> has_char "@" domain = false -> domain <> ""%string ->
     maskEmail (Some (String first ("@" ++ domain))%string)
       = String first ("@" ++ domain)%string) /\
  (forall email, has_char "@" email = false -> maskEmail (Some email) = email) /\
  (forall localPart,
     has_char "@" localPart = false ->
     maskEmail (Some (localPart ++ "@")%string) = (localPart ++ "@")%string).
Proof.
  assert (Hmask : forall first rest domain pieces email,
            rest <> ""%string -> domain <> ""%string ->
            split "@" email = String first rest :: domain :: pieces ->
            maskEmail (Some email) = (String first "***" ++ "@" ++ domain)%string).
  { intros first rest domain pieces email Hr Hd Hs. unfold maskEmail.
    destruct email as [|e email]; [discriminate|]. cbn [String.eqb]. rewrite Hs.
    cbn [nth nth_error]. apply String.eqb_neq in Hd. rewrite Hd.
    destruct rest; [contradiction|]. reflexivity. }
  split; [| split; [| split]].
  - intros first rest domain tail Hl Hr Hd Hne. split.
    + apply (Hmask first rest domain []); [assumption | assumption |].
      change ("@" ++ domain)%string with (String "@" domain).
      rewrite split_piece by exact Hl. now rewrite split_last.
    + apply (Hmask first rest domain (split "@" tail)); [assumption | assumption |].
      change ("@" ++ domain ++ "@" ++ tail)%string with (String "@" (domain ++ String "@" tail)).
      rewrite split_piece by exact Hl. now rewrite split_piece.
  - intros first domain Hf Hd Hne. unfold maskEmail. cbn [String.eqb].
    change (String first ("@" ++ domain))%string
      with (String first "" ++ String "@" domain)%string.
    rewrite split_piece.
    + rewrite split_last by exact Hd. cbn [nth nth_error].
      apply String.eqb_neq in Hne. rewrite Hne. reflexivity.
    + cbn [has_char]. apply Ascii.eqb_neq in Hf. now rewrite Hf.
  - intros email H. unfold maskEmail. rewrite split_last by exact H.
    destruct email; reflexivity.
  - intros localPart Hl. unfold maskEmail.
    change (localPart ++ "@")%string with (localPart ++ String "@" "")%string.
    rewrite split_piece by exact Hl. cbn [split nth nth_error String.eqb].
    destruct (localPart ++ "@" =? "")%string eqn:E; [| reflexivity].
    apply String.eqb_eq in E. now rewrite E.
Qed.

Lemma maskEmail_keeps_first_character_witness :
  maskEmail (Some "john.doe@example.com"%string) = "j***@example.com"%string /\
  maskEmail (Some "jane@example.com@evil.org"%string) = "j***@example.com"%string /\
  maskEmail (Some "not an address"%string) = "not an address"%string.
Proof.
  destruct maskEmail_keeps_first_character as (Hmask & _ & Hplain & _).
  split; [| split].
  - apply (Hmask "j"%char "ohn.doe"%string "example.com"%string ""%string);
      [reflexivity | discriminate | reflexivity | discriminate].
  - apply (Hmask "j"%char "ane"%string "example.com"%string "evil.org"%string);
      [reflexivity | discriminate | reflexivity | discriminate].
  - apply Hplain. reflexivity.
Defined.

(** *** Redaction *)

Lemma redact_JObj fields props :
  redact fields (JObj props)
  = JObj (map (fun kv => (fst kv, redact_value fields (fst kv) (snd kv))) props).
Proof.
  cbn [redact]. f_equal.
  induction props as [|[key value] rest IH]; [reflexivity|].
  cbn [map fst snd]. unfold redact_value at 1. now rewrite IH.
Qed.

Lemma redact_JArr fields items :
  redact fields (JArr items) = JObj (array_entries fields 0 items).
Proof.
  cbn [redact]. f_equal. generalize 0%nat.
  induction items as [|value rest IH]; intros i; [reflexivity|].
  cbn [array_entries]. unfold redact_value at 1. now rewrite IH.
Qed.

Lemma redact_JStr fields s :
  redact fields (JStr s) = JObj (string_entries fields 0 s).
Proof.
  cbn [redact]. f_equal. generalize 0%nat.
  induction s as [|c rest IH]; intros i; [reflexivity|].
  cbn [string_entries]. unfold redact_value at 1. cbn [is_object]. now rewrite IH.
Qed.

Lemma redacted_JObj fields props :
  Forall (fun kv => if is_sensitive fields (fst kv) then snd kv = REDACTED
                    else redacted fields (snd kv)) props ->
  redacted fields (JObj props).
Proof.
  cbn [redacted]. induction 1 as [|[key value] rest H _ IH]; [exact I|]. split; assumption.
Qed.

Lemma array_free_JObj props :
  Forall (fun kv => array_free (snd kv)) props -> array_free (JObj props).
Proof.
  cbn [array_free]. induction 1 as [|[key value] rest H _ IH]; [exact I|]. split; assumption.
Qed.

Lemma entries_settled fields props :
  Forall (entry_settled fields) props -> settled fields (JObj props).
Proof.
  intros H. split; [| split].
  - apply redacted_JObj. eapply Forall_impl; [| exact H]. intros kv (Hr & _). exact Hr.
  - apply array_free_JObj. eapply Forall_impl; [| exact H]. intros kv (_ & Ha & _). exact Ha.
  - rewrite redact_JObj. f_equal.
    induction H as [|[key value] rest (_ & _ & Hv) _ IH]; [reflexivity|].
    cbn [map fst snd] in *. now rewrite Hv, IH.
Qed.

Lemma redact_value_settled fields key value :
  (is_object value = true -> settled fields (redact fields value)) ->
  entry_settled fields (key, redact_value fields key value).
Proof.
  intros IH. unfold entry_settled, redact_value. cbn [fst snd].
  destruct (is_sensitive fields key) eqn:Es.
  - repeat split; reflexivity.
  - destruct (is_object value) eqn:Eo.
    + destruct (IH eq_refl) as (Hr & Ha & Hi).
      split; [exact Hr | split; [exact Ha |]].
      destruct (is_object (redact fields value)); [exact Hi | reflexivity].
    + destruct value; try discriminate Eo; repeat split; exact I.
Qed.

Lemma redact_settled fields data : settled fields (redact fields data).
Proof.
  induction data as [| | b | q | s | items IH | props IH] using JsProps.JsVal_induction;
    try (apply (entries_settled fields []); constructor).
  - rewrite redact_JStr. apply entries_settled. generalize 0%nat.
    induction s as [|c rest IHs]; intros i; cbn [string_entries]; constructor.
    + apply redact_value_settled. discriminate.
    + apply IHs.
  - rewrite redact_JArr. apply entries_settled. generalize 0%nat.
    induction IH as [|value rest Hv _ IHr]; intros i; cbn [array_entries]; constructor.
    + apply redact_value_settled. intros _. exact Hv.
    + apply IHr.
  - rewrite redact_JObj. apply entries_settled.
    induction IH as [|[key value] rest Hv _ IHr]; cbn [map fst snd]; constructor.
    + apply redact_value_settled. intros _. exact Hv.
    + exact IHr.
Qed.

(** X6.  In the value [redactSensitiveData] returns, every
    property whose name contains one of the sensitive fields (without regard
    to case), at any depth, holds the marker [[REDACTED]]; arrays have become
    objects keyed by index; redacting again changes nothing.  A property of
    the input whose name is not sensitive and whose value is a primitive is
    kept as it is.  The details of an audit entry are redacted in this way
    with the default fields. *)
Theorem redactSensitiveData_hides_fields (sensitiveFields : option (list string)) :
  let fields := match sensitiveFields with
                | Some fs => fs
                | None => default_sensitiveFields
                end in
  (forall data,
     let out := redactSensitiveData data sensitiveFields in
     redacted fields out /\ array_free out /\
     redactSensitiveData out sensitiveFields = out) /\
  (forall props key value,
     In (key, value) props -> is_sensitive fields key = false -> is_object value = false ->
     exists out, redactSensitiveData (JObj props) sensitiveFields = JObj out /\
                 In (key, value) out) /\
  (forall now userId action resourceType resourceId details d,
     entry_details (createAuditEntry now userId action resourceType resourceId details)
       = Some d ->
     redacted default_sensitiveFields d).
Proof.
  cbv zeta. split; [| split].
  - intros data. exact (redact_settled _ data).
  - intros props key value Hin Hs Ho. unfold redactSensitiveData.
    rewrite redact_JObj. eexists. split; [reflexivity|].
    apply in_map_iff. exists (key, value). split; [| exact Hin].
    cbn [fst snd]. unfold redact_value. now rewrite Hs, Ho.
  - intros now userId action resourceType resourceId details d.
    unfold createAuditEntry. cbn [entry_details].
    destruct details as [x|]; [| discriminate].
    destruct (truthy x); [| discriminate].
    intros H. inversion H. apply redact_settled.
Qed.

Lemma redactSensitiveData_hides_fields_witness :
  redactSensitiveData
    (JObj [("patientName", JStr "Ada Lovelace");
           ("SSN", JStr "123-45-6789");
           ("contacts", JArr [JObj [("apiKeyHint", JStr "k-1"); ("phone", JStr "555")]])])
    None
  = JObj [("patientName", JStr "Ada Lovelace");
          ("SSN", JStr "[REDACTED]");
          ("contacts", JObj [("0", JObj [("apiKeyHint", JStr "[REDACTED]");
                                         ("phone", JStr "555")])])] /\
  exists out,
    redactSensitiveData (JObj [("patientName", JStr "Ada Lovelace"); ("SSN", JStr "1")]) None
      = JObj out /\
    In ("patientName", JStr "Ada Lovelace") out.
Proof.
  destruct (redactSensitiveData_hides_fields None) as (_ & Hkept & _).
  split; [reflexivity|].
  apply Hkept; [left; reflexivity | reflexivity | reflexivity].
Defined.

(** *** Role checks *)

Lemma has_mono (roles roles' : list string) (role : string) :
  (forall r, In r roles -> In r roles') -> has roles role = true -> has roles' role = true.
Proof.
  unfold has. rewrite !existsb_exists. intros Hsub (r & Hin & Hr). exists r. auto.
Qed.

Lemma checkPatientDataPermission_flags (userRoles : list string) (action : DataAction) :
  let c := checkPatientDataPermission userRoles action in
  canView c = existsb (has userRoles)
                ["ADMIN"; "DOCTOR"; "NURSE"; "RECEPTIONIST"; "LAB_TECHNICIAN"]%string /\
  canEdit c = existsb (has userRoles) ["ADMIN"; "DOCTOR"; "NURSE"]%string /\
  canDelete c = has userRoles "ADMIN" /\
  reason c = (if allowed c action then None
              else Some match action with
                        | data_view => "Insufficient permissions to view patient data"
                        | data_edit => "Insufficient permissions to edit patient data"
                        | data_delete => "Insufficient permissions to delete patient data"
                        end%string).
Proof.
  unfold checkPatientDataPermission. cbn [app].
  destruct action; cbn [allowed];
    match goal with |- context [if negb ?b then _ else _] => destruct b end;
    cbn; repeat split; reflexivity.
Qed.

(** X7.  Whoever may delete patient data may edit it, and
    whoever may edit it may view it; the three flags do not depend on the
    action asked about; a reason is given exactly when the action asked about
    is refused; holding more roles never turns an allowed action into a
    refused one. *)
Theorem checkPatientDataPermission_ranks (userRoles : list string) (action : DataAction) :
  let c := checkPatientDataPermission userRoles action in
  (canDelete c = true -> canEdit c = true) /\
  (canEdit c = true -> canView c = true) /\
  (forall other,
     let c' := checkPatientDataPermission userRoles other in
     canView c' = canView c /\ canEdit c' = canEdit c /\ canDelete c' = canDelete c) /\
  (reason c = None <-> allowed c action = true) /\
  (forall more,
     (forall r, In r userRoles -> In r more) ->
     allowed c action = true ->
     allowed (checkPatientDataPermission more action) action = true).
Proof.
  cbv zeta.
  pose proof (checkPatientDataPermission_flags userRoles action) as (Hv & He & Hd & Hr).
  split; [| split; [| split; [| split]]].
  - rewrite Hd, He. cbn [existsb]. intros ->. reflexivity.
  - rewrite He, Hv. cbn [existsb].
    destruct (has userRoles "ADMIN"), (has userRoles "DOCTOR"), (has userRoles "NURSE");
      cbn; congruence.
  - intros other.
    pose proof (checkPatientDataPermission_flags userRoles other) as (Hv' & He' & Hd' & _).
    cbv zeta. now rewrite Hv, He, Hd, Hv', He', Hd'.
  - rewrite Hr. destruct (allowed _ action); split; congruence.
  - intros more Hsub.
    pose proof (checkPatientDataPermission_flags more action) as (Hv' & He' & Hd' & _).
    assert (Hm : forall roles,
              existsb (has userRoles) roles = true -> existsb (has more) roles = true).
    { intros roles. rewrite !existsb_exists. intros (r & Hin & Hhas).
      exists r. split; [exact Hin |]. eapply has_mono; eauto. }
    destruct action; cbn [allowed].
    + rewrite Hv, Hv'. apply Hm.
    + rewrite He, He'. apply Hm.
    + rewrite Hd, Hd'. apply has_mono. exact Hsub.
Qed.

Lemma checkPatientDataPermission_ranks_witness :
  reason (checkPatientDataPermission ["RECEPTIONIST"]%string data_edit)
    = Some "Insufficient permissions to edit patient data"%string /\
  allowed (checkPatientDataPermission ["RECEPTIONIST"; "NURSE"]%string data_edit) data_edit
    = true.
Proof.
  split; [reflexivity|].
  destruct (checkPatientDataPermission_ranks ["NURSE"]%string data_edit)
    as (_ & _ & _ & _ & Hmore).
  apply Hmore; [| reflexivity].
  intros r [<- | []]. right. left. reflexivity.
Defined.

End SecurityProps.

(** ** Sanitising logger *)

Module SecureLoggerProps.
Import SecureLogger.

Lemma sanitizeObject_JObj props :
  sanitizeObject (JObj props)
  = JObj (map (fun kv => (fst kv, sanitize_value (fst kv) (snd kv))) props).
Proof.
  cbn [sanitizeObject]. f_equal.
  induction props as [|[key value] rest IH]; [reflexivity|].
  cbn [map fst snd]. unfold sanitize_value at 1. now rewrite IH.
Qed.

Lemma clean_JObj props :
  Forall (fun kv => if isSensitiveKey (fst kv) then snd kv = REDACTED else clean (snd kv))
         props ->
  clean (JObj props).
Proof.
  cbn [clean]. induction 1 as [|[key value] rest H _ IH]; [exact I|]. split; assumption.
Qed.

Lemma clean_JArr items : Forall clean items -> clean (JArr items).
Proof.
  cbn [clean]. induction 1 as [|value rest H _ IH]; [exact I|]. split; assumption.
Qed.

Lemma sanitizeObject_primitive v : is_object v = false -> sanitizeObject v = v.
Proof. intros H. destruct v; try reflexivity; discriminate H. Qed.

Lemma clean_primitive v : is_object v = false -> clean v.
Proof. intros H. destruct v; try exact I; discriminate H. Qed.

(** Sanitising leaves a clean value, and a second pass changes nothing. *)
Lemma sanitizeObject_clean v :
  clean (sanitizeObject v) /\ sanitizeObject (sanitizeObject v) = sanitizeObject v.
Proof.
  induction v as [| | b | q | s | items IH | props IH] using JsProps.JsVal_induction;
    try (split; [exact I | reflexivity]).
  - cbn [sanitizeObject]. split.
    + apply clean_JArr. apply Forall_map. eapply Forall_impl; [| exact IH].
      intros x [Hc _]. exact Hc.
    + f_equal. rewrite map_map. apply map_ext_Forall. eapply Forall_impl; [| exact IH].
      intros x [_ Hi]. exact Hi.
  - rewrite sanitizeObject_JObj. split.
    + apply clean_JObj. apply Forall_map. eapply Forall_impl; [| exact IH].
      intros [key value] [Hc _]. cbn [fst snd] in *. unfold sanitize_value.
      destruct (isSensitiveKey key); [reflexivity|].
      destruct (is_object value) eqn:Eo; [exact Hc | now apply clean_primitive].
    + rewrite sanitizeObject_JObj, map_map. f_equal.
      apply map_ext_Forall. eapply Forall_impl; [| exact IH].
      intros [key value] [_ Hi]. cbn [fst snd] in *. f_equal. unfold sanitize_value.
      destruct (isSensitiveKey key); [reflexivity|].
      destruct (is_object value) eqn:Eo.
      * destruct (is_object (sanitizeObject value)); [exact Hi | reflexivity].
      * now rewrite Eo.
Qed.

(** X8.  In production every line the logger writes is the message
    behind the tag [[SECURE]] with one sanitised argument per argument given:
    no argument is an [Error] any more, and in no argument does a property
    with a sensitive name, at any depth, hold anything but the marker; what an
    [Error] says does not influence the line [secureLogger.error] writes;
    [debug] writes nothing.  In any other mode each method writes its message
    and arguments as given. *)
Theorem secureLogger_production (env : ProcessEnv) (message : string) (args : list LogArg) :
  (isProduction env = true ->
   (forall line,
      In line (error env message args ++ warn env message args ++ info env message args) ->
      text line = ("[SECURE] " ++ message)%string /\
      length (SecureLogger.args line) = length args /\
      Forall clean_arg (SecureLogger.args line)) /\
   debug env message args = [] /\
   (forall args', map anonymous args' = map anonymous args ->
      error env message args' = error env message args)) /\
  (isProduction env = false ->
   error env message args = [mkLine level_error message args] /\
   warn env message args = [mkLine level_warn message args] /\
   info env message args = [mkLine level_info message args] /\
   debug env message args = [mkLine level_debug message args]).
Proof.
  split; intros Hp.
  - split; [| split].
    + intros line. unfold error, warn, info. rewrite Hp. cbn [app].
      intros [<- | [<- | [<- | []]]]; cbn [text SecureLogger.args];
        (split; [reflexivity |]); (split; [apply length_map |]);
        apply Forall_map, Forall_forall; intros [v | e] _; cbn;
        try exact I; apply sanitizeObject_clean.
    + unfold debug. now rewrite Hp.
    + intros args' H. unfold error. rewrite Hp. do 2 f_equal.
      revert args' H. induction args as [|a args IH]; intros [|a' args'] H;
        try discriminate H; [reflexivity|].
      cbn [map] in *. injection H as Ha Hr. rewrite (IH _ Hr). f_equal.
      destruct a, a'; cbn in *; try discriminate Ha; [now inversion Ha | now rewrite Hp].
  - unfold error, warn, info, debug. rewrite Hp. repeat split.
Qed.

Lemma secureLogger_production_witness :
  error Sample.production "Failed to fetch patient:"
    [ArgError (mkError "Error" "patient 123-45-6789 not found");
     ArgValue (JObj [("patientSSN", JStr "123-45-6789"); ("page", JNum 2)])]
  = error Sample.production "Failed to fetch patient:"
      [ArgError (mkError "TypeError" "Failed to fetch");
       ArgValue (JObj [("patientSSN", JStr "123-45-6789"); ("page", JNum 2)])] /\
  debug Sample.production "cache hit" [] = [].
Proof.
  destruct (secureLogger_production Sample.production "Failed to fetch patient:"
              [ArgError (mkError "TypeError" "Failed to fetch");
               ArgValue (JObj [("patientSSN", JStr "123-45-6789"); ("page", JNum 2)])])
    as [Hprod _].
  destruct (Hprod eq_refl) as (_ & _ & Hsame).
  split; [apply Hsame; reflexivity | reflexivity].
Defined.

End SecureLoggerProps.

(** ** Signed-in user and roles *)

Module IdentityProps.
Import Identity.

Lemma is_UserRole_name v :
  is_UserRole v = true -> v = JStr (role_name v) /\ In (role_name v) UserRole_values.
Proof.
  destruct v as [| | | | s | |]; try discriminate. cbn [is_UserRole role_name].
  intros H. split; [reflexivity|]. apply existsb_exists in H.
  destruct H as (r & Hin & Hr). apply String.eqb_eq in Hr. now subst.
Qed.

Lemma is_UserRole_valid s : In s UserRole_values -> is_UserRole (JStr s) = true.
Proof.
  intros H. cbn [is_UserRole]. apply existsb_exists. exists s.
  split; [exact H | apply String.eqb_refl].
Qed.

(** The roles pushed by the [forEach] over an array claim. *)
Lemma pushed_roles items : forall acc role,
  In role (fold_left (fun roles r => if is_UserRole r then roles ++ [role_name r] else roles)
             items acc)
  <-> In role acc \/ (In (JStr role) items /\ In role UserRole_values).
Proof.
  induction items as [|item items IH]; intros acc role; cbn [fold_left].
  - cbn [In]. tauto.
  - rewrite IH. cbn [In]. destruct (is_UserRole item) eqn:E.
    + destruct (is_UserRole_name item E) as [Hitem Hvalid].
      rewrite in_app_iff. cbn [In]. split.
      * intros [[H | [H | []]] | H]; [tauto | | tauto].
        subst role. right. split; [left; congruence | exact Hvalid].
      * intros [H | [[H | H] Hv]]; [tauto | | tauto].
        left. right. left. rewrite H in E |- *. reflexivity.
    + split; [tauto|]. intros [H | [[H | H] Hv]]; [tauto | | tauto].
      subst item. rewrite (is_UserRole_valid _ Hv) in E. discriminate.
Qed.

Lemma getUserFromAccount_roles_iff account role :
  In role (roles (getUserFromAccount account))
  <-> In role UserRole_values /\ stated_by (roleClaims account) role.
Proof.
  unfold getUserFromAccount, roleClaims. cbn [roles].
  destruct (js_or _ _) as [| | b | q | s | items | props]; cbn [stated_by In];
    try tauto.
  - destruct (is_UserRole (JStr s)) eqn:E; cbn [In].
    + destruct (is_UserRole_name _ E) as [_ Hv]. cbn [role_name] in Hv.
      split; [intros [<- | []]; tauto | intros [_ ->]; tauto].
    + split; [tauto|]. intros [Hv <-]. rewrite (is_UserRole_valid _ Hv) in E. discriminate.
  - rewrite pushed_roles. cbn [In]. tauto.
Qed.

(** X9.  The roles of the user built from an account are
    exactly the known role names that the role claim of its token states:
    [extension_Role] when it holds a truthy value, [roles] otherwise (so an
    [extension_Role] without a known role leaves the user without roles,
    whatever [roles] says).  A claim that is neither an array nor a string
    grants nothing. *)
Theorem getUserFromAccount_roles (account : AccountInfo) :
  let user := getUserFromAccount account in
  let claims := idTokenClaims account in
  (forall role,
     In role (roles user) <->
     In role UserRole_values /\ stated_by (roleClaims account) role) /\
  (truthy (get_prop claims "extension_Role") = true ->
   forall role, In role (roles user) -> stated_by (get_prop claims "extension_Role") role) /\
  (truthy (get_prop claims "extension_Role") = false ->
   forall role, In role (roles user) -> stated_by (get_prop claims "roles") role) /\
  (is_object (roleClaims account) = false ->
   (forall s, roleClaims account <> JStr s) -> roles user = []) /\
  id user = localAccountId account /\ email user = username account.
Proof.
  cbv zeta. split; [| split; [| split; [| split; [| split; reflexivity]]]].
  - intros role. apply getUserFromAccount_roles_iff.
  - intros Ht role H. apply getUserFromAccount_roles_iff in H.
    unfold roleClaims, js_or in H. rewrite Ht in H. tauto.
  - intros Ht role H. apply getUserFromAccount_roles_iff in H.
    unfold roleClaims, js_or in H. rewrite Ht in H. tauto.
  - unfold getUserFromAccount, roleClaims. cbn [roles].
    destruct (js_or _ _) as [| | b | q | s | items | props]; try reflexivity.
    + intros _ H. now elim (H s).
    + discriminate.
Qed.

Lemma getUserFromAccount_roles_witness :
  roles (getUserFromAccount
           (mkAccount "u-1" "ada@example.com" None "t-1"
              (JObj [("extension_Role", JStr "guest");
                     ("roles", JArr [JStr "ADMIN"])]))) = [] /\
  roles (getUserFromAccount
           (mkAccount "u-2" "bob@example.com" (Some "Bob") "t-1"
              (JObj [("roles", JArr [JStr "NURSE"; JStr "root"; JNum 7; JStr "ADMIN"])])))
    = ["NURSE"; "ADMIN"]%string.
Proof.
  split; [| reflexivity].
  destruct (getUserFromAccount_roles
              (mkAccount "u-1" "ada@example.com" None "t-1"
                 (JObj [("extension_Role", JStr "guest");
                        ("roles", JArr [JStr "ADMIN"])])))
    as (Hiff & Hext & _).
  destruct (roles _) as [|role others]; [reflexivity|].
  exfalso. pose proof (Hext eq_refl role (or_introl eq_refl)) as Hguest.
  cbn in Hguest. subst role.
  destruct (proj1 (Hiff "guest"%string) (or_introl eq_refl)) as [Hv _].
  cbn in Hv. intuition discriminate.
Defined.

Lemma hasRole_roles msal role :
  hasRole msal role = Return true <->
  exists user, getCurrentUser msal = Return (Some user) /\ In role (roles user).
Proof.
  unfold hasRole. destruct (getCurrentUser msal) as [[user|] | t].
  - rewrite orb_false_r. unfold roles_include. split.
    + intros H. injection H as Hb. apply existsb_exists in Hb.
      destruct Hb as (r & Hin & Hr). apply String.eqb_eq in Hr. subst r.
      exists user. split; [reflexivity | exact Hin].
    + intros (u & Hu & Hin). inversion Hu; subst u. f_equal.
      apply existsb_exists. exists role. split; [exact Hin | apply String.eqb_refl].
  - split; [discriminate | intros (u & Hu & _); discriminate].
  - split; [discriminate | intros (u & Hu & _); discriminate].
Qed.

(** X10.  [hasAnyRole] holds exactly when
    [hasRole] holds for one of the roles asked about, and [hasRole] holds
    only for a known role name stated by the token of the current account.
    With nobody signed in both answer no; before MSAL is initialised both
    throw the configuration error of [getMsalInstance] instead of
    answering. *)
Theorem hasAnyRole_iff_hasRole (msalInstance : option PublicClientApplication)
    (asked : list string) :
  (hasAnyRole msalInstance asked = Return true <->
   exists role, In role asked /\ hasRole msalInstance role = Return true) /\
  (forall role,
     hasRole msalInstance role = Return true ->
     exists account,
       getCurrentAccount msalInstance = Return (Some account) /\
       In role UserRole_values /\ stated_by (roleClaims account) role) /\
  (forall instance,
     msalInstance = Some instance -> getAllAccounts instance = [] ->
     hasAnyRole msalInstance asked = Return false /\
     forall role, hasRole msalInstance role = Return false) /\
  (msalInstance = None ->
   exists e,
     err_name e = "Error"%string /\
     hasAnyRole msalInstance asked = Throw (ThrowError e) /\
     forall role, hasRole msalInstance role = Throw (ThrowError e)).
Proof.
  split; [| split; [| split]].
  - split.
    + unfold hasAnyRole. intros H.
      destruct (getCurrentUser msalInstance) as [[user|] | t] eqn:Eu; try discriminate.
      injection H as Hb. apply existsb_exists in Hb. destruct Hb as (role & Hin & Hr).
      exists role. split; [exact Hin|]. unfold hasRole. rewrite Eu, Hr. reflexivity.
    + intros (role & Hin & Hr). unfold hasRole in Hr. unfold hasAnyRole.
      destruct (getCurrentUser msalInstance) as [[user|] | t]; try discriminate.
      f_equal. apply existsb_exists. exists role. split; [exact Hin|].
      injection Hr as Hb. now rewrite orb_false_r in Hb.
  - intros role H. apply hasRole_roles in H. destruct H as (user & Hu & Hin).
    unfold getCurrentUser in Hu.
    destruct (getCurrentAccount msalInstance) as [[account|] | t]; try discriminate.
    inversion Hu; subst user. exists account. split; [reflexivity|].
    now apply getUserFromAccount_roles_iff.
  - intros instance -> Hnone.
    unfold hasAnyRole, hasRole, getCurrentUser, getCurrentAccount, getMsalInstance.
    rewrite Hnone. split; reflexivity.
  - intros ->. eexists. split; [| split; [reflexivity | intros role; reflexivity]].
    reflexivity.
Qed.

Lemma hasAnyRole_iff_hasRole_witness :
  hasAnyRole
    (Some (mkPca [mkAccount "u-2" "bob@example.com" (Some "Bob") "t-1"
                    (JObj [("roles", JArr [JStr "NURSE"])])] None))
    ["ADMIN"; "DOCTOR"; "NURSE"]%string = Return true /\
  exists e, hasAnyRole None ["ADMIN"]%string = Throw (ThrowError e).
Proof.
  split.
  - apply (proj1 (hasAnyRole_iff_hasRole _ _)). exists "NURSE"%string.
    split; [right; right; left; reflexivity | reflexivity].
  - destruct (proj2 (proj2 (proj2 (hasAnyRole_iff_hasRole None ["ADMIN"]%string))) eq_refl)
      as (e & _ & H & _).
    exists e. exact H.
Defined.

End IdentityProps.

(** ** Request pipeline: bounds, recovery and thrown values *)

Module RequestProps.
Import Backoff Client ClientNotions ClientProps.

Lemma sleeps_of_app (a b : list Event) : sleeps_of (a ++ b) = sleeps_of a ++ sleeps_of b.
Proof. unfold sleeps_of. apply flat_map_app. Qed.

Lemma calls_of_app (a b : list Event) : calls_of (a ++ b) = calls_of a ++ calls_of b.
Proof. unfold calls_of. apply flat_map_app. Qed.

Lemma quiet_events (evs : list Event) :
  Forall is_quiet evs ->
  network_calls evs = 0%nat /\ sleeps_of evs = [] /\ calls_of evs = [].
Proof.
  induction 1 as [|e evs He _ (Hn & Hs & Hc)]; [repeat split|].
  change (e :: evs) with ([e] ++ evs).
  rewrite network_calls_app, sleeps_of_app, calls_of_app, Hn, Hs, Hc.
  destruct e; cbn in *; try tauto; repeat split.
Qed.

Lemma network_calls_calls_of (evs : list Event) : network_calls evs = length (calls_of evs).
Proof.
  induction evs as [|e evs IH]; [reflexivity|].
  change (e :: evs) with ([e] ++ evs).
  rewrite network_calls_app, calls_of_app, length_app, IH. destruct e; reflexivity.
Qed.

Section Pass.
Variable h : Host.
Variable env : ProcessEnv.
Variable net : nat -> Attempt.
Variables (method endpoint : string) (config : option ApiRequestConfig)
          (body : option JsVal).

Lemma buildHeaders_quiet a m : emits is_quiet (buildHeaders h env a config m).
Proof.
  unfold buildHeaders, Client.getAccessToken, console_warn.
  repeat first [ emits_step
               | eapply emits_weaken; [| apply getCsrfToken_emits]; simpl; tauto ].
Qed.

(** [handleResponse] settles from the response alone and leaves the world
    as it is. *)
Lemma handleResponse_pure r w :
  handleResponse r w =
  (match response_data r with
   | Rejected e => Throw (ThrowError e)
   | Resolved data =>
       if ok r then Return data
       else Throw (ThrowApiError
              (if is_json r && is_object data then
                 {| code := js_or (get_prop data "code")
                                  (JStr ("HTTP_" ++ String_of_Z (status r)));
                    message := js_or (get_prop data "message") (JStr (statusText r));
                    statusCode := Some (status r);
                    details := get_prop data "details" |}
               else
                 {| code := JStr ("HTTP_" ++ String_of_Z (status r));
                    message := JStr (statusText r);
                    statusCode := Some (status r);
                    details := JUndefined |}))
   end, w).
Proof.
  unfold handleResponse, response_data, is_json, bind.
  destruct (match content_type r with Some ct => includes ct "application/json" | None => false end).
  - destruct (body_json r) as [data | e]; cbn [await ret throw]; [| reflexivity].
    destruct (ok r); cbn [negb]; [reflexivity|].
    destruct (is_object data); reflexivity.
  - destruct (body_text r) as [data | e]; cbn [await ret throw]; [| reflexivity].
    destruct (ok r); cbn [negb andb]; reflexivity.
Qed.

(** What [handleResponse] throws: the exception of the body reader, or an
    ApiError carrying the status of a response that is not a success. *)
Lemma handleResponse_thrown r w t w1 :
  handleResponse r w = (Throw t, w1) ->
  match t with
  | ThrowError _ => True
  | ThrowApiError e => statusCode e = Some (status r) /\ ok r = false
  end.
Proof.
  rewrite handleResponse_pure. destruct (response_data r) as [data | e].
  - destruct (ok r) eqn:Eok; [discriminate|].
    intros H. injection H as <- _. destruct (is_json r && is_object data); split; reflexivity.
  - intros H. injection H as <- _. exact I.
Qed.

(** One pass of the loop, case by case. *)
Lemma request_attempt_cases url timeout M attempt lastError w :
  let a := net attempt in
  match buildHeaders h env a config (Some method) w with
  | (Throw t, w0) =>
      request_attempt h env net method endpoint url config body timeout M attempt lastError w
      = (Throw t, w0)
  | (Return hs, w0) =>
      let w1 := record_event (NetworkCall (call_of method body url timeout hs)) w0 in
      match att_fetch a with
      | Rejected e =>
          request_attempt h env net method endpoint url config body timeout M attempt
            lastError w
          = (Throw (if is_abort e then ThrowApiError TIMEOUT else ThrowError e), w1)
      | Resolved r =>
          if (status r =? 429)%Z then
            let retryAfter := hint_of h net attempt r in
            let delay :=
              calculateBackoffDelay (att_random a) attempt (option_map inject_Z retryAfter) in
            let w2 :=
              record_event (ConsoleWarn (rate_limit_warning method endpoint attempt M delay))
                           w1 in
            request_attempt h env net method endpoint url config body timeout M attempt
              lastError w
            = if (attempt <? M)%nat
              then (Return (Continue (Some (RATE_LIMITED retryAfter endpoint method))),
                    record_event (Slept delay) w2)
              else (Throw (ThrowApiError (RATE_LIMITED retryAfter endpoint method)), w2)
          else
            request_attempt h env net method endpoint url config body timeout M attempt
              lastError w
            = match fst (handleResponse r w1) with
              | Return data => (Return (Returned data), w1)
              | Throw t =>
                  (if is_AbortError t then Throw (ThrowApiError TIMEOUT)
                   else if has_code_RATE_LIMITED t && (attempt <? M)%nat
                        then Return (Continue lastError)
                        else Throw t, w1)
              end
      end
  end.
Proof.
  cbv zeta.
  destruct (buildHeaders h env (net attempt) config (Some method) w) as [[hs | t] w0] eqn:Hh.
  - destruct (att_fetch (net attempt)) as [r | e] eqn:Hf.
    + destruct (status r =? 429)%Z eqn:Hs.
      * unfold request_attempt, bind, try_catch. rewrite Hh.
        unfold emit at 1. rewrite Hf. cbn [await ret]. rewrite Hs.
        unfold console_warn, emit, hint_of.
        destruct (attempt <? M)%nat eqn:E;
          cbn -[rate_limit_warning calculateBackoffDelay]; rewrite ?E; reflexivity.
      * unfold request_attempt, bind, try_catch. rewrite Hh.
        unfold emit at 1. rewrite Hf. cbn [await ret]. rewrite Hs.
        fold (call_of method body url timeout hs).
        destruct (handleResponse r
                    (record_event (NetworkCall (call_of method body url timeout hs)) w0))
          as [o w2] eqn:Hr.
        pose proof Hr as Hw. rewrite handleResponse_pure in Hw. injection Hw as _ <-.
        cbn [fst]. destruct o as [data | t]; [reflexivity|].
        destruct (is_AbortError t); [reflexivity|].
        destruct (has_code_RATE_LIMITED t && (attempt <? M)%nat); reflexivity.
    + unfold request_attempt, bind, try_catch. rewrite Hh.
      unfold emit at 1. rewrite Hf. cbn [await throw].
      unfold is_AbortError, is_abort, has_code_RATE_LIMITED.
      destruct (err_name e =? "AbortError")%string; reflexivity.
  - unfold request_attempt, bind. rewrite Hh. reflexivity.
Qed.

Lemma buildHeaders_thrown a w t w0 :
  buildHeaders h env a config (Some method) w = (Throw t, w0) ->
  t = ThrowApiError CSRF_TOKEN_MISSING \/ exists e, t = ThrowError e.
Proof.
  unfold buildHeaders. unfold bind at 1.
  match goal with
  | |- context [(if ?b then ?x else ?y) w] =>
      destruct ((if b then x else y) w) as [r w1] eqn:E;
      destruct (auth_headers_csrf a (initial_headers config) b _ _ _ E) as (hs & -> & _)
  end.
  destruct (negb (method =? "") && state_changing method); [| discriminate].
  unfold bind, getCsrfToken.
  destruct (meta_csrf_token (att_document a)) as [content|]; cbn [ret].
  - destruct (negb _); [discriminate|].
    destruct (isProduction env); cbn; intros H; inversion H. left. reflexivity.
  - destruct (match_XSRF_TOKEN (cookie (att_document a))) as [captured|]; cbn [ret].
    + destruct (decodeURIComponent h captured) as [v|]; cbn [ret throw].
      * destruct (negb _); [discriminate|].
        destruct (isProduction env); cbn; intros H; inversion H. left. reflexivity.
      * intros H. inversion H. right. eexists. reflexivity.
    + destruct (isProduction env); cbn; intros H; inversion H. left. reflexivity.
Qed.

Ltac close_pass :=
  repeat split;
  first
    [ lia | reflexivity | assumption | apply Forall_nil
    | apply Forall_cons;
        [ first [reflexivity | apply BackoffProps.calculateBackoffDelay_cap]
        | apply Forall_nil ]
    | match goal with
      | |- context [(?a <? ?b)%nat] => destruct (a <? b)%nat; lia
      end
    | idtac ].

(** What one pass adds to the trace, and how it can end. *)
Lemma request_attempt_events url timeout M attempt lastError w r w1 :
  request_attempt h env net method endpoint url config body timeout M attempt lastError w
    = (r, w1) ->
  exists evs,
    trace w1 = trace w ++ evs /\
    (network_calls evs <= 1)%nat /\
    (length (sleeps_of evs) <= network_calls evs)%nat /\
    (length (sleeps_of evs) <= if (attempt <? M)%nat then 1 else 0)%nat /\
    Forall (fun ms => (ms <= 30000)%Q) (sleeps_of evs) /\
    Forall (fun c => c = call_of method body url timeout (fc_headers c)) (calls_of evs) /\
    match r with
    | Return (Returned _) => network_calls evs = 1%nat /\ sleeps_of evs = []
    | Return (Continue le) =>
        (attempt < M)%nat /\ network_calls evs = 1%nat
    | Throw t => thrown_by_client endpoint method t /\ sleeps_of evs = []
    end.
Proof.
  pose proof (request_attempt_cases url timeout M attempt lastError w) as Hc.
  cbv zeta in Hc.
  destruct (buildHeaders h env (net attempt) config (Some method) w) as [[hs | t] w0] eqn:Hh.
  - destruct (buildHeaders_quiet _ _ _ _ _ Hh) as (pre & Hpre & Fpre).
    destruct (quiet_events _ Fpre) as (Np & Sp & Cp).
    destruct (att_fetch (net attempt)) as [resp | e].
    + destruct (status resp =? 429)%Z eqn:Es.
      * rewrite Hc. clear Hc.
        destruct (attempt <? M)%nat eqn:E; intros H; injection H as <- <-.
        -- eexists (pre ++ [_; _; _]). split.
           { unfold record_event. cbn [trace]. rewrite Hpre, <- !app_assoc. reflexivity. }
           rewrite network_calls_app, sleeps_of_app, calls_of_app, Np, Sp, Cp.
           cbn -[Nat.ltb]. close_pass.
           apply Nat.ltb_lt. exact E.
        -- eexists (pre ++ [_; _]). split.
           { unfold record_event. cbn [trace]. rewrite Hpre, <- !app_assoc. reflexivity. }
           rewrite network_calls_app, sleeps_of_app, calls_of_app, Np, Sp, Cp.
           cbn -[Nat.ltb]. close_pass.
           right. right. left. eexists. reflexivity.
      * rewrite Hc. clear Hc.
        destruct (handleResponse resp
                    (record_event (NetworkCall (call_of method body url timeout hs)) w0))
          as [o w2] eqn:Hr.
        cbn [fst]. intros H.
        assert (Hev : exists evs,
                  trace (record_event (NetworkCall (call_of method body url timeout hs)) w0)
                    = trace w ++ evs /\
                  network_calls evs = 1%nat /\ sleeps_of evs = [] /\
                  calls_of evs = [call_of method body url timeout hs]).
        { eexists (pre ++ [_]). split.
          { unfold record_event. cbn [trace]. rewrite Hpre, <- !app_assoc. reflexivity. }
          rewrite network_calls_app, sleeps_of_app, calls_of_app, Np, Sp, Cp.
          repeat split. }
        destruct Hev as (evs & Htr & Hn & Hs & Hcalls).
        destruct o as [data | t].
        -- injection H as <- <-. exists evs. rewrite Hn, Hs, Hcalls. cbn -[Nat.ltb].
           close_pass.
        -- pose proof (handleResponse_thrown _ _ _ _ Hr) as Ht.
           destruct (is_AbortError t) eqn:Ea.
           { injection H as <- <-. exists evs. rewrite Hn, Hs, Hcalls. cbn -[Nat.ltb].
             close_pass. right. left. reflexivity. }
           destruct (has_code_RATE_LIMITED t && (attempt <? M)%nat) eqn:Er;
             injection H as <- <-; exists evs; rewrite Hn, Hs, Hcalls; cbn -[Nat.ltb].
           { apply andb_prop in Er. destruct Er as [_ Er].
             close_pass. apply Nat.ltb_lt. exact Er. }
           close_pass.
           destruct t as [e | e]; [| exact I]. destruct Ht as [Hst Hok].
           right. right. right. exists (status resp). split; [exact Hst|].
           split; [apply Z.eqb_neq; exact Es |].
           unfold ok in Hok. intros [H1 H2].
           apply Z.leb_le in H1, H2. rewrite H1, H2 in Hok. discriminate.
    + rewrite Hc. clear Hc. intros H. injection H as <- <-.
      eexists (pre ++ [_]). split.
      { unfold record_event. cbn [trace]. rewrite Hpre, <- !app_assoc. reflexivity. }
      rewrite network_calls_app, sleeps_of_app, calls_of_app, Np, Sp, Cp.
      cbn -[Nat.ltb]. close_pass.
      destruct (is_abort e); [right; left; reflexivity | exact I].
  - rewrite Hc. clear Hc. intros H. injection H as <- <-.
    destruct (buildHeaders_quiet _ _ _ _ _ Hh) as (pre & Hpre & Fpre).
    destruct (quiet_events _ Fpre) as (Np & Sp & Cp).
    exists pre. rewrite Np, Sp, Cp. cbn -[Nat.ltb]. close_pass.
    destruct (buildHeaders_thrown _ _ _ _ Hh) as [-> | (e & ->)];
      [left; reflexivity | exact I].
Qed.

(** The loop from pass [attempt] on, with [k] passes left. *)
Lemma request_loop_events url timeout M k : forall attempt lastError w r w1,
  (attempt + k = S M)%nat ->
  request_loop h env net method endpoint url config body timeout M k attempt lastError w
    = (r, w1) ->
  exists evs,
    trace w1 = trace w ++ evs /\
    (network_calls evs <= k)%nat /\
    (length (sleeps_of evs) <= M - attempt)%nat /\
    (length (sleeps_of evs) <= network_calls evs)%nat /\
    Forall (fun ms => (ms <= 30000)%Q) (sleeps_of evs) /\
    Forall (fun c => c = call_of method body url timeout (fc_headers c)) (calls_of evs) /\
    ((attempt <= M)%nat ->
     match r with
     | Return _ => True
     | Throw t => thrown_by_client endpoint method t
     end).
Proof.
  induction k as [|k IH]; intros attempt lastError w r w1 Hk.
  - cbn [request_loop]. intros H. injection H as _ <-. exists [].
    rewrite app_nil_r. cbn. repeat split; try lia; constructor.
  - cbn [request_loop]. unfold bind at 1.
    destruct (request_attempt h env net method endpoint url config body timeout M attempt
                lastError w) as [[[data | le] | t] w0] eqn:Ha;
      destruct (request_attempt_events _ _ _ _ _ _ _ _ Ha)
        as (evs & Htr & Hn & Hsn & Hs & Hcap & Hshape & Hend).
    + intros H. injection H as <- <-. destruct Hend as [Hone Hnone].
      exists evs. rewrite Hnone in *. cbn [length]. repeat split; try assumption; lia.
    + destruct Hend as (Hlt & Hone). intros Hloop.
      destruct (IH (S attempt) le w0 r w1 ltac:(lia) Hloop)
        as (evs' & Htr' & Hn' & Hs' & Hsn' & Hcap' & Hshape' & Hend').
      exists (evs ++ evs'). split; [rewrite Htr', Htr; now rewrite app_assoc|].
      rewrite network_calls_app, sleeps_of_app, calls_of_app, length_app.
      apply Nat.ltb_lt in Hlt as Hb. rewrite Hb in Hs.
      repeat split; try lia; try (apply Forall_app; split; assumption).
      intros _. apply Hend'. lia.
    + intros H. injection H as <- <-. destruct Hend as [Ht Hnone].
      exists evs. rewrite Hnone in *. cbn [length].
      repeat split; try assumption; try lia. intros _. exact Ht.
Qed.

Lemma getApiBaseUrl_thrown w t w1 :
  getApiBaseUrl h env w = (Throw t, w1) ->
  w1 = w /\ exists msg, t = new_Error msg /\ startsWith msg "SECURITY ERROR: " = true.
Proof.
  unfold getApiBaseUrl.
  destruct ((match NEXT_PUBLIC_API_URL env with Some u => u | None => "" end) =? "")%string.
  - destruct (isProduction env).
    + intros H. injection H as <- <-. split; [reflexivity|]. eexists. split; reflexivity.
    + unfold bind, console_warn, emit, ret. discriminate.
  - unfold try_catch.
    destruct (URL_parse h _) as [url|]; cbn [throw instanceof_TypeError err_name String.eqb].
    + destruct (isProduction env && negb (url_protocol url =? "https:"))%bool.
      * cbn. intros H. injection H as <- <-. split; [reflexivity|].
        eexists. split; reflexivity.
      * destruct (isProduction env && _)%bool; cbn; [| discriminate].
        intros H. injection H as <- <-. split; [reflexivity|].
        eexists. split; reflexivity.
    + cbn. intros H. injection H as <- <-. split; [reflexivity|].
      eexists. split; reflexivity.
Qed.

Lemma getBaseUrl_thrown w t w1 :
  getBaseUrl h env w = (Throw t, w1) -> w1 = w /\ exists e, t = ThrowError e.
Proof.
  unfold getBaseUrl. destruct (baseUrl (this w)); [discriminate|].
  unfold bind at 1. unfold getApiBaseUrlLazy.
  destruct (cachedApiBaseUrl w); [discriminate|].
  unfold bind at 1.
  destruct (getApiBaseUrl h env w) as [[u | t0] w0] eqn:E; [discriminate|].
  intros H. injection H as <- <-.
  destruct (getApiBaseUrl_thrown _ _ _ E) as (-> & msg & -> & _).
  split; [reflexivity | eexists; reflexivity].
Qed.

Lemma buildUrl_thrown params w t w1 :
  buildUrl h env endpoint params w = (Throw t, w1) -> exists e, t = ThrowError e.
Proof.
  unfold buildUrl. unfold bind at 1.
  destruct ((if startsWith endpoint "http" then ret endpoint
             else (b <- getBaseUrl h env;; ret (b ++ endpoint)%string)) w)
    as [[target | t0] w0] eqn:E.
  - unfold bind, new_URL. destruct (URL_parse h target); [discriminate|].
    intros H. injection H as <- _. eexists. reflexivity.
  - intros H. injection H as <- _.
    destruct (startsWith endpoint "http"); [discriminate|].
    unfold bind in E. destruct (getBaseUrl h env w) as [[b | t1] w2] eqn:Eb; [discriminate|].
    injection E as <- _. destruct (getBaseUrl_thrown _ _ _ Eb) as (_ & e & ->).
    eexists. reflexivity.
Qed.

Lemma request_events w r w' :
  request h env net method endpoint config body w = (r, w') ->
  exists evs url,
    trace w' = trace w ++ evs /\
    (network_calls evs <= S (maxRetries_of config))%nat /\
    (length (sleeps_of evs) <= maxRetries_of config)%nat /\
    (length (sleeps_of evs) <= network_calls evs)%nat /\
    Forall (fun ms => (ms <= 30000)%Q) (sleeps_of evs) /\
    Forall (fun c => c = call_of method body url (effective_timeout (this w) config)
                                (fc_headers c)) (calls_of evs) /\
    match r with
    | Return _ => True
    | Throw t => thrown_by_client endpoint method t
    end.
Proof.
  unfold request. fold (params_of config). fold (effective_timeout (this w) config).
  unfold bind at 1.
  destruct (buildUrl h env endpoint (params_of config) w) as [[url | t] w0] eqn:Hu;
    destruct (buildUrl_emits _ _ _ _ _ _ _ Hu) as (pre & Hpre & Fpre);
    assert (Fq : Forall is_quiet pre)
      by (eapply Forall_impl; [| exact Fpre]; intros []; simpl; tauto);
    destruct (quiet_events _ Fq) as (Np & Sp & Cp).
  - intros Hloop.
    destruct (request_loop_events url _ (maxRetries_of config) (S (maxRetries_of config))
                0%nat None w0 r w' eq_refl Hloop)
      as (evs & Htr & Hn & Hs & Hsn & Hcap & Hshape & Hend).
    exists (pre ++ evs), url. split; [rewrite Htr, Hpre; now rewrite app_assoc|].
    rewrite network_calls_app, sleeps_of_app, calls_of_app, Np, Sp, Cp. cbn [app length Nat.add].
    repeat split; try assumption; try lia. apply Hend. lia.
  - intros H. injection H as <- <-. exists pre, ""%string.
    rewrite Np, Sp, Cp. cbn. repeat split; try assumption; try lia; try constructor.
    destruct (buildUrl_thrown _ _ _ _ Hu) as (e & ->). exact I.
Qed.

(** A request that returns has called the network. *)
Lemma request_loop_returned url timeout M k : forall attempt lastError w v w1,
  request_loop h env net method endpoint url config body timeout M k attempt lastError w
    = (Return v, w1) ->
  exists evs, trace w1 = trace w ++ evs /\ (1 <= network_calls evs)%nat.
Proof.
  induction k as [|k IH]; intros attempt lastError w v w1; cbn [request_loop].
  - discriminate.
  - unfold bind at 1.
    destruct (request_attempt h env net method endpoint url config body timeout M attempt
                lastError w) as [[[data | le] | t] w0] eqn:Ha;
      [| | discriminate];
      destruct (request_attempt_events _ _ _ _ _ _ _ _ Ha)
        as (evs & Htr & _ & _ & _ & _ & _ & Hend).
    + intros H. injection H as _ <-. destruct Hend as [Hone _].
      exists evs. split; [exact Htr | lia].
    + intros Hloop. destruct (IH _ _ _ _ _ Hloop) as (evs' & Htr' & Hn').
      exists (evs ++ evs'). split; [rewrite Htr', Htr; now rewrite app_assoc|].
      rewrite network_calls_app. lia.
Qed.

Lemma request_summary w r w' :
  request h env net method endpoint config body w = (r, w') ->
  exists evs url,
    trace w' = trace w ++ evs /\
    (network_calls evs <= 4)%nat /\
    Forall (fun c => fc_url c = url /\ fc_method c = method /\ fc_body c = sent_body body)
           (calls_of evs) /\
    match r with
    | Return _ => (1 <= network_calls evs)%nat
    | Throw t => thrown_by_client endpoint method t
    end.
Proof.
  intros Hr.
  destruct (request_events _ _ _ Hr) as (evs & url & Htr & Hn & _ & _ & _ & Hshape & Ht).
  exists evs, url. split; [exact Htr | split; [| split]].
  - pose proof (maxRetries_of_cases config) as Hm. destruct (skips_retry config); lia.
  - eapply Forall_impl; [| exact Hshape]. intros c ->. repeat split.
  - destruct r as [v | t]; [| exact Ht].
    revert Hr. unfold request. fold (params_of config). unfold bind at 1.
    destruct (buildUrl h env endpoint (params_of config) w) as [[u | t] w0] eqn:Hu;
      [| discriminate].
    intros Hloop. destruct (request_loop_returned _ _ _ _ _ _ _ _ _ Hloop)
      as (evs' & Htr' & Hn').
    destruct (buildUrl_emits _ _ _ _ _ _ _ Hu) as (pre & Hpre & _).
    rewrite Htr', Hpre, <- app_assoc in Htr. apply app_inv_head in Htr. subst evs.
    rewrite network_calls_app. lia.
Qed.

(** In production a state-changing request without an anti-forgery token
    ends before the network is called. *)
Lemma request_blocked w :
  state_changing method = true -> isProduction env = true ->
  no_csrf_token (att_document (net 0%nat)) = true ->
  exists t w',
    request h env net method endpoint config body w = (Throw t, w') /\
    network_calls (trace w') = network_calls (trace w).
Proof.
  intros Hm Hprod Hdoc.
  destruct (buildUrl h env endpoint (params_of config) w) as [[url | t] w0] eqn:Hu.
  - destruct (request_unfold h env net method endpoint config body w url w0 Hu)
      as (timeout & Hreq).
    destruct (buildHeaders_csrf_production h env method config (net 0%nat) w0 Hm Hdoc Hprod)
      as (w1 & Hh).
    exists (ThrowApiError CSRF_TOKEN_MISSING), w1. split.
    + rewrite Hreq. cbn [request_loop]. unfold bind at 1. unfold request_attempt.
      unfold bind at 1. rewrite Hh. reflexivity.
    + rewrite (emits_network_calls _ _ _ _ (buildHeaders_emits _ _ _ _ _) Hh).
      apply (buildUrl_network _ _ _ _ _ _ _ Hu).
  - exists t, w0. split.
    + unfold request. fold (params_of config). unfold bind at 1. now rewrite Hu.
    + apply (buildUrl_network _ _ _ _ _ _ _ Hu).
Qed.

(** X11.  Whatever the network answers, a request makes at
    most [maxRetries + 1] network calls (4, or 1 with [skipRateLimitRetry])
    and sleeps at most [maxRetries] times, never more often than it called
    the network and never longer than 30 seconds at a time.  All its calls
    go to the URL built once before the first pass, with the same method, the
    same body (none when the body given is falsy) and the same timeout: the
    one of the configuration unless it is absent or zero, the client's
    default otherwise. *)
Theorem request_is_bounded (w : World) :
  let w' := snd (request h env net method endpoint config body w) in
  exists evs url,
    trace w' = trace w ++ evs /\
    (network_calls evs <= S (maxRetries_of config))%nat /\
    (S (maxRetries_of config) = if skips_retry config then 1 else 4)%nat /\
    (length (sleeps_of evs) <= maxRetries_of config)%nat /\
    (length (sleeps_of evs) <= network_calls evs)%nat /\
    Forall (fun ms => (ms <= 30000)%Q) (sleeps_of evs) /\
    Forall (fun c => fc_url c = url /\ fc_method c = method /\
                     fc_body c = sent_body body /\
                     fc_timeout c = effective_timeout (this w) config) (calls_of evs).
Proof.
  cbv zeta.
  destruct (request h env net method endpoint config body w) as [r w'] eqn:Hr.
  destruct (request_events _ _ _ Hr) as (evs & url & Htr & Hn & Hs & Hsn & Hcap & Hshape & _).
  exists evs, url. cbn [snd]. repeat split; try assumption.
  - rewrite maxRetries_of_cases. destruct (skips_retry config); reflexivity.
  - eapply Forall_impl; [| exact Hshape]. intros c ->. repeat split.
Qed.

(** X12.  Without any assumption on the platform: a value
    thrown by a request is an instance of [Error] (configuration, URL,
    cookie, transport or body failure) or one of four ApiErrors, namely
    CSRF_TOKEN_MISSING, TIMEOUT, the client's own RATE_LIMITED, or the error
    of a response whose status is neither 429 nor a success.  In particular
    an ApiError with status 429 is always the client's RATE_LIMITED for this
    endpoint and method: the body of a 429 response is never read. *)
Theorem request_throws_classified (w : World) (t : Thrown) (w' : World) :
  request h env net method endpoint config body w = (Throw t, w') ->
  thrown_by_client endpoint method t /\
  (forall e, t = ThrowApiError e -> statusCode e = Some 429 ->
     code e = JStr "RATE_LIMITED" /\
     get_prop (details e) "endpoint" = JStr endpoint /\
     get_prop (details e) "method" = JStr method).
Proof.
  intros Hr.
  destruct (request_events _ _ _ Hr) as (evs & url & _ & _ & _ & _ & _ & _ & Ht).
  split; [exact Ht|].
  intros e -> H429. cbn in Ht.
  destruct Ht as [-> | [-> | [(ra & ->) | (s & Hs & Hn & _)]]]; try discriminate H429.
  - repeat split.
  - congruence.
Qed.

(** *** Recovery *)

Lemma throttled_pass url timeout M attempt lastError w r :
  headers_built h env net method config attempt ->
  att_fetch (net attempt) = Resolved r -> status r = 429 -> (attempt < M)%nat ->
  exists w1 evs,
    request_attempt h env net method endpoint url config body timeout M attempt lastError w
      = (Return (Continue (Some (RATE_LIMITED (hint_of h net attempt r) endpoint method))), w1)
    /\ trace w1 = trace w ++ evs /\
    network_calls evs = 1%nat /\
    sleeps_of evs = [backoff_of h net attempt].
Proof.
  intros Hb Hf Hs Hlt. destruct (Hb w) as (hs & w0 & Hh).
  pose proof (request_attempt_cases url timeout M attempt lastError w) as Hc.
  cbv zeta in Hc. rewrite Hh, Hf in Hc.
  apply Z.eqb_eq in Hs. rewrite Hs in Hc. apply Nat.ltb_lt in Hlt. rewrite Hlt in Hc.
  destruct (buildHeaders_quiet _ _ _ _ _ Hh) as (pre & Hpre & Fpre).
  destruct (quiet_events _ Fpre) as (Np & Sp & Cp).
  eexists. eexists (pre ++ [_; _; _]). split; [exact Hc|]. split.
  { unfold record_event. cbn [trace]. rewrite Hpre, <- !app_assoc. reflexivity. }
  rewrite network_calls_app, sleeps_of_app, Np, Sp. unfold backoff_of. rewrite Hf.
  split; reflexivity.
Qed.

Lemma success_pass url timeout M attempt lastError w r data :
  headers_built h env net method config attempt ->
  att_fetch (net attempt) = Resolved r -> ok r = true -> response_data r = Resolved data ->
  exists w1 evs,
    request_attempt h env net method endpoint url config body timeout M attempt lastError w
      = (Return (Returned data), w1) /\
    trace w1 = trace w ++ evs /\
    network_calls evs = 1%nat /\ sleeps_of evs = [].
Proof.
  intros Hb Hf Hok Hdata. destruct (Hb w) as (hs & w0 & Hh).
  pose proof (request_attempt_cases url timeout M attempt lastError w) as Hc.
  cbv zeta in Hc. rewrite Hh, Hf in Hc.
  assert (Hs : (status r =? 429)%Z = false).
  { unfold ok in Hok. apply andb_prop in Hok. destruct Hok as [_ H2].
    apply Z.leb_le in H2. apply Z.eqb_neq. lia. }
  rewrite Hs, handleResponse_pure, Hdata, Hok in Hc. cbn [fst] in Hc.
  destruct (buildHeaders_quiet _ _ _ _ _ Hh) as (pre & Hpre & Fpre).
  destruct (quiet_events _ Fpre) as (Np & Sp & Cp).
  eexists. eexists (pre ++ [_]). split; [exact Hc|]. split.
  { unfold record_event. cbn [trace]. rewrite Hpre, <- !app_assoc. reflexivity. }
  rewrite network_calls_app, sleeps_of_app, Np, Sp. split; reflexivity.
Qed.

Lemma throttled_passes url timeout M :
  forall k remaining attempt lastError w,
    (attempt + k <= M)%nat ->
    (forall i, (attempt <= i < attempt + k)%nat ->
       headers_built h env net method config i /\ answered_429 net i) ->
    exists lastError' w' evs,
      request_loop h env net method endpoint url config body timeout M (k + remaining)
        attempt lastError w
      = request_loop h env net method endpoint url config body timeout M remaining
          (attempt + k) lastError' w' /\
      trace w' = trace w ++ evs /\
      network_calls evs = k /\
      sleeps_of evs = map (backoff_of h net) (seq attempt k).
Proof.
  induction k as [|k IH]; intros remaining attempt lastError w Hk Hall.
  - exists lastError, w, []. rewrite !Nat.add_0_r, app_nil_r. repeat split.
  - destruct (Hall attempt ltac:(lia)) as (Hb & r & Hf & Hs).
    destruct (throttled_pass url timeout M attempt lastError w r Hb Hf Hs ltac:(lia))
      as (w1 & evs & Ha & Htr & Hn & Hsl).
    destruct (IH remaining (S attempt)
                (Some (RATE_LIMITED (hint_of h net attempt r) endpoint method)) w1
                ltac:(lia)) as (le & w' & evs' & Hloop & Htr' & Hn' & Hsl').
    { intros i Hi. apply Hall. lia. }
    exists le, w', (evs ++ evs'). split; [| split; [| split]].
    + cbn [Nat.add request_loop]. unfold bind at 1. rewrite Ha, Hloop. f_equal. lia.
    + rewrite Htr', Htr. now rewrite app_assoc.
    + rewrite network_calls_app. lia.
    + rewrite sleeps_of_app, Hsl, Hsl'. reflexivity.
Qed.

(** X13.  When the first [k] passes ([k] at most [maxRetries]) are
    answered 429 and the next one is answered with a success status whose
    body can be read, the request returns that body (decoded JSON when the
    content type says so, the text otherwise) after exactly [k + 1] network
    calls and [k] sleeps, the sleep after pass [i] being the backoff delay
    computed from that pass's Retry-After hint. *)
Theorem request_recovers (w : World) (url : string) (w0 : World) (k : nat)
    (r : Response) (data : JsVal) :
  buildUrl h env endpoint (params_of config) w = (Return url, w0) ->
  (k <= maxRetries_of config)%nat ->
  (forall i, (i < k)%nat -> headers_built h env net method config i /\ answered_429 net i) ->
  headers_built h env net method config k ->
  att_fetch (net k) = Resolved r -> ok r = true -> response_data r = Resolved data ->
  exists w' evs,
    request h env net method endpoint config body w = (Return data, w') /\
    trace w' = trace w ++ evs /\
    network_calls evs = S k /\
    sleeps_of evs = map (backoff_of h net) (seq 0 k).
Proof.
  intros Hu Hk Hpre Hb Hf Hok Hdata.
  destruct (request_unfold h env net method endpoint config body w url w0 Hu)
    as (timeout & Hreq).
  destruct (buildUrl_emits _ _ _ _ _ _ _ Hu) as (pre & Hpre0 & Fpre).
  assert (Fq : Forall is_quiet pre)
    by (eapply Forall_impl; [| exact Fpre]; intros []; simpl; tauto).
  destruct (quiet_events _ Fq) as (Np & Sp & _).
  destruct (throttled_passes url timeout (maxRetries_of config) k
              (S (maxRetries_of config - k)) 0%nat None w0 ltac:(lia))
    as (le & w1 & evs1 & Hloop & Htr1 & Hn1 & Hs1).
  { intros i Hi. apply Hpre. lia. }
  destruct (success_pass url timeout (maxRetries_of config) k le w1 r data Hb Hf Hok Hdata)
    as (w2 & evs2 & Ha & Htr2 & Hn2 & Hs2).
  exists w2, (pre ++ evs1 ++ evs2). split; [| split; [| split]].
  - rewrite Hreq.
    replace (S (maxRetries_of config)) with (k + S (maxRetries_of config - k))%nat by lia.
    rewrite Hloop. cbn [Nat.add request_loop]. unfold bind at 1. rewrite Ha. reflexivity.
  - rewrite Htr2, Htr1, Hpre0. now rewrite <- !app_assoc.
  - rewrite !network_calls_app. lia.
  - rewrite !sleeps_of_app, Sp, Hs1, Hs2. cbn [app]. now rewrite app_nil_r.
Qed.

(** *** Raw exceptions *)






End Pass.


Lemma request_throws_classified_witness :
  exists e w',
    request Sample.host Sample.development Sample.always_throttled "GET" "/patients" None None
      Sample.world0 = (Throw (ThrowApiError e), w') /\
    code e = JStr "RATE_LIMITED" /\
    get_prop (details e) "endpoint" = JStr "/patients" /\
    get_prop (details e) "method" = JStr "GET".
Proof.
  pose (e := RATE_LIMITED (Some 2) "/patients" "GET").
  pose (w' := snd (request Sample.host Sample.development Sample.always_throttled
                     "GET" "/patients" None None Sample.world0)).
  assert (E : request Sample.host Sample.development Sample.always_throttled
                "GET" "/patients" None None Sample.world0
              = (Throw (ThrowApiError e), w')) by reflexivity.
  destruct (request_throws_classified Sample.host Sample.development Sample.always_throttled
              "GET" "/patients" None None Sample.world0 _ _ E) as [_ H].
  exists e, w'. split; [exact E|]. exact (H e eq_refl eq_refl).
Defined.

Lemma request_recovers_witness :
  exists w' evs,
    request Sample.host Sample.development Cases.throttled_then_fine "GET" "/patients/42"
      None None Sample.world0 = (Return Cases.ada, w') /\
    trace w' = trace Sample.world0 ++ evs /\
    network_calls evs = 2%nat /\
    sleeps_of evs = [backoff_of Sample.host Cases.throttled_then_fine 0].
Proof.
  apply (request_recovers Sample.host Sample.development Cases.throttled_then_fine
           "GET" "/patients/42" None None Sample.world0
           "http://localhost:5000/patients/42"
           (snd (buildUrl Sample.host Sample.development "/patients/42" None Sample.world0))
           1%nat (Sample.json_response 200 "OK" None Cases.ada) Cases.ada).
  - reflexivity.
  - cbn. lia.
  - intros i Hi. assert (i = 0%nat) as -> by lia. split.
    + intros w. eexists. eexists. reflexivity.
    + eexists. split; reflexivity.
  - intros w. eexists. eexists. reflexivity.
  - reflexivity.
  - reflexivity.
  - reflexivity.
Defined.

(** *** Base URL *)

Section BaseUrl.
Variable h : Host.
Variable env : ProcessEnv.

(** X14.  A base URL that [getApiBaseUrl] returns is the
    configured one, unchanged and parsed by the platform, and it leaves the
    world as it was; in production it uses https and its host passes the
    checks for local and private addresses.  Only without a configured value
    and outside production is the development default returned instead, with
    one warning.  Conversely, a configured value that parses (and, in
    production, uses https with a host passing the checks) is returned.
    Every failure is an [Error] whose message begins with SECURITY ERROR, the
    [TypeError] of the URL parser included, and changes nothing. *)
Theorem getApiBaseUrl_validates (w : World) :
  (forall u w1,
     getApiBaseUrl h env w = (Return u, w1) ->
     (NEXT_PUBLIC_API_URL env = Some u /\ u <> ""%string /\ w1 = w /\
      exists url,
        URL_parse h u = Some url /\
        (isProduction env = true ->
         url_protocol url = "https:"%string /\
         local_or_private (url_hostname url) = false)) \/
     (isProduction env = false /\
      (NEXT_PUBLIC_API_URL env = None \/ NEXT_PUBLIC_API_URL env = Some ""%string) /\
      u = "http://localhost:5000"%string /\
      exists warning, trace w1 = trace w ++ [ConsoleWarn warning])) /\
  (forall u url,
     NEXT_PUBLIC_API_URL env = Some u -> u <> ""%string -> URL_parse h u = Some url ->
     (isProduction env = true ->
      url_protocol url = "https:"%string /\ local_or_private (url_hostname url) = false) ->
     getApiBaseUrl h env w = (Return u, w)) /\
  (forall t w1,
     getApiBaseUrl h env w = (Throw t, w1) ->
     w1 = w /\ exists msg, t = new_Error msg /\ startsWith msg "SECURITY ERROR: " = true).
Proof.
  split; [| split].
  - intros u w1. unfold getApiBaseUrl.
    destruct (NEXT_PUBLIC_API_URL env) as [configured|] eqn:Ec.
    + destruct (configured =? "")%string eqn:Ee.
      * apply String.eqb_eq in Ee. subst configured.
        destruct (isProduction env); [discriminate|].
        unfold bind, console_warn, emit, ret. intros H. injection H as <- <-.
        right. repeat split; auto. eexists. reflexivity.
      * unfold try_catch. destruct (URL_parse h configured) as [url|] eqn:Ep.
        -- change (existsb _ _ || _ || _ || (_ || _))%bool
             with (local_or_private (url_hostname url)).
           destruct (isProduction env) eqn:Eprod; cbn [andb].
           ++ destruct (negb (url_protocol url =? "https:"))%string eqn:Eh; [discriminate|].
              destruct (local_or_private (url_hostname url)) eqn:El; [discriminate|].
              cbn. intros H. injection H as <- <-. left.
              apply String.eqb_neq in Ee. repeat split; auto.
              exists url. split; [exact Ep|]. intros _. split; [| exact El].
              apply negb_false_iff, String.eqb_eq in Eh. exact Eh.
           ++ cbn. intros H. injection H as <- <-. left.
              apply String.eqb_neq in Ee. repeat split; auto.
              exists url. split; [exact Ep | discriminate].
        -- cbn. discriminate.
    + cbn [String.eqb]. destruct (isProduction env); [discriminate|].
      unfold bind, console_warn, emit, ret. intros H. injection H as <- <-.
      right. repeat split; auto. eexists. reflexivity.
  - intros u url Hc Hne Hp Hprod. unfold getApiBaseUrl. rewrite Hc.
    apply String.eqb_neq in Hne. rewrite Hne. unfold try_catch. rewrite Hp.
    change (existsb _ _ || _ || _ || (_ || _))%bool
      with (local_or_private (url_hostname url)).
    destruct (isProduction env); cbn [andb]; [| reflexivity].
    destruct (Hprod eq_refl) as [-> ->]. reflexivity.
  - intros t w1. apply getApiBaseUrl_thrown.
Qed.

(** X15.  Once resolved, the base URL is kept: by the module
    for every client, and by the client itself.  A later resolution returns
    the kept value without validating or warning again, whatever the
    environment then says.  A failed resolution keeps nothing, so the next
    one validates afresh.  A client built with an explicit base URL uses it
    as it is: it is never validated. *)
Theorem base_url_is_cached (w : World) :
  (forall u w1,
     getApiBaseUrlLazy h env w = (Return u, w1) ->
     cachedApiBaseUrl w1 = Some u /\
     forall h' env', getApiBaseUrlLazy h' env' w1 = (Return u, w1)) /\
  (forall t w1, getApiBaseUrlLazy h env w = (Throw t, w1) -> w1 = w) /\
  (forall u w1,
     getBaseUrl h env w = (Return u, w1) ->
     baseUrl (this w1) = Some u /\
     forall h' env', getBaseUrl h' env' w1 = (Return u, w1)) /\
  (forall t w1, getBaseUrl h env w = (Throw t, w1) -> w1 = w) /\
  (forall u, baseUrl (this w) = Some u -> getBaseUrl h env w = (Return u, w)).
Proof.
  assert (Hlazy : forall u w1,
            getApiBaseUrlLazy h env w = (Return u, w1) ->
            cachedApiBaseUrl w1 = Some u /\
            forall h' env', getApiBaseUrlLazy h' env' w1 = (Return u, w1)).
  { intros u w1. unfold getApiBaseUrlLazy at 1.
    destruct (cachedApiBaseUrl w) as [c|] eqn:Ec.
    - intros H. injection H as <- <-. split; [exact Ec|].
      intros h' env'. unfold getApiBaseUrlLazy. now rewrite Ec.
    - unfold bind at 1. destruct (getApiBaseUrl h env w) as [[u0 | t] w0]; [| discriminate].
      unfold bind, set_cachedApiBaseUrl, ret. intros H. injection H as <- <-.
      split; [reflexivity|]. intros h' env'. reflexivity. }
  assert (Hlazy_t : forall t w1, getApiBaseUrlLazy h env w = (Throw t, w1) -> w1 = w).
  { intros t w1. unfold getApiBaseUrlLazy.
    destruct (cachedApiBaseUrl w); [discriminate|].
    unfold bind at 1. destruct (getApiBaseUrl h env w) as [[u0 | t0] w0] eqn:E;
      [discriminate|].
    intros H. injection H as _ <-. now destruct (getApiBaseUrl_thrown h env _ _ _ E). }
  split; [exact Hlazy | split; [exact Hlazy_t | split; [| split]]].
  - intros u w1. unfold getBaseUrl at 1.
    destruct (baseUrl (this w)) as [b|] eqn:Eb.
    + intros H. injection H as <- <-. split; [exact Eb|].
      intros h' env'. unfold getBaseUrl. now rewrite Eb.
    + unfold bind at 1. destruct (getApiBaseUrlLazy h env w) as [[u0 | t] w0];
        [| discriminate].
      unfold bind, set_baseUrl, ret. intros H. injection H as <- <-.
      split; [reflexivity|]. intros h' env'. reflexivity.
  - intros t w1 H. now destruct (getBaseUrl_thrown h env _ _ _ H).
  - intros u Hu. unfold getBaseUrl. now rewrite Hu.
Qed.

(** *** Authorization *)

Lemma filter_none {A} (f : A -> bool) (l : list A) :
  existsb f l = false -> filter f l = [].
Proof.
  induction l as [|x l IH]; [reflexivity|]. cbn [existsb filter].
  intros H. apply orb_false_iff in H. destruct H as [-> H]. exact (IH H).
Qed.

Lemma filter_removed {A} (f : A -> bool) (l : list A) :
  filter f (filter (fun x => negb (f x)) l) = [].
Proof.
  induction l as [|x l IH]; [reflexivity|]. cbn [filter].
  destruct (f x) eqn:E; cbn [negb filter]; [exact IH | now rewrite E].
Qed.

Lemma name_is_self n v : name_is n (toLowerCase n, v) = true.
Proof. unfold name_is. cbn [fst]. apply String.eqb_refl. Qed.

Lemma Headers_get_set n v hs : Headers_get n (Headers_set n v hs) = Some v.
Proof.
  unfold Headers_get, Headers_set. destruct (existsb (name_is n) hs) eqn:E.
  - assert (H : filter (name_is n) (replace_first n v hs) = [(toLowerCase n, v)]).
    { induction hs as [|e hs IH]; [discriminate|]. cbn [replace_first existsb] in *.
      destruct (name_is n e) eqn:Ee.
      - cbn [filter]. now rewrite name_is_self, filter_removed.
      - cbn [filter orb] in *. rewrite Ee. exact (IH E). }
    rewrite H. reflexivity.
  - unfold Headers_append. rewrite filter_app, (filter_none _ _ E). cbn [filter app].
    rewrite name_is_self. reflexivity.
Qed.

(** X16.  Unless the request was made with
    [withAuth: false], the token is asked for once per set of headers.  When
    it is obtained, the headers carry [Authorization: Bearer <token>],
    replacing whatever the caller supplied under that name; when it cannot
    be obtained, one warning is logged and the headers are built without it,
    so the request still goes out.  With [withAuth: false] no token is asked
    for and the caller's own Authorization header, if any, is left alone. *)
Theorem authorization_header (a : Attempt) (config : option ApiRequestConfig)
    (method : option string) (w : World) (hs : Headers) (w1 : World) :
  buildHeaders h env a config method w = (Return hs, w1) ->
  exists evs,
    trace w1 = trace w ++ evs /\
    if wants_auth config then
      token_requests evs = 1%nat /\
      match att_token a with
      | Resolved token =>
          Headers_get "Authorization" hs = Some ("Bearer " ++ token)%string /\
          ~ In (ConsoleWarn "Failed to get access token:") evs
      | Rejected _ =>
          Headers_get "Authorization" hs
            = Headers_get "Authorization" (initial_headers config) /\
          In (ConsoleWarn "Failed to get access token:") evs
      end
    else
      token_requests evs = 0%nat /\
      Headers_get "Authorization" hs = Headers_get "Authorization" (initial_headers config).
Proof.
  unfold buildHeaders. fold (wants_auth config). unfold bind at 1.
  set (first := if wants_auth config then _ else _).
  assert (Hfirst :
    first w =
    if wants_auth config then
      match att_token a with
      | Resolved token =>
          (Return (Headers_set "Authorization" ("Bearer " ++ token) (initial_headers config)),
           record_event TokenRequested w)
      | Rejected _ =>
          (Return (initial_headers config),
           record_event (ConsoleWarn "Failed to get access token:")
             (record_event TokenRequested w))
      end
    else (Return (initial_headers config), w)).
  { subst first. destruct (wants_auth config); [| reflexivity].
    unfold try_catch, bind, Client.getAccessToken, emit, await, console_warn.
    destruct (att_token a); reflexivity. }
  rewrite Hfirst. clear Hfirst first.
  assert (Hsecond : forall hs0 w0,
    match method with
    | Some m =>
        if negb (m =? "") && state_changing m then
          csrfToken <- getCsrfToken h (att_document a) ;;
          if negb (match csrfToken with Some t => t | None => "" end =? "") then
            ret (Headers_set "X-CSRF-Token"
                   (match csrfToken with Some t => t | None => "" end) hs0)
          else
            if isProduction env then throw (ThrowApiError CSRF_TOKEN_MISSING)
            else console_warn (csrf_missing_warning m) ;;; ret hs0
        else ret hs0
    | None => ret hs0
    end w0 = (Return hs, w1) ->
    Headers_get "Authorization" hs = Headers_get "Authorization" hs0 /\
    exists evs, trace w1 = trace w0 ++ evs /\ token_requests evs = 0%nat /\
                ~ In (ConsoleWarn "Failed to get access token:") evs).
  { intros hs0 w0. destruct method as [m|].
    - destruct (negb (m =? "") && state_changing m).
      + unfold bind at 1.
        destruct (getCsrfToken h (att_document a) w0) as [[o | t] w2] eqn:Ec; [| discriminate].
        assert (w2 = w0).
        { revert Ec. unfold getCsrfToken.
          destruct (meta_csrf_token (att_document a)); [now intros H; injection H|].
          destruct (match_XSRF_TOKEN _); [| now intros H; injection H].
          destruct (decodeURIComponent h _); [now intros H; injection H | discriminate]. }
        subst w2.
        destruct (negb _).
        * intros H. injection H as <- <-. split.
          -- apply Headers_get_set_other. reflexivity.
          -- exists []. rewrite app_nil_r. repeat split. intros [].
        * destruct (isProduction env); [discriminate|].
          unfold bind, console_warn, emit, ret. intros H. injection H as <- <-.
          split; [reflexivity|]. eexists [_]. repeat split.
          intros [H | []]. discriminate H.
      + intros H. injection H as <- <-. split; [reflexivity|].
        exists []. rewrite app_nil_r. repeat split. intros [].
    - intros H. injection H as <- <-. split; [reflexivity|].
      exists []. rewrite app_nil_r. repeat split. intros []. }
  destruct (wants_auth config).
  - destruct (att_token a) as [token | e]; intros H;
      destruct (Hsecond _ _ H) as (Hget & evs & Htr & Hn & Hno).
    + exists (TokenRequested :: evs). split.
      { rewrite Htr. unfold record_event. cbn [trace]. now rewrite <- app_assoc. }
      split; [cbn; unfold token_requests in Hn; now rewrite Hn|].
      split; [rewrite Hget; apply Headers_get_set|].
      intros [Hx | Hx]; [discriminate Hx | exact (Hno Hx)].
    + exists (TokenRequested :: ConsoleWarn "Failed to get access token:" :: evs). split.
      { rewrite Htr. unfold record_event. cbn [trace]. now rewrite <- !app_assoc. }
      split; [cbn; unfold token_requests in Hn; now rewrite Hn|].
      split; [exact Hget | right; left; reflexivity].
  - intros H. destruct (Hsecond _ _ H) as (Hget & evs & Htr & Hn & _).
    exists evs. repeat split; assumption.
Qed.

End BaseUrl.

Lemma authorization_header_witness :
  (exists hs w1,
     buildHeaders Sample.host Sample.development (Cases.fine 0) None (Some "GET")
       Sample.world0 = (Return hs, w1) /\
     Headers_get "Authorization" hs = Some "Bearer token"%string) /\
  (exists hs w1,
     buildHeaders Sample.host Sample.development Cases.without_token None (Some "GET")
       Sample.world0 = (Return hs, w1) /\
     Headers_get "Authorization" hs = None /\
     In (ConsoleWarn "Failed to get access token:") (trace w1)).
Proof.
  split.
  - pose (run := buildHeaders Sample.host Sample.development (Cases.fine 0) None
                   (Some "GET"%string) Sample.world0).
    pose (hs := match fst run with Return hs => hs | Throw _ => [] end).
    assert (E : run = (Return hs, snd run)) by reflexivity.
    destruct (authorization_header Sample.host Sample.development (Cases.fine 0) None
                (Some "GET"%string) Sample.world0 hs (snd run) E) as (evs & _ & _ & H & _).
    exists hs, (snd run). split; [exact E | exact H].
  - pose (run := buildHeaders Sample.host Sample.development Cases.without_token None
                   (Some "GET"%string) Sample.world0).
    pose (hs := match fst run with Return hs => hs | Throw _ => [] end).
    assert (E : run = (Return hs, snd run)) by reflexivity.
    destruct (authorization_header Sample.host Sample.development Cases.without_token None
                (Some "GET"%string) Sample.world0 hs (snd run) E) as (evs & Htr & _ & H & Hw).
    exists hs, (snd run). split; [exact E | split; [exact H|]].
    rewrite Htr. apply in_or_app. right. exact Hw.
Defined.

(** *** Hosts refused in production *)

Lemma endsWith_suffix (s p : string) : endsWith (s ++ p)%string p = true.
Proof.
  induction s as [|c s IH]; cbn [String.append].
  - destruct p; cbn [endsWith]; now rewrite String.eqb_refl.
  - cbn [endsWith]. rewrite IH. apply orb_true_r.
Qed.

Lemma startsWith_prefix (p rest : string) : startsWith (p ++ rest)%string p = true.
Proof.
  induction p as [|c p IH]; cbn [String.append startsWith].
  - destruct rest; reflexivity.
  - now rewrite Ascii.eqb_refl, IH.
Qed.

Lemma toLowerCase_app (a b : string) :
  toLowerCase (a ++ b)%string = (toLowerCase a ++ toLowerCase b)%string.
Proof. induction a as [|c a IH]; [reflexivity|]. cbn. now rewrite IH. Qed.

Lemma last_char_differs (a b : string) (x y : ascii) :
  x <> y -> (a ++ String x "")%string <> (b ++ String y "")%string.
Proof.
  intros Hxy. revert b. induction a as [|c a IH]; intros [|d b]; cbn [String.append].
  - congruence.
  - destruct b; discriminate.
  - destruct a; discriminate.
  - intros H. injection H as _ H. exact (IH _ H).
Qed.

Lemma endsWith_inv (s p : string) :
  endsWith s p = true -> exists pre, s = (pre ++ p)%string.
Proof.
  induction s as [|c s IH]; cbn [endsWith].
  - rewrite orb_false_r. intros H. apply String.eqb_eq in H. exists ""%string. exact H.
  - intros H. apply orb_prop in H. destruct H as [H | H].
    + apply String.eqb_eq in H. exists ""%string. exact H.
    + destruct (IH H) as (pre & ->). exists (String c pre). reflexivity.
Qed.

(** X17.  The host checks of [getApiBaseUrl]
    are textual.  They catch every dotted quad of the private ranges of
    RFC 1918 and of the loopback range, every name ending in [.local], and
    also every name that merely begins with [fc] or [fd] in any letter case,
    address or not.  A bracketed IPv6 literal other than [[::1]] passes them
    all, so a unique-local or link-local IPv6 address written the way a URL
    writes it is not refused. *)
Theorem host_checks_are_textual :
  (forall a b c d,
     rfc1918 a b = true -> local_or_private (dotted a b c d) = true) /\
  (forall b c d, local_or_private (dotted 127 b c d) = true) /\
  (forall name, local_or_private (name ++ ".local")%string = true) /\
  (forall name,
     startsWith (toLowerCase name) "fc" = true \/ startsWith (toLowerCase name) "fd" = true ->
     local_or_private name = true) /\
  (forall address,
     address <> "::1"%string ->
     local_or_private ("[" ++ address ++ "]")%string = false).
Proof.
  split; [| split; [| split; [| split]]].
  - intros a b c d H. unfold local_or_private. cbv zeta.
    assert (H4 : privateIPv4Pattern (dotted a b c d) = true).
    { unfold rfc1918 in H. apply orb_prop in H. destruct H as [H | H];
        [apply orb_prop in H; destruct H as [H | H] |].
      - apply Z.eqb_eq in H. subst a. unfold privateIPv4Pattern.
        change (dotted 10 b c d)
          with ("10." ++ (String_of_Z b ++ "." ++ String_of_Z c ++ "." ++ String_of_Z d))%string.
        now rewrite startsWith_prefix.
      - apply andb_prop in H. destruct H as [H Hhi]. apply andb_prop in H.
        destruct H as [Ha Hlo]. apply Z.eqb_eq in Ha. subst a.
        apply Z.leb_le in Hlo, Hhi.
        assert (Hb : b = 16 \/ b = 17 \/ b = 18 \/ b = 19 \/ b = 20 \/ b = 21 \/ b = 22 \/
                     b = 23 \/ b = 24 \/ b = 25 \/ b = 26 \/ b = 27 \/ b = 28 \/ b = 29 \/
                     b = 30 \/ b = 31) by lia.
        repeat (destruct Hb as [-> | Hb]; [reflexivity|]).
        subst b. reflexivity.
      - apply andb_prop in H. destruct H as [Ha Hb].
        apply Z.eqb_eq in Ha, Hb. subst a b. unfold privateIPv4Pattern.
        change (dotted 192 168 c d)
          with ("192.168." ++ (String_of_Z c ++ "." ++ String_of_Z d))%string.
        rewrite (startsWith_prefix "192.168."). apply orb_true_r. }
    rewrite H4. cbn [orb]. apply orb_true_r.
  - intros b c d. unfold local_or_private. cbv zeta.
    change (dotted 127 b c d)
      with ("127." ++ (String_of_Z b ++ "." ++ String_of_Z c ++ "." ++ String_of_Z d))%string.
    rewrite (startsWith_prefix "127."). now rewrite orb_true_r.
  - intros name. unfold local_or_private. cbv zeta.
    rewrite endsWith_suffix. now rewrite orb_true_r.
  - intros name H. unfold local_or_private, privateIPv6Pattern. cbv zeta.
    destruct H as [-> | ->]; rewrite ?orb_true_r; reflexivity.
  - intros address Hne. unfold local_or_private. cbv zeta.
    assert (Hv : existsb (String.eqb ("[" ++ address ++ "]")%string) localhostVariants = false).
    { cbn [existsb localhostVariants String.append String.eqb Ascii.eqb Bool.eqb].
      rewrite orb_false_r.
      destruct (address ++ "]" =? "::1]")%string eqn:E; [| reflexivity].
      apply String.eqb_eq in E. exfalso. apply Hne.
      revert E. clear. revert address.
      assert (H : forall a b : string, (a ++ "]")%string = (b ++ "]")%string -> a = b).
      { induction a as [|x a IH]; intros [|y b]; cbn [String.append]; intros H.
        - reflexivity.
        - destruct b; discriminate.
        - destruct a; discriminate.
        - injection H as -> H. f_equal. apply IH. exact H. }
      intros address E. apply (H address "::1"%string). exact E. }
    assert (He : endsWith ("[" ++ address ++ "]")%string ".local" = false).
    { destruct (endsWith _ _) eqn:E; [| reflexivity].
      apply endsWith_inv in E. destruct E as (pre & E). exfalso.
      change ("[" ++ address ++ "]")%string with (("[" ++ address) ++ "]")%string in E.
      replace (pre ++ ".local")%string with ((pre ++ ".loca") ++ "l")%string in E.
      - revert E. apply last_char_differs. discriminate.
      - clear. induction pre as [|x pre IH]; cbn [String.append]; [reflexivity|].
        now rewrite IH. }
    rewrite Hv, He. reflexivity.
Qed.

End RequestProps.

(** ** Retry policy of the query layer *)

Module QueryClientProps.
Import Backoff Client ClientNotions QueryClient.

Lemma Qeq_bool_inject_Z (s : Z) : Qeq_bool (inject_Z s) 0 = (s =? 0)%Z.
Proof. unfold Qeq_bool, inject_Z. cbn. now rewrite Z.mul_1_r. Qed.

(** X18.  For every error the client throws, the delay
    the query layer waits before retrying is a number of at most 30000 ms.
    It is the client's own backoff delay for the same draw: computed from the
    Retry-After hint of a RATE_LIMITED error when that hint is not negative,
    and exponential in the failure count for every other error.  A negative
    hint, which the client itself ignores, yields a negative delay here. *)
Theorem calculateRetryDelay_after_client_error (ToNumber : JsVal -> option Q) (random : Q)
    (failureCount : nat) (endpoint method : string) (t : Thrown) :
  thrown_by_client endpoint method t ->
  (exists d, calculateRetryDelay ToNumber random failureCount t = Some d /\ (d <= 30000)%Q) /\
  (forall retryAfter,
     t = ThrowApiError (RATE_LIMITED retryAfter endpoint method) ->
     (forall s, retryAfter = Some s -> 0 <= s) ->
     calculateRetryDelay ToNumber random failureCount t
       = Some (calculateBackoffDelay random failureCount (option_map inject_Z retryAfter))) /\
  ((forall retryAfter, t <> ThrowApiError (RATE_LIMITED retryAfter endpoint method)) ->
   calculateRetryDelay ToNumber random failureCount t
     = Some (calculateBackoffDelay random failureCount None)) /\
  (forall s,
     t = ThrowApiError (RATE_LIMITED (Some s) endpoint method) -> s < 0 -> (0 <= random)%Q ->
     exists d, calculateRetryDelay ToNumber random failureCount t = Some d /\ (d < 0)%Q).
Proof.
  intros Ht.
  assert (Hlimited : forall retryAfter,
            calculateRetryDelay ToNumber random failureCount
              (ThrowApiError (RATE_LIMITED retryAfter endpoint method))
            = match retryAfter with
              | Some s =>
                  if (s =? 0)%Z
                  then Some (calculateBackoffDelay random failureCount None)
                  else Some (Qmin (inject_Z s * 1000 + random * (2 # 10) * inject_Z s * 1000)
                                  30000)
              | None => Some (calculateBackoffDelay random failureCount None)
              end).
  { intros [s|]; [| reflexivity].
    unfold calculateRetryDelay. cbn [statusCode RATE_LIMITED details get_prop assoc String.eqb
                                     Ascii.eqb Bool.eqb truthy as_number Z.eqb Pos.eqb andb].
    rewrite Qeq_bool_inject_Z. destruct (s =? 0)%Z; reflexivity. }
  assert (Hother : (forall retryAfter,
                      t <> ThrowApiError (RATE_LIMITED retryAfter endpoint method)) ->
                   calculateRetryDelay ToNumber random failureCount t
                   = Some (calculateBackoffDelay random failureCount None)).
  { intros Hne. destruct t as [e | e]; [| reflexivity]. cbn in Ht.
    destruct Ht as [-> | [-> | [(ra & ->) | (s & Hs & H429 & _)]]]; try reflexivity.
    - now elim (Hne ra).
    - unfold calculateRetryDelay. rewrite Hs.
      apply Z.eqb_neq in H429. rewrite H429. reflexivity. }
  assert (Hhint : forall retryAfter,
            (forall s, retryAfter = Some s -> 0 <= s) ->
            calculateRetryDelay ToNumber random failureCount
              (ThrowApiError (RATE_LIMITED retryAfter endpoint method))
            = Some (calculateBackoffDelay random failureCount
                      (option_map inject_Z retryAfter))).
  { intros ra Hpos. rewrite Hlimited. destruct ra as [s|]; [| reflexivity].
    specialize (Hpos s eq_refl). cbn [option_map]. destruct (s =? 0)%Z eqn:E.
    - apply Z.eqb_eq in E. subst s. reflexivity.
    - apply Z.eqb_neq in E. unfold calculateBackoffDelay. cbv zeta.
      destruct (Qlt_le_dec 0 (inject_Z s)) as [_ | Hle]; [reflexivity|].
      exfalso. unfold Qle, inject_Z in Hle. cbn in Hle. lia. }
  split; [| split; [| split]].
  - assert (Hshape : (exists ra, t = ThrowApiError (RATE_LIMITED ra endpoint method)) \/
                     (forall ra, t <> ThrowApiError (RATE_LIMITED ra endpoint method))).
    { destruct t as [e | e]; [| right; discriminate]. cbn in Ht.
      destruct Ht as [-> | [-> | [(ra & ->) | (s & Hs & H429 & _)]]].
      - right. discriminate.
      - right. discriminate.
      - left. eexists. reflexivity.
      - right. intros ra H. injection H as ->. cbn in Hs. congruence. }
    destruct Hshape as [(ra & ->) | Hne].
    + rewrite Hlimited. destruct ra as [s|].
      * destruct (s =? 0)%Z; eexists; (split; [reflexivity|]);
          [apply BackoffProps.calculateBackoffDelay_cap | apply Q.le_min_r].
      * eexists. split; [reflexivity | apply BackoffProps.calculateBackoffDelay_cap].
    + rewrite (Hother Hne). eexists. split; [reflexivity|].
      apply BackoffProps.calculateBackoffDelay_cap.
  - intros ra -> Hpos. apply Hhint. exact Hpos.
  - exact Hother.
  - intros s -> Hneg Hrandom. rewrite Hlimited.
    assert (E : (s =? 0)%Z = false) by (apply Z.eqb_neq; lia). rewrite E.
    eexists. split; [reflexivity|].
    eapply Qle_lt_trans; [apply Q.le_min_l|].
    assert (Hq : (inject_Z s < 0)%Q) by (unfold Qlt, inject_Z; cbn; lia).
    set (q := inject_Z s) in *. clearbody q.
    assert (Hp : (0 <= random * (2 # 10))%Q) by (apply Qmult_le_0_compat; [assumption | discriminate]).
    set (p := (random * (2 # 10))%Q) in *. clearbody p.
    assert (Hpq : (p * q <= 0)%Q).
    { setoid_replace (p * q)%Q with (- (p * - q))%Q by ring.
      assert (0 <= p * - q)%Q by (apply Qmult_le_0_compat; [assumption | Lqa.lra]).
      Lqa.lra. }
    setoid_replace (q * 1000 + p * q * 1000)%Q with (1000 * q + 1000 * (p * q))%Q by ring.
    Lqa.lra.
Qed.

Lemma calculateRetryDelay_after_client_error_witness :
  calculateRetryDelay (fun _ => None) (1 # 2) 1
    (ThrowApiError (RATE_LIMITED (Some 2) "/patients" "GET"))
  = Some (calculateBackoffDelay (1 # 2) 1 (Some 2%Q)) /\
  calculateRetryDelay (fun _ => None) (1 # 2) 1 (ThrowApiError TIMEOUT)
  = Some (calculateBackoffDelay (1 # 2) 1 None).
Proof.
  split.
  - refine (proj1 (proj2 (calculateRetryDelay_after_client_error (fun _ => None) (1 # 2) 1
                            "/patients" "GET" _ _)) (Some 2) eq_refl _).
    + right. right. left. eexists. reflexivity.
    + intros s H. injection H as <-. lia.
  - refine (proj1 (proj2 (proj2 (calculateRetryDelay_after_client_error (fun _ => None)
                                   (1 # 2) 1 "/patients" "GET" _ _))) _).
    + right. left. reflexivity.
    + discriminate.
Defined.

(** X19.  Applied to the errors the client throws: a
    query is retried at most three times and a mutation at most once; a
    mutation is retried only after RATE_LIMITED, a case in which a query
    would be retried as well; RATE_LIMITED is retried twice by queries;
    TIMEOUT and CSRF_TOKEN_MISSING (statuses 408 and 403) are never retried,
    nor is any other response with a status from 400 to 499; a response with
    a status of 500 or more and an exception of the platform (a network
    failure) are retried three times by queries and never by mutations. *)
Theorem retry_after_client_error (endpoint method : string) (t : Thrown)
    (failureCount : nat) :
  thrown_by_client endpoint method t ->
  (queries_retry failureCount t = true -> (failureCount < 3)%nat) /\
  (mutations_retry failureCount t = true ->
   failureCount = 0%nat /\ queries_retry failureCount t = true /\
   exists retryAfter, t = ThrowApiError (RATE_LIMITED retryAfter endpoint method)) /\
  (forall retryAfter,
     t = ThrowApiError (RATE_LIMITED retryAfter endpoint method) ->
     queries_retry failureCount t = (failureCount <? 2)%nat /\
     mutations_retry failureCount t = (failureCount <? 1)%nat) /\
  (t = ThrowApiError TIMEOUT \/ t = ThrowApiError CSRF_TOKEN_MISSING ->
   queries_retry failureCount t = false /\ mutations_retry failureCount t = false) /\
  (forall e s,
     t = ThrowApiError e -> statusCode e = Some s -> s <> 429 ->
     mutations_retry failureCount t = false /\
     queries_retry failureCount t
       = if (400 <=? s)%Z && (s <? 500)%Z then false else (failureCount <? 3)%nat) /\
  (forall e,
     t = ThrowError e ->
     queries_retry failureCount t = (failureCount <? 3)%nat /\
     mutations_retry failureCount t = false).
Proof.
  intros Ht.
  assert (Hstatus : forall e s,
            t = ThrowApiError e -> statusCode e = Some s -> s <> 429 ->
            mutations_retry failureCount t = false /\
            queries_retry failureCount t
              = if (400 <=? s)%Z && (s <? 500)%Z then false else (failureCount <? 3)%nat).
  { intros e s -> Hs H429. unfold mutations_retry, queries_retry. cbn [statusCode_in].
    rewrite Hs. apply Z.eqb_neq in H429. rewrite H429. split; [reflexivity|].
    destruct (s =? 0)%Z eqn:E0; cbn [negb andb]; [| reflexivity].
    apply Z.eqb_eq in E0. subst s. reflexivity. }
  split; [| split; [| split; [| split; [| split]]]].
  - unfold queries_retry.
    destruct (statusCode_in t) as [s|]; [| intros H; now apply Nat.ltb_lt in H].
    destruct (s =? 429)%Z; [intros H; apply Nat.ltb_lt in H; lia|].
    destruct (negb _ && _ && _)%bool; [discriminate|].
    intros H. now apply Nat.ltb_lt in H.
  - intros Hm. destruct t as [e | e]; [| discriminate Hm]. cbn in Ht.
    destruct Ht as [-> | [-> | [(ra & ->) | (s & Hs & H429 & _)]]]; try discriminate Hm.
    + change (mutations_retry failureCount
                (ThrowApiError (RATE_LIMITED ra endpoint method)))
        with (failureCount <? 1)%nat in Hm.
      apply Nat.ltb_lt in Hm. assert (failureCount = 0%nat) by lia. subst.
      repeat split. eexists. reflexivity.
    + destruct (Hstatus e s eq_refl Hs H429) as [Hmf _]. congruence.
  - intros ra ->. split; reflexivity.
  - intros [-> | ->]; split; reflexivity.
  - exact Hstatus.
  - intros e ->. split; reflexivity.
Qed.

Lemma retry_after_client_error_witness :
  queries_retry 0 (ThrowApiError TIMEOUT) = false /\
  mutations_retry 0 (ThrowApiError (RATE_LIMITED (Some 2) "/patients" "POST")) = true /\
  queries_retry 2 (ThrowError (mkError "TypeError" "Failed to fetch")) = true.
Proof.
  split; [| split].
  - refine (proj1 (proj1 (proj2 (proj2 (proj2 (retry_after_client_error "/patients" "GET"
                      (ThrowApiError TIMEOUT) 0 _)))) (or_introl eq_refl))).
    right. left. reflexivity.
  - reflexivity.
  - reflexivity.
Defined.

End QueryClientProps.

(** ** Patient API and audit trail *)

Module PatientApiProps.
Import Client ClientNotions SecureLogger Security Identity PatientApi.

Lemma logged_run {A} env message (call : M A) s :
  logged env message call s
  = (fst (call (api s)),
     mkApp (snd (call (api s)))
           (console s ++ failure_lines env message (fst (call (api s))))).
Proof.
  unfold logged, catch, lift. destruct (call (api s)) as [[a | t] w]; cbn [fst snd].
  - unfold failure_lines. now rewrite app_nil_r.
  - reflexivity.
Qed.

Lemma failure_lines_production {A} env message (r : Outcome A) :
  isProduction env = true ->
  Forall (fun line => text line = ("[SECURE] " ++ message)%string /\
                      Forall clean_arg (args line))
         (failure_lines env message r).
Proof.
  intros Hp. destruct r as [a | t]; [constructor|].
  unfold failure_lines, SecureLogger.error. rewrite Hp.
  constructor; [| constructor]. cbn [text args map]. split; [reflexivity|].
  constructor; [| constructor].
  destruct t as [e | e]; cbn [arg_of_thrown clean_arg];
    [apply SecureLoggerProps.sanitizeObject_clean | exact I].
Qed.

Section Calls.
Variable h : Host.
Variable env : ProcessEnv.
Variable net : nat -> Attempt.

Lemma logged_request message method endpoint config body s r s' :
  logged env message (request h env net method endpoint config body) s = (r, s') ->
  r = fst (request h env net method endpoint config body (api s)) /\
  api s' = snd (request h env net method endpoint config body (api s)) /\
  console s' = console s ++ failure_lines env message r /\
  exists evs url,
    added s s' evs /\
    (network_calls evs <= 4)%nat /\
    Forall (fun c => fc_url c = url /\ fc_method c = method /\ fc_body c = sent_body body)
           (calls_of evs) /\
    match r with
    | Return _ => (1 <= network_calls evs)%nat
    | Throw t => thrown_by_client endpoint method t
    end.
Proof.
  rewrite logged_run. intros H. injection H as <- <-.
  destruct (request h env net method endpoint config body (api s)) as [r w] eqn:Hr.
  cbn [fst snd console api].
  split; [reflexivity | split; [reflexivity | split; [reflexivity|]]].
  destruct (RequestProps.request_summary _ _ _ _ _ _ _ _ _ _ Hr)
    as (evs & url & Htr & Hn & Hshape & Hend).
  exists evs, url. unfold added. cbn [api]. repeat split; assumption.
Qed.

(** X20.  Each function of the patient API that returns data is one
    request of the client (GET for the three reads, POST for registering and
    validating, PATCH for updating, with the parameters or the body given)
    inside a handler that logs and rethrows: it returns what the request
    returns and throws what the request throws, unchanged; the client is left
    as the request leaves it, after at most four network calls (at least one
    when a value is returned), all with that method and body to one URL.
    Whatever the client itself warns about during the request is among the
    events of the request; the function itself writes through
    [secureLogger.error] only: one line when the request fails, which in
    production is the tagged message with a sanitised argument, and none when
    it succeeds. *)
Theorem patient_api_calls (call : PatientCall) (s : AppState) r s' :
  perform h env net call s = (r, s') ->
  let sent :=
    request h env net (method_of call) (endpoint_of call) (config_of call) (body_of call)
      (api s) in
  r = fst sent /\
  api s' = snd sent /\
  console s' = console s ++ failure_lines env (message_of call) r /\
  (length (failure_lines env (message_of call) r)
   = match r with Return _ => 0 | Throw _ => 1 end)%nat /\
  (isProduction env = true ->
   Forall (fun line => text line = ("[SECURE] " ++ message_of call)%string /\
                       Forall clean_arg (args line))
          (failure_lines env (message_of call) r)) /\
  exists evs url,
    added s s' evs /\
    (network_calls evs <= 4)%nat /\
    Forall (fun c => fc_url c = url /\ fc_method c = method_of call /\
                     fc_body c = sent_body (body_of call)) (calls_of evs) /\
    match r with
    | Return _ => (1 <= network_calls evs)%nat
    | Throw t => thrown_by_client (endpoint_of call) (method_of call) t
    end.
Proof.
  intros H. cbv zeta.
  assert (Hlogged :
    logged env (message_of call)
      (request h env net (method_of call) (endpoint_of call) (config_of call) (body_of call)) s
    = (r, s')) by (destruct call; exact H).
  destruct (logged_request _ _ _ _ _ _ _ _ Hlogged) as (Hr & Hw & Hc & Hev).
  split; [exact Hr | split; [exact Hw | split; [exact Hc | split; [| split]]]].
  - destruct r; [reflexivity|]. unfold failure_lines, SecureLogger.error.
    destruct (isProduction env); reflexivity.
  - intros Hp. apply failure_lines_production. exact Hp.
  - exact Hev.
Qed.

(** X21.  Deactivating a patient never issues a DELETE: every network call
    it makes is a PATCH of one URL with the body [{isActive: false}], at most
    four of them and at least one when it succeeds.  It returns nothing
    exactly when the request returns, and throws what the client threw
    otherwise; the client is left as the request leaves it, its own warnings
    included.  The function itself writes through [secureLogger.error] only:
    one line when the request fails and none when it succeeds. *)
Theorem deactivatePatient_is_soft id s r s' :
  deactivatePatient h env net id s = (r, s') ->
  let sent :=
    request h env net "PATCH" ("/api/v1/patients/" ++ id) None
      (Some (JObj [("isActive", JBool false)])) (api s) in
  api s' = snd sent /\
  r = match fst sent with Return _ => Return tt | Throw t => Throw t end /\
  console s' = console s ++ failure_lines env "Failed to deactivate patient:" r /\
  (length (failure_lines env "Failed to deactivate patient:" r)
   = match r with Return _ => 0 | Throw _ => 1 end)%nat /\
  exists evs url,
    added s s' evs /\
    (network_calls evs <= 4)%nat /\
    Forall (fun c => fc_url c = url /\ fc_method c = "PATCH"%string /\
                     fc_body c = Some (JObj [("isActive", JBool false)]))
           (calls_of evs) /\
    match r with
    | Return _ => (1 <= network_calls evs)%nat
    | Throw t => thrown_by_client ("/api/v1/patients/" ++ id) "PATCH" t
    end.
Proof.
  unfold deactivatePatient. rewrite logged_run. intros H. injection H as <- <-.
  cbv zeta. unfold bind, patch. change (ENDPOINTS_patient id) with ("/api/v1/patients/" ++ id)%string.
  destruct (request h env net "PATCH" ("/api/v1/patients/" ++ id) None
              (Some (JObj [("isActive", JBool false)])) (api s)) as [r0 w] eqn:Hr.
  destruct (RequestProps.request_summary _ _ _ _ _ _ _ _ _ _ Hr)
    as (evs & url & Htr & Hn & Hshape & Hend).
  assert (Hlen : forall o : Outcome unit,
            (length (failure_lines env "Failed to deactivate patient:" o)
             = match o with Return _ => 0 | Throw _ => 1 end)%nat).
  { intros [u | t]; [reflexivity|]. unfold failure_lines, SecureLogger.error.
    destruct (isProduction env); reflexivity. }
  destruct r0 as [v | t]; cbn [fst snd api console ret];
    (split; [reflexivity | split; [reflexivity | split; [reflexivity | split;
       [apply Hlen | exists evs, url; unfold added; cbn [api]; repeat split; assumption]]]]).
Qed.

Lemma logAuditEntry_run now userId action resourceType resourceId details s :
  let sent :=
    request h env net "POST" "/api/v1/audit" (Some with_auth_only)
      (Some (JsVal_of_AuditEntry
               (createAuditEntry now userId action resourceType resourceId details)))
      (api s) in
  logAuditEntry h env net now userId action resourceType resourceId details s
  = (Return tt,
     mkApp (snd sent)
           (console s ++
            match fst sent with
            | Return _ => []
            | Throw t => [mkLine level_error "Failed to log audit entry:" [arg_of_thrown t]]
            end)).
Proof.
  cbv zeta. unfold logAuditEntry, catch, and_then, lift, post.
  change AUDIT_ENDPOINT with "/api/v1/audit"%string.
  destruct (request h env net "POST" "/api/v1/audit" (Some with_auth_only) _ (api s))
    as [[v | t] w]; cbn [fst snd]; [| reflexivity].
  unfold pure. cbn [api console]. now rewrite app_nil_r.
Qed.

Lemma audit_request_calls (entry : JsVal) w :
  truthy entry = true ->
  exists evs url,
    trace (snd (request h env net "POST" "/api/v1/audit" (Some with_auth_only)
                  (Some entry) w)) = trace w ++ evs /\
    (network_calls evs <= 4)%nat /\
    Forall (fun c => fc_url c = url /\ fc_method c = "POST"%string /\
                     fc_body c = Some entry) (calls_of evs) /\
    match fst (request h env net "POST" "/api/v1/audit" (Some with_auth_only)
                 (Some entry) w) with
    | Return _ => (1 <= network_calls evs)%nat
    | Throw _ =>
        isProduction env = true -> no_csrf_token (att_document (net 0%nat)) = true ->
        network_calls evs = 0%nat
    end /\
    (isProduction env = true -> no_csrf_token (att_document (net 0%nat)) = true ->
     exists t, fst (request h env net "POST" "/api/v1/audit" (Some with_auth_only)
                      (Some entry) w) = Throw t).
Proof.
  intros Htruthy.
  destruct (request h env net "POST" "/api/v1/audit" (Some with_auth_only) (Some entry) w)
    as [r w'] eqn:Hr.
  destruct (RequestProps.request_summary _ _ _ _ _ _ _ _ _ _ Hr)
    as (evs & url & Htr & Hn & Hshape & Hend).
  assert (Hblocked :
    isProduction env = true -> no_csrf_token (att_document (net 0%nat)) = true ->
    exists t, r = Throw t /\ network_calls evs = 0%nat).
  { intros Hprod Hdoc.
    destruct (RequestProps.request_blocked h env net "POST" "/api/v1/audit"
                (Some with_auth_only) (Some entry) w eq_refl Hprod Hdoc)
      as (t & w1 & Hreq & Hcalls).
    rewrite Hr in Hreq. injection Hreq as -> ->. exists t. split; [reflexivity|].
    rewrite Htr, ClientProps.network_calls_app in Hcalls. lia. }
  exists evs, url. cbn [fst snd].
  split; [exact Htr | split; [exact Hn | split; [| split]]].
  - eapply Forall_impl; [| exact Hshape]. intros c (Hu & Hm & Hb).
    unfold sent_body in Hb. rewrite Htruthy in Hb. repeat split; assumption.
  - destruct r as [v | t]; [exact Hend|].
    intros Hprod Hdoc. destruct (Hblocked Hprod Hdoc) as (_ & _ & H0). exact H0.
  - intros Hprod Hdoc. destruct (Hblocked Hprod Hdoc) as (t & -> & _). exists t. reflexivity.
Qed.

(** X22.  [logAuditEntry] never throws.  It runs one POST request of the
    audit entry, with its details redacted, to [/api/v1/audit]: every network
    call made is that POST, at most four of them, at least one when the
    request succeeds.  The client is left as the request leaves it, its own
    warnings included.  The function itself writes one line with
    [console.error] when the request fails, holding the caught value as it is
    in every mode, and none when it succeeds.  The request may fail before
    any network call: in production, when the page holds no anti-forgery
    token, nothing is sent and the error line is all that is left of the
    entry. *)
Theorem logAuditEntry_never_throws now userId action resourceType resourceId details s :
  let entry :=
    JsVal_of_AuditEntry
      (createAuditEntry now userId action resourceType resourceId details) in
  let sent :=
    request h env net "POST" "/api/v1/audit" (Some with_auth_only) (Some entry) (api s) in
  exists s' evs url,
    logAuditEntry h env net now userId action resourceType resourceId details s
      = (Return tt, s') /\
    api s' = snd sent /\
    added s s' evs /\
    (network_calls evs <= 4)%nat /\
    Forall (fun c => fc_url c = url /\ fc_method c = "POST"%string /\
                     fc_body c = Some entry) (calls_of evs) /\
    redacted default_sensitiveFields (get_prop entry "details") /\
    console s'
    = console s ++
      match fst sent with
      | Return _ => []
      | Throw t => [mkLine level_error "Failed to log audit entry:" [arg_of_thrown t]]
      end /\
    match fst sent with
    | Return _ => (1 <= network_calls evs)%nat
    | Throw _ => True
    end /\
    (isProduction env = true -> no_csrf_token (att_document (net 0%nat)) = true ->
     network_calls evs = 0%nat /\
     exists t,
       fst sent = Throw t /\
       console s'
       = console s ++ [mkLine level_error "Failed to log audit entry:" [arg_of_thrown t]]).
Proof.
  intros entry sent.
  pose proof (logAuditEntry_run now userId action resourceType resourceId details s) as Hrun.
  cbv zeta in Hrun. fold entry in Hrun. fold sent in Hrun.
  destruct (audit_request_calls entry (api s) eq_refl)
    as (evs & url & Htr & Hn & Hcalls & Hend & Hblocked).
  fold sent in Htr, Hend, Hblocked.
  eexists. exists evs, url. split; [exact Hrun|]. unfold added. cbn [api console].
  split; [reflexivity|].
  split; [exact Htr | split; [exact Hn | split; [exact Hcalls | split;
    [| split; [reflexivity | split]]]]].
  - unfold entry, createAuditEntry, JsVal_of_AuditEntry. cbn [entry_details].
    destruct details as [d|]; [destruct (truthy d)|]; cbn;
      [apply SecurityProps.redact_settled | exact I | exact I].
  - destruct (fst sent); [exact Hend | exact I].
  - intros Hprod Hdoc. destruct (Hblocked Hprod Hdoc) as (t & Ht).
    rewrite Ht in Hend |- *. split; [exact (Hend Hprod Hdoc)|].
    exists t. split; reflexivity.
Qed.

End Calls.

Lemma patient_api_calls_witness :
  let run :=
    fetchPatient Sample.host Sample.development Cases.throttled_then_fine "42"
      Cases.at_rest in
  fst run = Return Cases.ada /\
  console (snd run) = [] /\
  length (warnings_of (trace (api (snd run)))) = 1%nat.
Proof.
  cbv zeta.
  destruct (patient_api_calls Sample.host Sample.development Cases.throttled_then_fine
              (FetchPatient "42") Cases.at_rest _ _ (surjective_pairing _))
    as (Hr & Hw & Hc & _).
  split; [| split].
  - change (fst (perform Sample.host Sample.development Cases.throttled_then_fine
                   (FetchPatient "42") Cases.at_rest) = Return Cases.ada).
    rewrite Hr. reflexivity.
  - change (console (snd (perform Sample.host Sample.development Cases.throttled_then_fine
                            (FetchPatient "42") Cases.at_rest)) = []).
    rewrite Hc, Hr. reflexivity.
  - change (length (warnings_of (trace (api (snd (perform Sample.host Sample.development
              Cases.throttled_then_fine (FetchPatient "42") Cases.at_rest))))) = 1%nat).
    rewrite Hw. reflexivity.
Defined.

Lemma deactivatePatient_is_soft_witness :
  let run :=
    deactivatePatient Sample.host Sample.development Sample.always_throttled "42"
      Cases.at_rest in
  length (console (snd run)) = 1%nat /\
  length (warnings_of (trace (api (snd run)))) = 4%nat /\
  exists evs url,
    added Cases.at_rest (snd run) evs /\
    (network_calls evs <= 4)%nat /\
    Forall (fun c => fc_url c = url /\ fc_method c = "PATCH"%string /\
                     fc_body c = Some (JObj [("isActive", JBool false)]))
           (calls_of evs).
Proof.
  cbv zeta.
  destruct (deactivatePatient_is_soft Sample.host Sample.development Sample.always_throttled
              "42" Cases.at_rest _ _ (surjective_pairing _))
    as (Hw & Hr & Hc & Hlen & evs & url & Ha & Hn & Hcalls & _).
  split; [| split].
  - rewrite Hc, Hr. reflexivity.
  - rewrite Hw. reflexivity.
  - exists evs, url. repeat split; assumption.
Defined.

Section Guards.
Variable h : Host.
Variable env : ProcessEnv.
Variable net : nat -> Attempt.
Variable msalInstance : option PublicClientApplication.
Variable ToString : JsVal -> string.

Lemma existsb_roles_include user (rs : list string) :
  existsb (fun role => roles_include user role) rs
  = existsb (fun role => existsb (String.eqb role) (roles user)) rs.
Proof. reflexivity. Qed.

(** X23.  The mutations check the roles of the signed-in user
    before any request: registering needs ADMIN, DOCTOR, NURSE or
    RECEPTIONIST, updating needs ADMIN, DOCTOR or NURSE, deactivating needs
    ADMIN.  A refused call throws the FORBIDDEN error with status 403 and
    leaves the state as it was: no network call, no console line.  A granted
    call is the call of the API function.  Before MSAL is initialised each of
    them throws the [Error] of [getMsalInstance] instead. *)
Theorem mutations_are_guarded (s : AppState) :
  (msalInstance = None ->
   forall id data,
     useRegisterPatient_mutationFn h env msalInstance net data s
       = (Throw (new_Error "MSAL instance not initialized. Call initializeMsal() first."), s) /\
     useUpdatePatient_mutationFn h env msalInstance net id data s
       = (Throw (new_Error "MSAL instance not initialized. Call initializeMsal() first."), s) /\
     useDeactivatePatient_mutationFn h env msalInstance net id s
       = (Throw (new_Error "MSAL instance not initialized. Call initializeMsal() first."), s)) /\
  (msalInstance <> None ->
   let holds role := existsb (String.eqb role) (held_roles msalInstance) in
   forall id data,
     useRegisterPatient_mutationFn h env msalInstance net data s
       = (if holds "ADMIN" || holds "DOCTOR" || holds "NURSE" || holds "RECEPTIONIST"
          then registerPatient h env net data s
          else (Throw (ThrowApiError
                         (FORBIDDEN "You do not have permission to register patients")), s)) /\
     useUpdatePatient_mutationFn h env msalInstance net id data s
       = (if holds "ADMIN" || holds "DOCTOR" || holds "NURSE"
          then updatePatient h env net id data s
          else (Throw (ThrowApiError
                         (FORBIDDEN "You do not have permission to update patient records")),
                s)) /\
     useDeactivatePatient_mutationFn h env msalInstance net id s
       = (if holds "ADMIN"
          then deactivatePatient h env net id s
          else (Throw (ThrowApiError
                         (FORBIDDEN
                            "You do not have permission to deactivate patient records. Admin access required.")),
                s))).
Proof.
  split.
  - intros -> id data. repeat split.
  - intros Hi holds id data. subst holds.
    destruct msalInstance as [instance|]; [clear Hi | congruence].
    unfold useRegisterPatient_mutationFn, useUpdatePatient_mutationFn,
      useDeactivatePatient_mutationFn, and_then, settle, hasAnyRole, hasRole, held_roles,
      getCurrentUser, getCurrentAccount, getMsalInstance.
    destruct (getAllAccounts instance) as [|first others]; [repeat split|].
    set (user := getUserFromAccount _).
    unfold pure, raise, roles_include. cbn [existsb].
    repeat rewrite Bool.orb_false_r. repeat rewrite Bool.orb_assoc.
    repeat split;
      match goal with |- context [negb ?b] => destruct b end; reflexivity.
Qed.

Lemma read_field_run base key s :
  read_field base key s
  = if nullish base
    then (Throw (ThrowError
                   (mkError "TypeError"
                      ("Cannot read properties of " ++
                       (match base with JNull => "null" | _ => "undefined" end) ++
                       " (reading '" ++ key ++ "')"))), s)
    else (Return (get_prop base key), s).
Proof. destruct base; reflexivity. Qed.

(** X24.  The query of [usePatient] fetches first.  A failed fetch is
    rethrown and nothing is audited.  Without a user id the patient is
    returned and nothing is audited.  With a user id, a patient without
    [demographics] makes the query fail with a TypeError before the audit;
    otherwise [logAuditEntry] is run for the view, with the name of the
    patient as details, and the patient is returned whatever becomes of it:
    every network call the audit makes is a POST of that entry, at most four
    of them, at least one when the audit request succeeds, and none in
    production when the page holds no anti-forgery token. *)
Theorem usePatient_audits_after_fetch audit_net now id userId s r s' :
  usePatient_queryFn h env ToString net audit_net now id userId s = (r, s') ->
  let fetched := fetchPatient h env net id s in
  match fst fetched with
  | Throw t => r = Throw t /\ s' = snd fetched
  | Return patient =>
      match userId with
      | None => r = Return patient /\ s' = snd fetched
      | Some u =>
          if (u =? "")%string then r = Return patient /\ s' = snd fetched
          else if nullish (get_prop patient "demographics") then
            (exists e, r = Throw (ThrowError e) /\ err_name e = "TypeError"%string) /\
            s' = snd fetched
          else
            let audit :=
              request h env audit_net "POST" "/api/v1/audit" (Some with_auth_only)
                (Some (view_entry ToString now u id patient)) (api (snd fetched)) in
            r = Return patient /\
            s' = snd (logAuditEntry h env audit_net now u audit_view "Patient" id
                        (Some (JObj [("patientName",
                                      JStr (ToString (get_prop (get_prop patient "demographics")
                                                        "firstName") ++ " " ++
                                            ToString (get_prop (get_prop patient "demographics")
                                                        "lastName")))]))
                        (snd fetched)) /\
            api s' = snd audit /\
            exists evs url,
              added (snd fetched) s' evs /\
              (network_calls evs <= 4)%nat /\
              Forall (fun c => fc_url c = url /\ fc_method c = "POST"%string /\
                               fc_body c = Some (view_entry ToString now u id patient))
                     (calls_of evs) /\
              match fst audit with
              | Return _ => (1 <= network_calls evs)%nat
              | Throw _ =>
                  isProduction env = true ->
                  no_csrf_token (att_document (audit_net 0%nat)) = true ->
                  network_calls evs = 0%nat
              end
      end
  end.
Proof.
  intros H fetched. unfold usePatient_queryFn in H. unfold and_then at 1 in H.
  fold fetched in H. destruct fetched as [[patient | t] s1]; cbn [fst snd].
  - destruct userId as [u|].
    + destruct (u =? "")%string eqn:Eu; cbn [negb] in H.
      * unfold and_then, pure in H. now injection H as <- <-.
      * unfold and_then at 1 2 in H. rewrite read_field_run in H.
        destruct (nullish patient) eqn:Ep.
        { assert (Hd : nullish (get_prop patient "demographics") = true)
            by (destruct patient; try discriminate Ep; reflexivity).
          rewrite Hd. injection H as <- <-. split; [| reflexivity].
          eexists. split; reflexivity. }
        unfold and_then at 1 in H. rewrite read_field_run in H.
        destruct (nullish (get_prop patient "demographics")) eqn:Ed.
        { injection H as <- <-. split; [| reflexivity]. eexists. split; reflexivity. }
        unfold and_then at 1 in H. rewrite read_field_run, Ep in H.
        unfold and_then at 1 in H. rewrite read_field_run, Ed in H.
        cbv zeta.
        pose proof (logAuditEntry_run h env audit_net now u audit_view "Patient"%string id
                      (Some (JObj [("patientName",
                                    JStr (ToString (get_prop (get_prop patient "demographics")
                                                      "firstName") ++ " " ++
                                          ToString (get_prop (get_prop patient "demographics")
                                                      "lastName")))])) s1) as Hrun.
        cbv zeta in Hrun. rewrite Hrun in H |- *. unfold pure in H.
        injection H as <- <-. cbn [snd api].
        split; [reflexivity | split; [reflexivity | split; [reflexivity|]]].
        destruct (audit_request_calls h env audit_net
                    (view_entry ToString now u id patient) (api s1) eq_refl)
          as (evs & url & Htr & Hn & Hc & Hend & _).
        exists evs, url. unfold added. cbn [api]. repeat split; assumption.
    + unfold and_then, pure in H. cbn in H. now injection H as <- <-.
  - now injection H as <- <-.
Qed.

End Guards.

Lemma usePatient_audits_after_fetch_witness :
  fst (usePatient_queryFn Sample.host Sample.development Cases.ToString Cases.fine
         Sample.offline 1445412470000 "42" (Some "u-1") Cases.at_rest)
  = Return Cases.ada /\
  (let blocked :=
     usePatient_queryFn Sample.host Sample.production Cases.ToString Cases.fine
       Sample.tokenless_page 1445412470000 "42" (Some "u-1") Cases.at_rest in
   fst blocked = Return Cases.ada /\
   network_calls (trace (api (snd blocked))) = 1%nat /\
   length (console (snd blocked)) = 1%nat).
Proof.
  pose proof (usePatient_audits_after_fetch Sample.host Sample.development Cases.fine
                Cases.ToString Sample.offline 1445412470000 "42"%string (Some "u-1"%string)
                Cases.at_rest _ _ (surjective_pairing _)) as H.
  pose proof (usePatient_audits_after_fetch Sample.host Sample.production Cases.fine
                Cases.ToString Sample.tokenless_page 1445412470000 "42"%string
                (Some "u-1"%string) Cases.at_rest _ _ (surjective_pairing _)) as H'.
  split; [exact (proj1 H)|]. cbv zeta.
  destruct H' as (Hr & Hs & _). split; [exact Hr|].
  rewrite Hs. split; reflexivity.
Defined.

End PatientApiProps.

(** ** Token renewal *)

Module RenewalProps.
Import Auth AuthProps.

(** X25.  In every state the module can reach, at most
    one renewal timer is pending and it is the one the module variable names;
    at most one token operation is suspended; the flag [isRefreshing] is up
    exactly when the shared promise is set and exactly when an operation is
    suspended; and the shared promise, when set, is still pending. *)
Theorem refresh_invariants (st : State) :
  reachable st ->
  (length (timers st) <= 1)%nat /\
  (forall t, In t (timers st) -> tokenRefreshTimeout st = Some (timer_id t)) /\
  (length (operations st) <= 1)%nat /\
  (isRefreshing st = true <-> tokenRefreshPromise st <> None) /\
  (isRefreshing st = true <-> operations st <> []) /\
  (forall p, tokenRefreshPromise st = Some p -> promise_state p st = None).
Proof.
  intros Hreach.
  pose proof (reachable_timers_owned st Hreach) as Hown.
  destruct (reachable_single_flight st Hreach) as [_ Hflight].
  split; [| split].
  - destruct Hown as [-> | (t & -> & _)]; cbn; lia.
  - intros t Hin. destruct Hown as [Hnil | (t0 & Ht0 & Hid & _)].
    + rewrite Hnil in Hin. destruct Hin.
    + rewrite Ht0 in Hin. destruct Hin as [<- | []]. exact Hid.
  - destruct Hflight as [(Hr & Hp & Ho) | (p & Hr & Hp & (stage & request & Ho) & _ & Hps)];
      rewrite Hr, Hp, Ho; cbn [length].
    + repeat split; try lia; congruence.
    + repeat split; try lia; congruence.
Qed.

Lemma refresh_invariants_witness :
  (length (timers Sample.holding_token) <= 1)%nat /\
  (length (operations Sample.holding_token) <= 1)%nat.
Proof.
  destruct (refresh_invariants Sample.holding_token) as (H1 & _ & H3 & _).
  - unfold Sample.holding_token. apply reachable_run.
    unfold Sample.signed_in. eexists. reflexivity.
  - split; assumption.
Defined.

Lemma timer_fires_pending (st : State) (tm : Timer) :
  timers st = [tm] ->
  timer_fires (timer_id tm) st
  = match getAccessToken None
            (with_timers st (tokenRefreshTimeout st) [] (next_timer st)) with
    | (Follows p, st') => with_waiter st' p
    | (Threw _, st') => with_log st' (secureLogger_error "Proactive token refresh failed:")
    end.
Proof.
  intros Ht. unfold timer_fires. rewrite Ht. cbn [existsb]. rewrite Nat.eqb_refl.
  cbn [orb]. now rewrite clearTimeout_owned.
Qed.

(** X26.  When the renewal timer fires while no refresh is in
    progress, no timer is left pending.  With nobody signed in the renewal
    fails at once: one error line, nothing started.  With an account, one
    silent acquisition starts for the default scopes.  If it succeeds with an
    expiry more than five minutes ahead, the next renewal is scheduled five
    minutes before that expiry; if it and the interactive fallback both fail,
    the failure is logged, not thrown, and no renewal is scheduled any
    more. *)
Theorem renewal_cycle (st : State) (tm : Timer) :
  reachable st -> idle st -> timers st = [tm] ->
  let st1 := timer_fires (timer_id tm) st in
  timers st1 = [] /\
  (~ signed_in st ->
   idle st1 /\ silent_started st1 = silent_started st /\
   log st1 = log st ++ [secureLogger_error "Proactive token refresh failed:"]) /\
  (forall m acc,
     msalInstance st = Some m -> getCurrentAccount m = Some acc ->
     let p := next_promise st in
     in_progress p st1 /\
     log st1 = log st ++ [acquireTokenSilent (request_for m acc None)] /\
     (forall response now,
        let st2 := silent_settles p (Resolved response) now st1 in
        idle st2 /\ promise_state p st2 = Some (Resolved (accessToken response)) /\
        (forall t, expiresOn response = Some (Some t) -> now < t - 5 * 60 * 1000 ->
           exists tm', timers st2 = [tm'] /\ fires_at tm' = t - 5 * 60 * 1000)) /\
     (forall e e' now now',
        let st3 :=
          popup_settles p (Rejected e') now' (silent_settles p (Rejected e) now st1) in
        idle st3 /\ timers st3 = [] /\ promise_state p st3 = Some (Rejected e') /\
        In (secureLogger_error "Proactive token refresh failed:") (log st3))).
Proof.
  intros Hreach (Hr & Hp & Ho) Ht st1.
  destruct (reachable_single_flight st Hreach) as [Hfresh _].
  pose proof (timer_fires_pending st tm Ht) as Hfire. fold st1 in Hfire.
  set (st0 := with_timers st (tokenRefreshTimeout st) [] (next_timer st)) in Hfire.
  assert (Hr0 : isRefreshing st0 = false) by exact Hr.
  split; [| split].
  - rewrite Hfire. pose proof (getAccessToken_timers None st0) as (H1 & _).
    destruct (getAccessToken None st0) as [[p | e] st']; cbn [snd] in H1; exact H1.
  - intros Hout.
    assert (Hnone : msalInstance st0 = None \/
                    exists m, msalInstance st0 = Some m /\ getCurrentAccount m = None).
    { change (msalInstance st0) with (msalInstance st).
      destruct (msalInstance st) as [m|] eqn:Hm; [| now left].
      right. exists m. split; [reflexivity|].
      destruct (getCurrentAccount m) as [acc|] eqn:Ha; [| reflexivity].
      exfalso. apply Hout. exists m, acc. split; assumption. }
    destruct (getAccessToken_throws None st0 Hr0 Hnone) as (e & He).
    rewrite He in Hfire. rewrite Hfire.
    split; [repeat split; assumption|]. split; [| reflexivity].
    unfold silent_started. cbn [log with_log with_timers st0].
    rewrite started_app. cbn. lia.
  - intros m acc Hm Ha p.
    destruct (getAccessToken_starts None st0 m acc Hr0 Hm Ha)
      as (st' & Hget & Hr' & Hp' & Ho' & Hl' & Hs' & Hn' & Hm').
    change (next_promise st0) with p in *.
    change (operations st0) with (operations st) in Ho'. rewrite Ho in Ho'. cbn [app] in Ho'.
    rewrite Hget in Hfire.
    assert (Hin : in_progress p st').
    { repeat split; try assumption.
      - eexists _, _. exact Ho'.
      - rewrite Hn'. unfold p. lia.
      - unfold promise_state. rewrite Hs'.
        apply (promise_state_fresh p st Hfresh). unfold p. lia. }
    assert (Hin1 : in_progress p st1) by (rewrite Hfire; exact Hin).
    assert (Ho1 : operations st1 = [(p, AwaitingSilent, request_for m acc None)])
      by (rewrite Hfire; exact Ho').
    assert (Ht1 : timers st1 = []).
    { rewrite Hfire. pose proof (getAccessToken_timers None st0) as (H1 & _).
      rewrite Hget in H1. exact H1. }
    split; [exact Hin1 | split; [rewrite Hfire; exact Hl' | split]].
    + intros response now st2.
      destruct (silent_resolved p response now st1 _ Hin1 Ho1) as (Hps & Hidle & _).
      split; [exact Hidle | split; [exact Hps|]].
      intros t Ht' Hlt. subst st2. unfold silent_settles.
      rewrite (find_operation_one p _ _ st1 Ho1 p), Nat.eqb_refl.
      pose proof (scheduleTokenRefresh_cases (expiresOn response) now st1
                    (or_introl Ht1)) as Hc.
      cbv zeta in Hc. rewrite Ht' in Hc. unfold TOKEN_REFRESH_BUFFER_MS in Hc.
      destruct (Z.ltb_spec 0 (t - 5 * 60 * 1000 - now)); [| lia].
      destruct Hc as (Hc & _). rewrite Ht'.
      cbn [timers finish drop_operation with_operations].
      eexists. split; [exact Hc|]. unfold fires_at. cbn. lia.
    + intros e e' now now' st3.
      destruct (silent_rejected p e now st1 _ Hin1 Ho1) as (Hin2 & Ho2 & _).
      destruct (popup_settled p (Rejected e') now' _ _ Hin2 Ho2) as (Hps & Hidle & _).
      split; [exact Hidle | split; [| split; [exact Hps|]]].
      * subst st3. unfold popup_settles.
        rewrite (find_operation_one p _ _ _ Ho2 p), Nat.eqb_refl.
        cbn [timers finish drop_operation with_operations with_log]. unfold silent_settles.
        rewrite (find_operation_one p _ _ st1 Ho1 p), Nat.eqb_refl. exact Ht1.
      * subst st3. unfold popup_settles.
        rewrite (find_operation_one p _ _ _ Ho2 p), Nat.eqb_refl.
        unfold silent_settles.
        rewrite (find_operation_one p _ _ st1 Ho1 p), Nat.eqb_refl.
        cbn [log finish drop_operation with_operations with_log renewal_waiters].
        apply in_or_app. right. apply in_map_iff. exists p. split; [reflexivity|].
        apply filter_In. split; [| apply Nat.eqb_refl].
        rewrite Hfire. cbn [renewal_waiters with_waiter].
        apply in_or_app. right. left. reflexivity.
Qed.

Lemma renewal_cycle_witness :
  exists tm',
    timers (silent_settles 2 (Resolved (mkAuthResult "t2" (Some (Some 9000000)))) 3700000
              (timer_fires 1 Sample.holding_token)) = [tm'] /\
    fires_at tm' = 9000000 - 5 * 60 * 1000.
Proof.
  destruct (renewal_cycle Sample.holding_token (mkTimer 1 1000 3699000)) as (_ & _ & H).
  - unfold Sample.holding_token. apply reachable_run.
    unfold Sample.signed_in. eexists. reflexivity.
  - repeat split; reflexivity.
  - reflexivity.
  - destruct (H (mkMsal ["ada@example.com"] None ["api/read"]) "ada@example.com"%string
                eq_refl eq_refl) as (_ & _ & Hok & _).
    destruct (Hok (mkAuthResult "t2" (Some (Some 9000000))) 3700000) as (_ & _ & Hnext).
    apply (Hnext 9000000 eq_refl). lia.
Defined.

End RenewalProps.
